(** * radard: radar / vision lead fusion

    A shallow embedding of [selfdrive/controls/radard.py] and the
    verification of its specification.

    Numbers.  The program computes on Python floats.  As the specification
    does (it treats the decay of [aLeadTau] as exact multiplication by 0.9,
    "no explicit floor"), floats are idealised here as exact rationals [Q]:
    comparisons are the boolean comparisons of [Q], and numeric results are
    stated up to [==] where arithmetic is involved.

    Exceptions.  A Python exception is a value of [exn]; a function that can
    raise returns a [result].

    Dictionaries.  Python dictionaries keep insertion order, and the program
    relies on it (first maximum, first minimum, "last writer wins"), so they
    are association lists with unique keys, see [PyDict]. *)

From Stdlib Require Import List ZArith QArith Qabs Qpower Lia Lqa Bool.
From Stdlib Require Import Sorted Permutation.
Import ListNotations.

Set Implicit Arguments.

Open Scope Q_scope.

(** ** Boolean comparisons on numbers *)

Definition Qltb (x y : Q) : bool := negb (Qle_bool y x).
Definition Qleb (x y : Q) : bool := Qle_bool x y.

Infix "<?" := Qltb (at level 70, no associativity) : Q_scope.
Infix "<=?" := Qleb (at level 70, no associativity) : Q_scope.
Infix "=?" := Qeq_bool (at level 70, no associativity) : Q_scope.

(** ** Exceptions *)

Inductive exn : Type :=
| AssertionError
| AttributeError
| IndexError
| KeyError
| TypeError
| UnboundLocalError
| ValueError.

Inductive result (A : Type) : Type :=
| Ok (a : A)
| Raise (e : exn).

Arguments Ok {A} a.
Arguments Raise {A} e.

Definition bind {A B : Type} (m : result A) (f : A -> result B) : result B :=
  match m with
  | Ok a => f a
  | Raise e => Raise e
  end.

Notation "x <- m ;; k" := (bind m (fun x => k))
  (at level 61, m at next level, right associativity).

Definition returns {A : Type} (m : result A) : Prop := exists a, m = Ok a.

(** ** Python sequences *)

(** [l[i]] with Python's negative indices; [IndexError] out of range. *)
Definition py_index {A : Type} (l : list A) (i : Z) : result A :=
  let n := Z.of_nat (length l) in
  let j := if (i <? 0)%Z then (n + i)%Z else i in
  if ((j <? 0)%Z || (n <=? j)%Z)%bool then Raise IndexError
  else match nth_error l (Z.to_nat j) with
       | Some a => Ok a
       | None => Raise IndexError
       end.

(** [l[i] = a] for an index [i >= 0]; [IndexError] out of range. *)
Fixpoint set_item {A : Type} (l : list A) (i : nat) (a : A)
  : result (list A) :=
  match l, i with
  | [], _ => Raise IndexError
  | _ :: l', O => Ok (a :: l')
  | b :: l', S i' =>
      match set_item l' i' a with
      | Ok l'' => Ok (b :: l'')
      | Raise e => Raise e
      end
  end.

(** [enumerate(l)] *)
Definition enumerate {A : Type} (l : list A) : list (nat * A) :=
  combine (seq 0 (length l)) l.

(** [range(a, b)] as rationals. *)
Definition range (a b : nat) : list Q :=
  map (fun k => inject_Z (Z.of_nat k)) (seq a (b - a)).

(** ** Linear interpolation

    [interp] is imported from [openpilot.common.numpy_fast], which is not
    among the sources. *)

(** Modelled from the spec: the segments of [interp] right of a table point
    [(xlow, flow)]; "clamped-linear between the table points", the last
    value being used right of the last point. *)
Fixpoint interp_segments (xv xlow flow : Q) (pts : list (Q * Q)) : Q :=
  match pts with
  | [] => flow
  | (xhi, fhi) :: rest =>
      if xv <=? xhi
      then (xv - xlow) * (fhi - flow) / (xhi - xlow) + flow
      else interp_segments xv xhi fhi rest
  end.

(** Modelled from the spec: [interp(x, xp, fp)] of [numpy_fast], linear
    interpolation of the table [(xp, fp)] at [x]; "out-of-range values use
    the endpoint values".  A table with no point, or whose columns differ in
    length, cannot be indexed. *)
Definition interp (xv : Q) (xp fp : list Q) : result Q :=
  if negb (Nat.eqb (length xp) (length fp)) then Raise IndexError
  else match combine xp fp with
       | [] => Raise IndexError
       | (x0, f0) :: rest =>
           if xv <=? x0 then Ok f0 else Ok (interp_segments xv x0 f0 rest)
       end.

(** ** Constants *)

Definition LEAD_PATH_DREL_MIN : Q := 60.
Definition MIN_LANE_PROB : Q := 0.6.
Definition _LEAD_ACCEL_TAU : Q := 1.5.
Definition SPEED : nat := 0.
Definition ACCEL : nat := 1.
Definition V_EGO_STATIONARY : Q := 4.
Definition RADAR_TO_CENTER : Q := 2.7.
Definition RADAR_TO_CAMERA : Q := 1.52.

(** ** KalmanParams *)

Module KalmanParams.

Record t : Type := mk {
  A : list (list Q);
  C : list Q;
  K : list (list Q)
}.

Definition dts : list Q := map (fun dt => dt * 0.01) (range 1 21).

Definition K0 : list Q :=
  [0.12287673; 0.14556536; 0.16522756; 0.18281627; 0.1988689;  0.21372394;
   0.22761098; 0.24069424; 0.253096;   0.26491023; 0.27621103; 0.28705801;
   0.29750003; 0.30757767; 0.31732515; 0.32677158; 0.33594201; 0.34485814;
   0.35353899; 0.36200124].

Definition K1 : list Q :=
  [0.29666309; 0.29330885; 0.29042818; 0.28787125; 0.28555364; 0.28342219;
   0.28144091; 0.27958406; 0.27783249; 0.27617149; 0.27458948; 0.27307714;
   0.27162685; 0.27023228; 0.26888809; 0.26758976; 0.26633338; 0.26511557;
   0.26393339; 0.26278425].

(** [KalmanParams.__init__(dt)] *)
Definition init (dt : Q) : result t :=
  if negb ((0.01 <? dt) && (dt <? 0.2)) then Raise AssertionError
  else
    k0 <- interp dt dts K0 ;;
    k1 <- interp dt dts K1 ;;
    Ok {| A := [[1; dt]; [0; 1]];
          C := [1; 0];
          K := [[k0]; [k1]] |}.

End KalmanParams.

(** ** What the program imports

    [math.exp] and [math.sqrt] have irrational values, the filter [KF1D]
    ([openpilot.common.kalman.simple_kalman]) and the constant
    [TRAJECTORY_SIZE] ([selfdrive.controls.lib.lane_planner]) are not among
    the sources: the program is embedded over any implementation of them. *)

Class Externals : Type := {
  TRAJECTORY_SIZE : nat;
  math_exp : Q -> Q;
  math_sqrt : Q -> Q;
  (** [KF1D(x0, A, C, K)], [kf.update(meas)] and [kf.x[i][0]] *)
  KF1D : Type;
  KF1D_new : list (list Q) -> list (list Q) -> list Q -> list (list Q) -> KF1D;
  KF1D_update : KF1D -> Q -> KF1D;
  KF1D_x : KF1D -> nat -> Q
}.

(** ** Python built-ins on sequences *)

Section Builtins.
Variable A : Type.

(** [max(l, key=key)]: the first element whose key is maximal. *)
Fixpoint max_from (key : A -> Q) (best : A) (l : list A) : A :=
  match l with
  | [] => best
  | a :: l' => max_from key (if key best <? key a then a else best) l'
  end.

Definition py_max (key : A -> Q) (l : list A) : result A :=
  match l with
  | [] => Raise ValueError
  | a :: l' => Ok (max_from key a l')
  end.

(** [min(l, key=key)]: the first element whose key is minimal. *)
Fixpoint min_from (key : A -> Q) (best : A) (l : list A) : A :=
  match l with
  | [] => best
  | a :: l' => min_from key (if key a <? key best then a else best) l'
  end.

Definition py_min (key : A -> Q) (l : list A) : result A :=
  match l with
  | [] => Raise ValueError
  | a :: l' => Ok (min_from key a l')
  end.

(** [sorted(l, key=key)]: Python's sort is stable, and a stable sort has
    one result; it is computed here by insertion. *)
Fixpoint insert_sorted (key : A -> Q) (a : A) (l : list A) : list A :=
  match l with
  | [] => [a]
  | b :: l' =>
      if key a <=? key b then a :: b :: l'
      else b :: insert_sorted key a l'
  end.

Definition sorted (key : A -> Q) (l : list A) : list A :=
  fold_right (insert_sorted key) [] l.

(** A loop whose body may raise. *)
Fixpoint for_each {S : Type} (body : S -> A -> result S) (l : list A) (s : S)
  : result S :=
  match l with
  | [] => Ok s
  | a :: l' => s' <- body s a ;; for_each body l' s'
  end.

End Builtins.

(** [a or b], [b] being evaluated only when [a] is false. *)
Definition or_else (a b : result bool) : result bool :=
  x <- a ;; if x then Ok true else b.

(** [a and b], [b] being evaluated only when [a] is true. *)
Definition and_then (a b : result bool) : result bool :=
  x <- a ;; if x then b else Ok false.

(** [max(a, b)] of two numbers: [a] unless [b] is strictly greater. *)
Definition max2 (a b : Q) : Q := if a <? b then b else a.

(** ** Dictionaries, in insertion order *)

Module PyDict.
Section Dict.
Variables (K V : Type) (keq : K -> K -> bool).

Definition t : Type := list (K * V).

Definition empty : t := [].

Fixpoint get (d : t) (k : K) : option V :=
  match d with
  | [] => None
  | (k', v) :: d' => if keq k' k then Some v else get d' k
  end.

(** [k in d] *)
Definition mem (d : t) (k : K) : bool :=
  match get d k with Some _ => true | None => false end.

(** [d[k]] *)
Definition lookup (d : t) (k : K) : result V :=
  match get d k with Some v => Ok v | None => Raise KeyError end.

(** [d[k] = v]: a key already present keeps its place. *)
Fixpoint set (d : t) (k : K) (v : V) : t :=
  match d with
  | [] => [(k, v)]
  | (k', v') :: d' =>
      if keq k' k then (k', v) :: d' else (k', v') :: set d' k v
  end.

(** [d.pop(k, None)] *)
Fixpoint pop (d : t) (k : K) : t :=
  match d with
  | [] => []
  | (k', v') :: d' => if keq k' k then d' else (k', v') :: pop d' k
  end.

Definition keys (d : t) : list K := map fst d.
Definition values (d : t) : list V := map snd d.
Definition len (d : t) : nat := length d.

End Dict.
End PyDict.

(** ** Messages *)

(** A vision lead hypothesis (an element of [modelV2.leadsV3]).  The model
    publishes trajectories of fixed length and the program reads sample 0
    only: [x0] is [lead.x[0]], and so on. *)
Module LeadMsg.
Record t : Type := mk {
  x0 : Q; y0 : Q; v0 : Q; a0 : Q;
  xStd0 : Q; yStd0 : Q; vStd0 : Q;
  prob : Q
}.
End LeadMsg.

(** Sampled line: [laneLines[i]] and [position]. *)
Module XYLine.
Record t : Type := mk { x : list Q; y : list Q }.
End XYLine.

Module ModelV2.
Record t : Type := mk {
  leadsV3 : list LeadMsg.t;
  laneLines : list XYLine.t;
  laneLineProbs : list Q;
  position : XYLine.t;
  temporalPose_trans : list Q
}.
End ModelV2.

Module RadarPoint.
Record t : Type := mk {
  trackId : Z; dRel : Q; yRel : Q; vRel : Q; measured : bool
}.
End RadarPoint.

Inductive RadarError : Type := canError | fault | wrongConfig.

Module RadarData.
Record t : Type := mk {
  points : list RadarPoint.t;
  errors : list RadarError
}.
End RadarData.

(** ** Lead records *)

Module Lead.
(** The dictionary built by [get_RadarState2] and
    [get_RadarState_from_vision]. *)
Record t : Type := mk {
  dRel : Q; yRel : Q; vRel : Q; vLead : Q; vLeadK : Q;
  aLeadK : Q; aLeadTau : Q;
  status : bool; fcw : bool; modelProb : Q;
  radar : bool; radarTrackId : Z
}.
End Lead.

(** A lead dictionary is either [{'status': s}] alone or has every key. *)
Inductive LeadDict : Type :=
| StatusOnly (status : bool)
| Fields (r : Lead.t).

(** [lead_dict['status']] *)
Definition dict_status (d : LeadDict) : result bool :=
  match d with
  | StatusOnly s => Ok s
  | Fields r => Ok (Lead.status r)
  end.

(** [lead_dict['dRel']] *)
Definition dict_dRel (d : LeadDict) : result Q :=
  match d with
  | StatusOnly _ => Raise KeyError
  | Fields r => Ok (Lead.dRel r)
  end.

(** A lead dictionary with the keys [dPath] and [vLat] added. *)
Module PathLead.
Record t : Type := mk { lead : Lead.t; dPath : Q; vLat : Q }.
End PathLead.

(** ** Track *)

Module Track.
Section WithExternals.
Context {ext : Externals}.

(** The attributes of a [Track].  [__init__] assigns the first seven and
    [update] the others; [RadarD.update] calls [update] on a track as soon
    as it has created it, so the tracks of a track map have them all.  In
    [init] the others are 0 and no function reads them there. *)
Record t : Type := mk {
  identifier : Z;
  cnt : nat;
  aLeadTau : Q;
  K_A : list (list Q);
  K_C : list Q;
  K_K : list (list Q);
  kf : KF1D;
  dRel : Q;
  yRel : Q;
  vRel : Q;
  vLead : Q;
  measured : bool;
  vLeadK : Q;
  aLeadK : Q
}.

(** [Track.__init__(identifier, v_lead, kalman_params)] *)
Definition init (identifier : Z) (v_lead : Q) (kalman_params : KalmanParams.t)
  : t :=
  let K_A := KalmanParams.A kalman_params in
  let K_C := KalmanParams.C kalman_params in
  let K_K := KalmanParams.K kalman_params in
  {| identifier := identifier;
     cnt := 0;
     aLeadTau := _LEAD_ACCEL_TAU;
     K_A := K_A;
     K_C := K_C;
     K_K := K_K;
     kf := KF1D_new [[v_lead]; [0]] K_A K_C K_K;
     dRel := 0; yRel := 0; vRel := 0; vLead := 0; measured := false;
     vLeadK := 0; aLeadK := 0 |}.

(** [Track.update(d_rel, y_rel, v_rel, v_lead, measured)] *)
Definition update (self : t) (d_rel y_rel v_rel v_lead : Q) (measured : bool)
  : t :=
  let kf' := if (0 <? cnt self)%nat then KF1D_update (kf self) v_lead
             else kf self in
  let vLeadK' := KF1D_x kf' SPEED in
  let aLeadK' := KF1D_x kf' ACCEL in
  let aLeadTau' := if Qabs aLeadK' <? 0.5 then _LEAD_ACCEL_TAU
                   else aLeadTau self * 0.9 in
  {| identifier := identifier self;
     cnt := cnt self + 1;
     aLeadTau := aLeadTau';
     K_A := K_A self;
     K_C := K_C self;
     K_K := K_K self;
     kf := kf';
     dRel := d_rel; yRel := y_rel; vRel := v_rel; vLead := v_lead;
     measured := measured;
     vLeadK := vLeadK'; aLeadK := aLeadK' |}.

(** [Track.get_key_for_cluster()] *)
Definition get_key_for_cluster (self : t) : list Q :=
  [dRel self; yRel self * 2; vRel self].

(** [Track.reset_a_lead(aLeadK, aLeadTau)] *)
Definition reset_a_lead (self : t) (aLeadK' aLeadTau' : Q) : t :=
  {| identifier := identifier self;
     cnt := cnt self;
     aLeadTau := aLeadTau';
     K_A := K_A self;
     K_C := K_C self;
     K_K := K_K self;
     kf := KF1D_new [[vLead self]; [aLeadK']] (K_A self) (K_C self) (K_K self);
     dRel := dRel self; yRel := yRel self; vRel := vRel self;
     vLead := vLead self; measured := measured self;
     vLeadK := vLeadK self; aLeadK := aLeadK' |}.

(** [Track.is_potential_fcw(model_prob)] *)
Definition is_potential_fcw (self : t) (model_prob : Q) : bool :=
  0.9 <? model_prob.

(** [Track.get_RadarState(model_prob)] *)
Definition get_RadarState (self : t) (model_prob : Q) : Lead.t :=
  {| Lead.dRel := dRel self;
     Lead.yRel := yRel self;
     Lead.vRel := vRel self;
     Lead.vLead := vLead self;
     Lead.vLeadK := vLeadK self;
     Lead.aLeadK := aLeadK self;
     Lead.aLeadTau := aLeadTau self;
     Lead.status := true;
     Lead.fcw := is_potential_fcw self model_prob;
     Lead.modelProb := model_prob;
     Lead.radar := true;
     Lead.radarTrackId := identifier self |}.

(** The flag [useVisionMix] of [get_RadarState2]. *)
Definition useVisionMix (self : t) (lead_msg : LeadMsg.t) (mixRadarInfo : Z)
  : bool :=
  (0 <? mixRadarInfo)%Z
  && (0.5 <? LeadMsg.prob lead_msg)
  && (Qabs (aLeadK self) <? Qabs (LeadMsg.a0 lead_msg)).

(** [Track.get_RadarState2(model_prob, lead_msg, mixRadarInfo)] *)
Definition get_RadarState2 (self : t) (model_prob : Q) (lead_msg : LeadMsg.t)
  (mixRadarInfo : Z) : Lead.t :=
  let aLeadK' := if useVisionMix self lead_msg mixRadarInfo
                 then LeadMsg.a0 lead_msg else aLeadK self in
  {| Lead.dRel := dRel self;
     Lead.yRel := if (mixRadarInfo =? 0)%Z || negb (yRel self =? 0)
                  then yRel self else - LeadMsg.y0 lead_msg;
     Lead.vRel := vRel self;
     Lead.vLead := vLead self;
     Lead.vLeadK := vLeadK self;
     Lead.aLeadK := aLeadK';
     Lead.aLeadTau := aLeadTau self;
     Lead.status := true;
     Lead.fcw := is_potential_fcw self model_prob;
     Lead.modelProb := model_prob;
     Lead.radar := true;
     Lead.radarTrackId := identifier self |}.

(** [Track.potential_low_speed_lead(v_ego)] *)
Definition potential_low_speed_lead (self : t) (v_ego : Q) : bool :=
  (Qabs (yRel self) <? 1.0)
  && (v_ego <? V_EGO_STATIONARY)
  && ((0.75 <? dRel self) && (dRel self <? 25)).

End WithExternals.
End Track.

Section Radard.
Context {ext : Externals}.

(** The track map, [Dict[int, Track]]. *)
Definition Tracks : Type := PyDict.t Z Track.t.

(** ** Association of a vision hypothesis with a track *)

Definition laplacian_pdf (x mu b : Q) : Q :=
  let b := max2 b 0.0001 in
  math_exp (- Qabs (x - mu) / b).

(** The local function [prob] of [match_vision_to_track]. *)
Definition match_prob (v_ego : Q) (lead : LeadMsg.t) (c : Track.t) : Q :=
  let offset_vision_dist := LeadMsg.x0 lead - RADAR_TO_CAMERA in
  let prob_d := laplacian_pdf (Track.dRel c) offset_vision_dist
                  (LeadMsg.xStd0 lead) in
  let prob_y := laplacian_pdf (Track.yRel c) (- LeadMsg.y0 lead)
                  (LeadMsg.yStd0 lead) in
  let prob_v := laplacian_pdf (Track.vRel c + v_ego) (LeadMsg.v0 lead)
                  (LeadMsg.vStd0 lead) in
  prob_d * prob_y * prob_v.

Definition match_vision_to_track (v_ego : Q) (lead : LeadMsg.t)
  (tracks : Tracks) : result (option Track.t) :=
  let offset_vision_dist := LeadMsg.x0 lead - RADAR_TO_CAMERA in
  track <- py_max (match_prob v_ego lead) (PyDict.values tracks) ;;
  let dist_sane :=
    Qabs (Track.dRel track - offset_vision_dist)
    <? max2 (offset_vision_dist * 0.35) 5.0 in
  let vel_sane :=
    (Qabs (Track.vRel track + v_ego - LeadMsg.v0 lead) <? 10)
    || (3 <? v_ego + Track.vRel track) in
  if dist_sane && vel_sane then Ok (Some track) else Ok None.

(** ** Lead selection *)

Definition get_RadarState_from_vision (lead_msg : LeadMsg.t)
  (v_ego model_v_ego : Q) : Lead.t :=
  let lead_v_rel_pred := LeadMsg.v0 lead_msg - model_v_ego in
  {| Lead.dRel := LeadMsg.x0 lead_msg - RADAR_TO_CAMERA;
     Lead.yRel := - LeadMsg.y0 lead_msg;
     Lead.vRel := lead_v_rel_pred;
     Lead.vLead := v_ego + lead_v_rel_pred;
     Lead.vLeadK := v_ego + lead_v_rel_pred;
     Lead.aLeadK := 0;
     Lead.aLeadTau := 0.3;
     Lead.fcw := false;
     Lead.modelProb := LeadMsg.prob lead_msg;
     Lead.status := true;
     Lead.radar := false;
     Lead.radarTrackId := (-1)%Z |}.

(** [get_lead], first part: the record chosen from the vision hypothesis,
    before the low speed override. *)
Definition get_lead_vision (v_ego : Q) (ready : bool) (tracks : Tracks)
  (lead_msg : LeadMsg.t) (model_v_ego : Q) (mixRadarInfo : Z)
  : result LeadDict :=
  track <- (if (0 <? PyDict.len tracks)%nat && ready
               && (0.5 <? LeadMsg.prob lead_msg)
            then match_vision_to_track v_ego lead_msg tracks
            else Ok None) ;;
  match track with
  | Some track =>
      Ok (Fields (Track.get_RadarState2 track (LeadMsg.prob lead_msg)
                    lead_msg mixRadarInfo))
  | None =>
      if ready && (0.5 <? LeadMsg.prob lead_msg)
      then Ok (Fields (get_RadarState_from_vision lead_msg v_ego model_v_ego))
      else Ok (StatusOnly false)
  end.

Definition low_speed_tracks (v_ego : Q) (tracks : Tracks) : list Track.t :=
  filter (fun c => Track.potential_low_speed_lead c v_ego)
         (PyDict.values tracks).

(** [get_lead], second part: the body of [if low_speed_override]. *)
Definition get_lead_low_speed (v_ego : Q) (tracks : Tracks)
  (lead_msg : LeadMsg.t) (mixRadarInfo : Z) (lead_dict : LeadDict)
  : result LeadDict :=
  let low_speed_tracks := low_speed_tracks v_ego tracks in
  if (0 <? length low_speed_tracks)%nat then
    closest_track <- py_min Track.dRel low_speed_tracks ;;
    closer <- or_else (s <- dict_status lead_dict ;; Ok (negb s))
                      (d <- dict_dRel lead_dict ;;
                       Ok (Track.dRel closest_track <? d)) ;;
    if closer
    then Ok (Fields (Track.get_RadarState2 closest_track
                       (LeadMsg.prob lead_msg) lead_msg mixRadarInfo))
    else Ok lead_dict
  else Ok lead_dict.

Definition get_lead (v_ego : Q) (ready : bool) (tracks : Tracks)
  (lead_msg : LeadMsg.t) (model_v_ego : Q) (low_speed_override : bool)
  (mixRadarInfo : Z) : result LeadDict :=
  lead_dict <- get_lead_vision v_ego ready tracks lead_msg model_v_ego
                 mixRadarInfo ;;
  if low_speed_override
  then get_lead_low_speed v_ego tracks lead_msg mixRadarInfo lead_dict
  else Ok lead_dict.

End Radard.

(** ** Path classification *)

(** [a + b] of two one-dimensional numpy arrays: element by element, an
    array of one element being broadcast. *)
Definition np_add (a b : list Q) : result (list Q) :=
  if Nat.eqb (length a) (length b)
  then Ok (map (fun p => fst p + snd p) (combine a b))
  else match a, b with
       | [x], _ => Ok (map (fun y => x + y) b)
       | _, [y] => Ok (map (fun x => x + y) a)
       | _, _ => Raise ValueError
       end.

(** An attribute of [md], which may be [None]. *)
Definition deref {A : Type} (md : option A) : result A :=
  match md with Some m => Ok m | None => Raise AttributeError end.

(** A local variable that some branch leaves unassigned. *)
Definition bound {A : Type} (v : option A) : result A :=
  match v with Some a => Ok a | None => Raise UnboundLocalError end.

(** An optional value used as a list. *)
Definition not_none {A : Type} (v : option A) : result A :=
  match v with Some a => Ok a | None => Raise TypeError end.

Definition is_some {A : Type} (v : option A) : bool :=
  match v with Some _ => true | None => false end.

Inductive Corridor : Type := LeftCorridor | CenterCorridor | RightCorridor.

Module PathState.
(** The dictionaries [leads_left], [leads_center] and [leads_right]. *)
Record t : Type := mk {
  leads_left : PyDict.t Q PathLead.t;
  leads_center : PyDict.t Q PathLead.t;
  leads_right : PyDict.t Q PathLead.t
}.
End PathState.

Module PathEnv.
(** The local variables of [get_path_adjacent_leads] the loop reads;
    [ll_x] and [md_x] are [None] when no branch has assigned them. *)
Record t : Type := mk {
  ll_x : option (list Q);
  c_y : option (list Q);
  md_x : option (list Q);
  md_y : option (list Q)
}.
End PathEnv.

Section PathClassification.
Context {ext : Externals}.

(** Lines 187-205: the centre line from the lane lines, [(ll_x, c_y)]. *)
Definition lane_centre (md : option ModelV2.t) (lane_width : Q)
  : result (option (list Q) * option (list Q)) :=
  guard <- and_then (Ok (is_some md))
            (and_then (Ok (0 <? lane_width))
              (and_then (m <- deref md ;;
                         Ok (Nat.eqb (length (ModelV2.laneLines m)) 4))
                        (m <- deref md ;;
                         l1 <- py_index (ModelV2.laneLines m) 1 ;;
                         Ok (Nat.eqb (length (XYLine.x l1))
                                     TRAJECTORY_SIZE)))) ;;
  if guard then
    m <- deref md ;;
    l1 <- py_index (ModelV2.laneLines m) 1 ;;
    let ll_x := XYLine.x l1 in
    let lll_y := XYLine.y l1 in
    l2 <- py_index (ModelV2.laneLines m) 2 ;;
    let rll_y := XYLine.y l2 in
    l_prob <- py_index (ModelV2.laneLineProbs m) 1 ;;
    r_prob <- py_index (ModelV2.laneLineProbs m) 2 ;;
    if (MIN_LANE_PROB <? l_prob) && (MIN_LANE_PROB <? r_prob) then
      s <- np_add lll_y rll_y ;;
      Ok (Some ll_x, Some (map (fun v => v / 2) s))
    else if MIN_LANE_PROB <? l_prob then
      Ok (Some ll_x, Some (map (fun v => v + lane_width / 2) lll_y))
    else if MIN_LANE_PROB <? r_prob then
      Ok (Some ll_x, Some (map (fun v => v - lane_width / 2) rll_y))
    else Ok (Some ll_x, None)
  else Ok (None, None).

(** Lines 207-211: the model path, [(md_x, md_y)].  The guard is the
    source's: a disjunction, whose first operand is [md is not None]. *)
Definition model_path (md : option ModelV2.t)
  : result (option (list Q) * option (list Q)) :=
  guard <- or_else (Ok (is_some md))
            (or_else (m <- deref md ;;
                      Ok (Nat.eqb (length (XYLine.x (ModelV2.position m)))
                                  TRAJECTORY_SIZE))
                     (m <- deref md ;;
                      xl <- py_index (XYLine.x (ModelV2.position m)) (-1) ;;
                      Ok (LEAD_PATH_DREL_MIN <? xl))) ;;
  if guard then
    m <- deref md ;;
    Ok (Some (XYLine.x (ModelV2.position m)),
        Some (XYLine.y (ModelV2.position m)))
  else Ok (None, None).

(** Line 218: the condition under which [dPath] is taken from the model
    path. *)
Definition use_model_path (env : PathEnv.t) (c : Track.t) : result bool :=
  or_else
    (and_then (Ok (is_some (PathEnv.md_y env)))
              (mx <- bound (PathEnv.md_x env) ;;
               xl <- py_index mx (-1) ;;
               Ok (Track.dRel c <=? xl)))
    (and_then (Ok (is_some (PathEnv.c_y env)))
              (mx <- bound (PathEnv.md_x env) ;;
               xl <- py_index mx (-1) ;;
               lx <- bound (PathEnv.ll_x env) ;;
               ll <- py_index lx (-1) ;;
               Ok (xl - Track.dRel c <? ll - Track.dRel c))).

(** Lines 218-226: [dPath] of a track. *)
Definition track_dPath (env : PathEnv.t) (c : Track.t) : result Q :=
  model <- use_model_path env c ;;
  if model then
    mx <- bound (PathEnv.md_x env) ;;
    my <- not_none (PathEnv.md_y env) ;;
    i <- interp (Track.dRel c) mx my ;;
    Ok (- Track.yRel c - i)
  else match PathEnv.c_y env with
       | Some cy =>
           lx <- bound (PathEnv.ll_x env) ;;
           i <- interp (Track.dRel c) lx cy ;;
           Ok (- Track.yRel c - i)
       | None => Ok (- Track.yRel c)
       end.

(** Lines 232-235: the record of a track, with [dPath] and [vLat]. *)
Definition path_lead (md : option ModelV2.t) (mixRadarInfo : Z)
  (c : Track.t) (dPath : Q) : result PathLead.t :=
  m <- deref md ;;
  lead_msg <- py_index (ModelV2.leadsV3 m) 0 ;;
  let ld := Track.get_RadarState2 c (LeadMsg.prob lead_msg) lead_msg
              mixRadarInfo in
  Ok {| PathLead.lead := ld;
        PathLead.dPath := dPath;
        PathLead.vLat :=
          math_sqrt ((10 * dPath) ^ 2 + Track.dRel c ^ 2) |}.

(** Lines 236-241: the corridor of a record. *)
Definition corridor (half_lane_width : Q) (ld : PathLead.t) : Corridor :=
  if (Qabs (PathLead.dPath ld) <? half_lane_width)
     && (-1 <? Lead.vLeadK (PathLead.lead ld))
  then CenterCorridor
  else if PathLead.dPath ld <? 0 then LeftCorridor
  else RightCorridor.

(** Lines 236-241: the record is stored under the key [abs(dPath)]. *)
Definition store (half_lane_width : Q) (s : PathState.t) (ld : PathLead.t)
  : PathState.t :=
  let key := Qabs (PathLead.dPath ld) in
  match corridor half_lane_width ld with
  | CenterCorridor =>
      {| PathState.leads_left := PathState.leads_left s;
         PathState.leads_center :=
           PyDict.set Qeq_bool (PathState.leads_center s) key ld;
         PathState.leads_right := PathState.leads_right s |}
  | LeftCorridor =>
      {| PathState.leads_left :=
           PyDict.set Qeq_bool (PathState.leads_left s) key ld;
         PathState.leads_center := PathState.leads_center s;
         PathState.leads_right := PathState.leads_right s |}
  | RightCorridor =>
      {| PathState.leads_left := PathState.leads_left s;
         PathState.leads_center := PathState.leads_center s;
         PathState.leads_right :=
           PyDict.set Qeq_bool (PathState.leads_right s) key ld |}
  end.

(** Lines 218-235: the record [ld] of a track. *)
Definition track_lead (md : option ModelV2.t) (mixRadarInfo : Z)
  (env : PathEnv.t) (c : Track.t) : result PathLead.t :=
  dPath <- track_dPath env c ;;
  path_lead md mixRadarInfo c dPath.

(** Lines 217-241: the body of the loop over the tracks. *)
Definition classify_track (md : option ModelV2.t) (mixRadarInfo : Z)
  (env : PathEnv.t) (half_lane_width : Q) (s : PathState.t) (c : Track.t)
  : result PathState.t :=
  ld <- track_lead md mixRadarInfo env c ;;
  Ok (store half_lane_width s ld).

(** Lines 187-211: the paths the loop reads. *)
Definition path_env (md : option ModelV2.t) (lane_width : Q)
  : result PathEnv.t :=
  lane <- lane_centre md lane_width ;;
  path <- model_path md ;;
  Ok {| PathEnv.ll_x := fst lane; PathEnv.c_y := snd lane;
        PathEnv.md_x := fst path; PathEnv.md_y := snd path |}.

(** [[l[k] for k in sorted(list(l.keys()))]] *)
Definition by_sorted_keys (l : PyDict.t Q PathLead.t)
  : result (list PathLead.t) :=
  for_each (fun acc k => v <- PyDict.lookup Qeq_bool l k ;; Ok (acc ++ [v]))
           (sorted (fun k => k) (PyDict.keys l)) [].

Definition get_path_adjacent_leads (v_ego : Q) (md : option ModelV2.t)
  (lane_width : Q) (clusters : Tracks) (mixRadarInfo : Z)
  : result (list PathLead.t * list PathLead.t * list PathLead.t) :=
  if Nat.eqb (PyDict.len clusters) 0 then Ok ([], [], [])
  else
    env <- path_env md lane_width ;;
    let half_lane_width := lane_width / 2 in
    s <- for_each (classify_track md mixRadarInfo env half_lane_width)
           (PyDict.values clusters)
           {| PathState.leads_left := PyDict.empty Q PathLead.t;
              PathState.leads_center := PyDict.empty Q PathLead.t;
              PathState.leads_right := PyDict.empty Q PathLead.t |} ;;
    ll <- by_sorted_keys (PathState.leads_left s) ;;
    lr <- by_sorted_keys (PathState.leads_right s) ;;
    let lc := sorted (fun c => Lead.dRel (PathLead.lead c))
                (PyDict.values (PathState.leads_center s)) in
    Ok (ll, lc, lr).

End PathClassification.

(** ** The cycle orchestrator *)

Module Deque.
(** [deque(maxlen=delay+1)] holding [oldest :: newer].  [RadarD] creates it
    with one element and [maxlen >= 1], and only appends to it: it is never
    empty, and [v_ego_hist[0]] is [oldest]. *)
Record t : Type := mk { delay : nat; oldest : Q; newer : list Q }.

(** [deque([x], maxlen=delay+1)] *)
Definition init (x : Q) (delay : nat) : t :=
  {| delay := delay; oldest := x; newer := [] |}.

(** [d.append(v)]: the oldest element is dropped from a full deque. *)
Definition append (d : t) (v : Q) : t :=
  if (length (newer d) <? delay d)%nat
  then {| delay := delay d; oldest := oldest d; newer := newer d ++ [v] |}
  else match newer d ++ [v] with
       | h :: r => {| delay := delay d; oldest := h; newer := r |}
       | [] => d
       end.

Definition items (d : t) : list Q := oldest d :: newer d.
End Deque.

Module SubMaster.
(** What [update] reads of the [SubMaster] over [modelV2], [carState] and
    [lateralPlan]. *)
Record t : Type := mk {
  updated_carState : bool;
  updated_modelV2 : bool;
  carState_vEgo : Q;
  modelV2 : ModelV2.t;
  lateralPlan_laneWidth : Q;
  logMonoTime_modelV2 : Z;
  logMonoTime_carState : Z;
  logMonoTime_lateralPlan : Z;
  all_checks : bool
}.
End SubMaster.

Module RadarState.
Record t : Type := mk {
  mdMonoTime : Z;
  carStateMonoTime : Z;
  radarErrors : list RadarError;
  leadOne : LeadDict;
  leadTwo : LeadDict;
  leadsLeft : list PathLead.t;
  leadsCenter : list PathLead.t;
  leadsRight : list PathLead.t
}.

(** [log.RadarState.new_message()] *)
Definition new_message : t :=
  {| mdMonoTime := 0; carStateMonoTime := 0; radarErrors := [];
     leadOne := StatusOnly false; leadTwo := StatusOnly false;
     leadsLeft := []; leadsCenter := []; leadsRight := [] |}.

Definition set_header (r : t) (md cs : Z) (errs : list RadarError) : t :=
  {| mdMonoTime := md; carStateMonoTime := cs; radarErrors := errs;
     leadOne := leadOne r; leadTwo := leadTwo r;
     leadsLeft := leadsLeft r; leadsCenter := leadsCenter r;
     leadsRight := leadsRight r |}.

Definition set_leadOne (r : t) (l : LeadDict) : t :=
  {| mdMonoTime := mdMonoTime r; carStateMonoTime := carStateMonoTime r;
     radarErrors := radarErrors r;
     leadOne := l; leadTwo := leadTwo r;
     leadsLeft := leadsLeft r; leadsCenter := leadsCenter r;
     leadsRight := leadsRight r |}.

Definition set_leadTwo (r : t) (l : LeadDict) : t :=
  {| mdMonoTime := mdMonoTime r; carStateMonoTime := carStateMonoTime r;
     radarErrors := radarErrors r;
     leadOne := leadOne r; leadTwo := l;
     leadsLeft := leadsLeft r; leadsCenter := leadsCenter r;
     leadsRight := leadsRight r |}.

Definition set_adjacent (r : t) (ll lc lr : list PathLead.t) : t :=
  {| mdMonoTime := mdMonoTime r; carStateMonoTime := carStateMonoTime r;
     radarErrors := radarErrors r;
     leadOne := leadOne r; leadTwo := leadTwo r;
     leadsLeft := ll; leadsCenter := lc; leadsRight := lr |}.
End RadarState.

(** An element of [liveTracks]. *)
Module LiveTrack.
Record t : Type := mk { trackId : Z; dRel : Q; yRel : Q; vRel : Q }.

(** The elements of [messaging.new_message('liveTracks', n).liveTracks]. *)
Definition new_message : t :=
  {| trackId := 0; dRel := 0; yRel := 0; vRel := 0 |}.
End LiveTrack.

(** What [pm.send] is given: the service and the fields [publish] sets in
    the message.  [cumLagMs] is a field of [radar_msg.radarState], which
    is a copy of [self.radar_state]. *)
Inductive Message : Type :=
| radarState (valid : bool) (radarState : RadarState.t) (cumLagMs : Q)
| liveTracks (liveTracks : list LiveTrack.t).

(** A [PubMaster]: the messages sent, the last one at the end. *)
Definition PubMaster : Type := list Message.

Module RadarD.
Section WithExternals.
Context {ext : Externals}.

Record t : Type := mk {
  current_time : Q;
  tracks : Tracks;
  kalman_params : KalmanParams.t;
  v_ego : Q;
  v_ego_hist : Deque.t;
  radar_state : option RadarState.t;
  radar_state_valid : bool;
  ready : bool;
  showRadarInfo : Z;
  mixRadarInfo : Z
}.

(** [RadarD.__init__(radar_ts, delay)] *)
Definition init (radar_ts : Q) (delay : nat) : result t :=
  kp <- KalmanParams.init radar_ts ;;
  Ok {| current_time := 0;
        tracks := PyDict.empty Z Track.t;
        kalman_params := kp;
        v_ego := 0;
        v_ego_hist := Deque.init 0 delay;
        radar_state := None;
        radar_state_valid := false;
        ready := false;
        showRadarInfo := 0;
        mixRadarInfo := 0 |}.

(** The table [ar_pts]: a point is [[dRel, yRel, vRel, measured]]. *)
Definition RadarPts : Type := PyDict.t Z (Q * Q * Q * bool).

(** Lines 326-328 *)
Definition collect_points (radar_points : list RadarPoint.t) : RadarPts :=
  fold_left
    (fun ar_pts pt =>
       PyDict.set Z.eqb ar_pts (RadarPoint.trackId pt)
         (RadarPoint.dRel pt, RadarPoint.yRel pt, RadarPoint.vRel pt,
          RadarPoint.measured pt))
    radar_points (PyDict.empty Z (Q * Q * Q * bool)).

(** Lines 331-333: remove missing points from meta data. *)
Definition evict (tracks : Tracks) (ar_pts : RadarPts) : Tracks :=
  fold_left
    (fun tracks ids =>
       if negb (PyDict.mem Z.eqb ar_pts ids)
       then PyDict.pop Z.eqb tracks ids else tracks)
    (PyDict.keys tracks) tracks.

(** Lines 337-345: the body of the loop that computes the tracks.  The
    track of [ids] is created if it does not exist, updated, and kept
    under [ids]. *)
Definition upsert_one (kp : KalmanParams.t) (hist : Deque.t)
  (tracks : Tracks) (entry : Z * (Q * Q * Q * bool)) : Tracks :=
  let '(ids, (d_rel, y_rel, v_rel, measured)) := entry in
  let v_lead := v_rel + Deque.oldest hist in
  let track := match PyDict.get Z.eqb tracks ids with
               | Some track => track
               | None => Track.init ids v_lead kp
               end in
  PyDict.set Z.eqb tracks ids
    (Track.update track d_rel y_rel v_rel v_lead measured).

(** Lines 336-345 *)
Definition upsert (kp : KalmanParams.t) (hist : Deque.t) (tracks : Tracks)
  (ar_pts : RadarPts) : Tracks :=
  fold_left (upsert_one kp hist) ar_pts tracks.

(** Lines 309-345: the state once the tracks are computed. *)
Definition update_tracks (self : t) (ShowRadarInfo MixRadarInfo : Z)
  (sm : SubMaster.t) (rr : option RadarData.t) : t :=
  let current_time :=
    0.000000001 *
    inject_Z (Z.max (SubMaster.logMonoTime_modelV2 sm)
                (Z.max (SubMaster.logMonoTime_carState sm)
                       (SubMaster.logMonoTime_lateralPlan sm))) in
  let radar_points :=
    match rr with Some rr => RadarData.points rr | None => [] end in
  let v_ego' :=
    if SubMaster.updated_carState sm then SubMaster.carState_vEgo sm
    else v_ego self in
  let v_ego_hist' :=
    if SubMaster.updated_carState sm
    then Deque.append (v_ego_hist self) (SubMaster.carState_vEgo sm)
    else v_ego_hist self in
  let ready' := if SubMaster.updated_modelV2 sm then true else ready self in
  let ar_pts := collect_points radar_points in
  let tracks' :=
    upsert (kalman_params self) v_ego_hist'
           (evict (tracks self) ar_pts) ar_pts in
  {| current_time := current_time;
     tracks := tracks';
     kalman_params := kalman_params self;
     v_ego := v_ego';
     v_ego_hist := v_ego_hist';
     radar_state := radar_state self;
     radar_state_valid := radar_state_valid self;
     ready := ready';
     showRadarInfo := ShowRadarInfo;
     mixRadarInfo := MixRadarInfo |}.

Definition set_radar_state (self : t) (valid : bool) (rs : RadarState.t) : t :=
  {| current_time := current_time self;
     tracks := tracks self;
     kalman_params := kalman_params self;
     v_ego := v_ego self;
     v_ego_hist := v_ego_hist self;
     radar_state := Some rs;
     radar_state_valid := valid;
     ready := ready self;
     showRadarInfo := showRadarInfo self;
     mixRadarInfo := mixRadarInfo self |}.

(** [RadarD.update(sm, rr)], [ShowRadarInfo] and [MixRadarInfo] being the
    integers read from [Params()].  The object is modified in place: the
    state is returned also when a call raises, as it is then. *)
Definition update (self : t) (ShowRadarInfo MixRadarInfo : Z)
  (sm : SubMaster.t) (rr : option RadarData.t) : t * result unit :=
  let self := update_tracks self ShowRadarInfo MixRadarInfo sm rr in
  let radar_errors :=
    match rr with Some rr => RadarData.errors rr | None => [] end in
  let valid := SubMaster.all_checks sm && Nat.eqb (length radar_errors) 0 in
  let rs := RadarState.set_header RadarState.new_message
              (SubMaster.logMonoTime_modelV2 sm)
              (SubMaster.logMonoTime_carState sm) radar_errors in
  let self := set_radar_state self valid rs in
  let md := SubMaster.modelV2 sm in
  let model_v_ego :=
    match ModelV2.temporalPose_trans md with
    | v :: _ => v
    | [] => v_ego self
    end in
  match ModelV2.leadsV3 md with
  | lead0 :: lead1 :: _ =>
      match get_lead (v_ego self) (ready self) (tracks self) lead0
              model_v_ego true (mixRadarInfo self) with
      | Raise e => (self, Raise e)
      | Ok one =>
          let rs := RadarState.set_leadOne rs one in
          let self := set_radar_state self valid rs in
          match get_lead (v_ego self) (ready self) (tracks self) lead1
                  model_v_ego false (mixRadarInfo self) with
          | Raise e => (self, Raise e)
          | Ok two =>
              let rs := RadarState.set_leadTwo rs two in
              let self := set_radar_state self valid rs in
              if ready self && negb (showRadarInfo self =? 0)%Z then
                match get_path_adjacent_leads (v_ego self) (Some md)
                        (SubMaster.lateralPlan_laneWidth sm) (tracks self)
                        (mixRadarInfo self) with
                | Raise e => (self, Raise e)
                | Ok (ll, lc, lr) =>
                    (set_radar_state self valid
                       (RadarState.set_adjacent rs ll lc lr), Ok tt)
                end
              else (self, Ok tt)
          end
      end
  | _ => (self, Ok tt)
  end.

(** Lines 388-395: the message [liveTracks]. *)
Definition live_tracks (tracks : Tracks) : result (list LiveTrack.t) :=
  for_each
    (fun msg (entry : nat * Z) =>
       let '(index, tid) := entry in
       t1 <- PyDict.lookup Z.eqb tracks tid ;;
       t2 <- PyDict.lookup Z.eqb tracks tid ;;
       t3 <- PyDict.lookup Z.eqb tracks tid ;;
       set_item msg index
         {| LiveTrack.trackId := tid;
            LiveTrack.dRel := Track.dRel t1;
            LiveTrack.yRel := Track.yRel t2;
            LiveTrack.vRel := Track.vRel t3 |})
    (enumerate (sorted inject_Z (PyDict.keys tracks)))
    (repeat LiveTrack.new_message (PyDict.len tracks)).

(** [RadarD.publish(pm, lag_ms)]: [pm] with the messages sent, also when
    the call raises. *)
Definition publish (self : t) (pm : PubMaster) (lag_ms : Q)
  : PubMaster * result unit :=
  match radar_state self with
  | None => (pm, Raise AssertionError)
  | Some rs =>
      let pm := pm ++ [radarState (radar_state_valid self) rs lag_ms] in
      match live_tracks (tracks self) with
      | Raise e => (pm, Raise e)
      | Ok tracks_msg => (pm ++ [liveTracks tracks_msg], Ok tt)
      end
  end.

End WithExternals.
End RadarD.

(** ** The thread

    [radard_thread] waits for the car's parameters, builds the core from
    [CP.radarTimeStep] and [RI.delay], and loops for ever.  It is embedded
    over what one turn of the loop reads. *)

Module Turn.
(** A turn of the loop: [rr] is [RI.update(can_strings)]; [sm] is the
    [SubMaster] after [sm.update(0)], and [ShowRadarInfo], [MixRadarInfo]
    what [Params()] holds then; [remaining] is [rk.remaining]. *)
Record t : Type := mk {
  rr : option RadarData.t;
  sm : SubMaster.t;
  ShowRadarInfo : Z;
  MixRadarInfo : Z;
  remaining : Q
}.
End Turn.

Section Thread.
Context {ext : Externals}.




End Thread.

(** ** An implementation of the imports, to run the program

    The theorems below hold for every [Externals]; this one serves to
    evaluate the program on concrete inputs.  The filter is the stationary
    two-state filter [x <- (A - K C) x + K z]; [math.exp] and [math.sqrt]
    are replaced by rational functions (exact values are irrational). *)

Module Reference.

Definition at2 (m : list (list Q)) (i j : nat) : Q :=
  nth j (nth i m []) 0.

Record filter : Type := mk_filter {
  x0 : Q; x1 : Q;
  A_K_0 : Q; A_K_1 : Q; A_K_2 : Q; A_K_3 : Q;
  K0_0 : Q; K1_0 : Q
}.

Definition filter_new (x A : list (list Q)) (C : list Q) (K : list (list Q))
  : filter :=
  let C0_0 := nth 0%nat C 0 in
  let C0_1 := nth 1%nat C 0 in
  {| x0 := at2 x 0 0; x1 := at2 x 1 0;
     A_K_0 := at2 A 0 0 - at2 K 0 0 * C0_0;
     A_K_1 := at2 A 0 1 - at2 K 0 0 * C0_1;
     A_K_2 := at2 A 1 0 - at2 K 1 0 * C0_0;
     A_K_3 := at2 A 1 1 - at2 K 1 0 * C0_1;
     K0_0 := at2 K 0 0; K1_0 := at2 K 1 0 |}.

Definition filter_update (kf : filter) (meas : Q) : filter :=
  {| x0 := A_K_0 kf * x0 kf + A_K_1 kf * x1 kf + K0_0 kf * meas;
     x1 := A_K_2 kf * x0 kf + A_K_3 kf * x1 kf + K1_0 kf * meas;
     A_K_0 := A_K_0 kf; A_K_1 := A_K_1 kf;
     A_K_2 := A_K_2 kf; A_K_3 := A_K_3 kf;
     K0_0 := K0_0 kf; K1_0 := K1_0 kf |}.

Definition filter_x (kf : filter) (i : nat) : Q :=
  match i with O => x0 kf | _ => x1 kf end.

(** A positive, increasing stand-in for [exp], equal to 1 at 0. *)
Definition exp (x : Q) : Q :=
  if x <? 0 then 1 / (1 - x) else 1 + x.

(** The first step of Heron's iteration from 1, a stand-in for [sqrt]
    (it is an upper bound of the square root). *)
Definition sqrt (x : Q) : Q := (1 + x) / 2.

#[export] Instance externals : Externals := {|
  TRAJECTORY_SIZE := 33;
  math_exp := exp;
  math_sqrt := sqrt;
  KF1D := filter;
  KF1D_new := filter_new;
  KF1D_update := filter_update;
  KF1D_x := filter_x
|}.

End Reference.

(** * Vocabulary of the statements

    Predicates and functions the theorems are stated with, and the inputs
    of the scenarios. *)

(** ** Tables *)

(** The abscissas of a table increase from [xlow] on. *)
Fixpoint increasing_from (xlow : Q) (pts : list (Q * Q)) : Prop :=
  match pts with
  | [] => True
  | (xhi, _) :: rest => xlow < xhi /\ increasing_from xhi rest
  end.

Definition in_range (lo hi : Q) (p : Q * Q) : bool :=
  (lo <=? snd p) && (snd p <=? hi).

Fixpoint increasingb (xlow : Q) (pts : list (Q * Q)) : bool :=
  match pts with
  | [] => true
  | (xhi, _) :: rest => (xlow <? xhi) && increasingb xhi rest
  end.

(** The table of a gain, without its first point [(0.01, gains[0])]. *)
Definition gain_points (gains : list Q) : list (Q * Q) :=
  tl (combine KalmanParams.dts gains).

(** ** Runs of a track *)

(** The arguments of one call of [Track.update]. *)
Definition Obs : Type := (Q * Q * Q * Q * bool)%type.

Definition update_obs {ext : Externals} (T : Track.t) (o : Obs) : Track.t :=
  let '(d_rel, y_rel, v_rel, v_lead, measured) := o in
  Track.update T d_rel y_rel v_rel v_lead measured.

(** Successive calls of [update]. *)
Definition updates {ext : Externals} (T : Track.t) (os : list Obs) : Track.t :=
  fold_left update_obs os T.

(** [|aLeadK| >= 0.5] holds after each of the updates [os] of [T]. *)
Fixpoint decaying {ext : Externals} (T : Track.t) (os : list Obs) : Prop :=
  match os with
  | [] => True
  | o :: os' =>
      0.5 <= Qabs (Track.aLeadK (update_obs T o))
      /\ decaying (update_obs T o) os'
  end.

(** The parameters of the filter at [dt = 0.05]. *)
Definition kalman_params_005 : KalmanParams.t :=
  {| KalmanParams.A := [[1; 0.05]; [0; 1]];
     KalmanParams.C := [1; 0];
     KalmanParams.K := [[0.1988689]; [0.28555364]] |}.

(** The [v_lead] arguments of successive updates. *)
Definition v_leads (os : list Obs) : list Q :=
  map (fun o : Obs => snd (fst o)) os.

(** ** The lead selector *)

(** The conditions of [potentialLowSpeedLead(vEgo)]. *)
Definition qualifies {ext : Externals} (vEgo : Q) (c : Track.t) : Prop :=
  Qabs (Track.yRel c) < 1.0 /\ vEgo < 4
  /\ 0.75 < Track.dRel c /\ Track.dRel c < 25.

(** The lead dictionaries the first part of [get_lead] builds: the bare
    [{'status': False}], or a full record whose status is true. *)
Definition selected (d : LeadDict) : Prop :=
  d = StatusOnly false \/ exists r, d = Fields r /\ Lead.status r = true.

(** ** Sorting and dictionaries *)

(** The order of the keys. *)
Definition key_le (A : Type) (key : A -> Q) (a b : A) : Prop :=
  key a <= key b.

(** No two entries of [d] have the same key. *)
Fixpoint distinct_keys {K V : Type} (keq : K -> K -> bool) (d : PyDict.t K V)
  : Prop :=
  match d with
  | [] => True
  | (k, _) :: d' =>
      (forall p, In p d' -> keq k (fst p) = false) /\ distinct_keys keq d'
  end.

(** The body of a loop that stores some of the values, each under its key. *)
Definition store_some (K V : Type) (keq : K -> K -> bool) (key : V -> K)
  (take : V -> bool) (d : PyDict.t K V) (v : V) : PyDict.t K V :=
  if take v then PyDict.set keq d (key v) v else d.

(** The last value of [vs] that is stored under a key equal to [k]. *)
Fixpoint last_stored (K V : Type) (keq : K -> K -> bool) (key : V -> K)
  (take : V -> bool) (k : K) (vs : list V) : option V :=
  match vs with
  | [] => None
  | v :: vs' =>
      match last_stored keq key take k vs' with
      | Some v' => Some v'
      | None => if take v && keq (key v) k then Some v else None
      end
  end.

(** ** Corridors *)

(** The key under which a record is stored, [abs(dPath)]. *)
Definition path_key (ld : PathLead.t) : Q := Qabs (PathLead.dPath ld).

Definition corridor_eqb (a b : Corridor) : bool :=
  match a, b with
  | LeftCorridor, LeftCorridor
  | CenterCorridor, CenterCorridor
  | RightCorridor, RightCorridor => true
  | _, _ => false
  end.

Definition in_corridor (h : Q) (X : Corridor) (ld : PathLead.t) : bool :=
  corridor_eqb (corridor h ld) X.

(** The dictionary of a corridor. *)
Definition leads_of (s : PathState.t) (X : Corridor) : PyDict.t Q PathLead.t :=
  match X with
  | LeftCorridor => PathState.leads_left s
  | CenterCorridor => PathState.leads_center s
  | RightCorridor => PathState.leads_right s
  end.

(** [ld] is a record of [lds] in the corridor [X] after which [lds] has no
    record of [X] with the same [|dPath|]. *)
Definition last_of_its_key (h : Q) (X : Corridor) (lds : list PathLead.t)
  (ld : PathLead.t) : Prop :=
  exists l1 l2,
    lds = l1 ++ ld :: l2
    /\ corridor h ld = X
    /\ forall ld', In ld' l2 ->
                   ~ (corridor h ld' = X /\ path_key ld' == path_key ld).

(** The dictionary of the corridor [X] once the records [lds] are stored. *)
Definition corridor_dict (h : Q) (X : Corridor) (lds : list PathLead.t)
  : PyDict.t Q PathLead.t :=
  fold_left (store_some Qeq_bool path_key (in_corridor h X)) lds [].

(** The list returned for a corridor. *)
Definition emitted
  (out : list PathLead.t * list PathLead.t * list PathLead.t) (X : Corridor)
  : list PathLead.t :=
  match X with
  | LeftCorridor => fst (fst out)
  | CenterCorridor => snd (fst out)
  | RightCorridor => snd out
  end.

Definition total_leads (s : PathState.t) : nat :=
  (length (PathState.leads_left s) + length (PathState.leads_center s)
   + length (PathState.leads_right s))%nat.

(** ** Scenarios, with the reference implementation of the imports *)

(** A hypothesis of probability 0. *)
Definition no_lead : LeadMsg.t :=
  {| LeadMsg.x0 := 0; LeadMsg.y0 := 0; LeadMsg.v0 := 0; LeadMsg.a0 := 0;
     LeadMsg.xStd0 := 0; LeadMsg.yStd0 := 0; LeadMsg.vStd0 := 0;
     LeadMsg.prob := 0 |}.

(** A track seen once by the radar at [(d, y)], with relative speed [v] and
    the ego speed 20. *)
Definition radar_track (id : Z) (d y v : Q) : Track.t :=
  update_obs (ext := Reference.externals)
    (Track.init id (v + 20) kalman_params_005) (d, y, v, v + 20, true).

(** A straight model path of two samples that reaches [reach] metres, with
    the lateral offset [y_end] at its end, and no lane line. *)
Definition path_model (reach y_end : Q) : ModelV2.t :=
  {| ModelV2.leadsV3 := [no_lead; no_lead];
     ModelV2.laneLines := [];
     ModelV2.laneLineProbs := [];
     ModelV2.position := {| XYLine.x := [0; reach]; XYLine.y := [0; y_end] |};
     ModelV2.temporalPose_trans := [] |}.

(** A lane line of 33 samples up to 100 m at the lateral offset [y]. *)
Definition lane_line (y : Q) : XYLine.t :=
  {| XYLine.x := map (fun k => k * 3.125) (range 0 33);
     XYLine.y := repeat y 33 |}.

(** The same model path, between two lane lines seen with probability 0.9. *)
Definition lanes_model (reach y_end : Q) : ModelV2.t :=
  {| ModelV2.leadsV3 := [no_lead; no_lead];
     ModelV2.laneLines :=
       [lane_line 5.4; lane_line 1.8; lane_line (-1.8); lane_line (-5.4)];
     ModelV2.laneLineProbs := [0.9; 0.9; 0.9; 0.9];
     ModelV2.position := {| XYLine.x := [0; reach]; XYLine.y := [0; y_end] |};
     ModelV2.temporalPose_trans := [] |}.

(** Two tracks at the same lateral offset. *)
Definition tracks_same_offset : Tracks :=
  [(1%Z, radar_track 1 30 0.5 0); (2%Z, radar_track 2 40 0.5 0)].

(** Section 8, scenario 5: two tracks at 30 m, 0.5 m and -2.5 m aside. *)
Definition tracks_corridor_split : Tracks :=
  [(1%Z, radar_track 1 30 0.5 0); (2%Z, radar_track 2 30 (-2.5) 0)].

(** Section 8, scenario 4: two slow tracks in front, A at 5 m and B at
    10 m, and no vision lead. *)
Definition tracks_low_speed : Tracks :=
  [(1%Z, radar_track 1 5 0.2 0); (2%Z, radar_track 2 10 0 0)].

(** Section 8, scenario 6: a track with [aLeadK = -1.0]. *)
Definition braking_track : Track.t :=
  Track.reset_a_lead (radar_track 1 30 0 0) (-1.0) 1.5.

Definition braking_lead (prob : Q) : LeadMsg.t :=
  {| LeadMsg.x0 := 31.52; LeadMsg.y0 := 0; LeadMsg.v0 := 20;
     LeadMsg.a0 := -3.0;
     LeadMsg.xStd0 := 1; LeadMsg.yStd0 := 1; LeadMsg.vStd0 := 1;
     LeadMsg.prob := prob |}.

(** Section 8, scenario 2: no track, a confident hypothesis at 50 m and
    15 m/s, the ego speed 10. *)
Definition vision_lead : LeadMsg.t :=
  {| LeadMsg.x0 := 50; LeadMsg.y0 := 0; LeadMsg.v0 := 15; LeadMsg.a0 := 0;
     LeadMsg.xStd0 := 1; LeadMsg.yStd0 := 1; LeadMsg.vStd0 := 1;
     LeadMsg.prob := 0.9 |}.

(** Section 8, scenario 1: one track, seen in three cycles at [dt = 0.05],
    and no vision lead. *)
Definition cycle_inputs : SubMaster.t :=
  {| SubMaster.updated_carState := true;
     SubMaster.updated_modelV2 := true;
     SubMaster.carState_vEgo := 20;
     SubMaster.modelV2 := path_model 100 0;
     SubMaster.lateralPlan_laneWidth := 3.6;
     SubMaster.logMonoTime_modelV2 := 3;
     SubMaster.logMonoTime_carState := 2;
     SubMaster.logMonoTime_lateralPlan := 1;
     SubMaster.all_checks := true |}.

(** The point of the track 7. *)
Definition point_7 : RadarPoint.t :=
  {| RadarPoint.trackId := 7; RadarPoint.dRel := 40;
     RadarPoint.yRel := 0; RadarPoint.vRel := -2;
     RadarPoint.measured := true |}.

Definition frame_track_7 : RadarData.t :=
  {| RadarData.points := [point_7]; RadarData.errors := [] |}.

(** The core at [dt = 0.05] with [delay = 0], as [RadarD.__init__] leaves
    it. *)
Definition radar_d_005 : RadarD.t :=
  Eval vm_compute in
    match RadarD.init (ext := Reference.externals) 0.05 0 with
    | Ok s => s
    | Raise _ =>
        {| RadarD.current_time := 0;
           RadarD.tracks := PyDict.empty Z Track.t;
           RadarD.kalman_params := kalman_params_005;
           RadarD.v_ego := 0;
           RadarD.v_ego_hist := Deque.init 0 0;
           RadarD.radar_state := None;
           RadarD.radar_state_valid := false;
           RadarD.ready := false;
           RadarD.showRadarInfo := 0;
           RadarD.mixRadarInfo := 0 |}
    end.

Definition three_cycles : result RadarD.t :=
  s0 <- RadarD.init (ext := Reference.externals) 0.05 0 ;;
  let s1 := fst (RadarD.update s0 0 0 cycle_inputs (Some frame_track_7)) in
  let s2 := fst (RadarD.update s1 0 0 cycle_inputs (Some frame_track_7)) in
  Ok (fst (RadarD.update s2 0 0 cycle_inputs (Some frame_track_7))).

(** ** Model messages *)

(** A model message as the model publishes it: the columns of the path
    have the same length and are not empty; every lane line has
    [TRAJECTORY_SIZE] points, which is positive, and a probability. *)
Definition well_formed {ext : Externals} (m : ModelV2.t) : Prop :=
  (0 < TRAJECTORY_SIZE)%nat
  /\ XYLine.x (ModelV2.position m) <> []
  /\ length (XYLine.x (ModelV2.position m))
     = length (XYLine.y (ModelV2.position m))
  /\ length (ModelV2.laneLineProbs m) = length (ModelV2.laneLines m)
  /\ Forall (fun l => length (XYLine.x l) = TRAJECTORY_SIZE
                      /\ length (XYLine.y l) = TRAJECTORY_SIZE)
       (ModelV2.laneLines m).

(** A model message without lead hypothesis. *)
Definition no_hypothesis_model : ModelV2.t :=
  {| ModelV2.leadsV3 := [];
     ModelV2.laneLines := [];
     ModelV2.laneLineProbs := [];
     ModelV2.position := {| XYLine.x := [0; 100]; XYLine.y := [0; 0] |};
     ModelV2.temporalPose_trans := [] |}.

(** ** Runs of the core *)

Module Call.
(** The arguments of a call of [RadarD.update], and what [Params()] holds
    at that time. *)
Record t : Type := mk {
  ShowRadarInfo : Z;
  MixRadarInfo : Z;
  sm : SubMaster.t;
  rr : option RadarData.t
}.
End Call.

(** The core after a call of [update], also when the call raises. *)
Definition call {ext : Externals} (self : RadarD.t) (c : Call.t) : RadarD.t :=
  fst (RadarD.update self (Call.ShowRadarInfo c) (Call.MixRadarInfo c)
         (Call.sm c) (Call.rr c)).

(** The core after successive calls. *)
Definition calls {ext : Externals} (self : RadarD.t) (cs : list Call.t)
  : RadarD.t :=
  fold_left call cs self.

(** The points of a frame. *)
Definition frame_points (rr : option RadarData.t) : list RadarPoint.t :=
  match rr with Some rr => RadarData.points rr | None => [] end.

(** The track identifiers of a frame. *)
Definition frame_ids (rr : option RadarData.t) : list Z :=
  map RadarPoint.trackId (frame_points rr).

(** The last point of a frame that has the identifier [id]. *)
Definition last_point (pts : list RadarPoint.t) (id : Z)
  : option RadarPoint.t :=
  find (fun pt => Z.eqb (RadarPoint.trackId pt) id) (rev pts).

(** The frame of the call has a point with the identifier [id]. *)
Definition seen (id : Z) (c : Call.t) : bool :=
  existsb (Z.eqb id) (frame_ids (Call.rr c)).

(** The number of calls at the end of [cs] whose frames hold [id] in a
    row. *)
Definition streak (id : Z) (cs : list Call.t) : nat :=
  fold_left (fun n c => if seen id c then S n else O) cs O.


(** The call of scenario 1: the frame of the track 7, at the ego speed 20. *)
Definition call_7 : Call.t :=
  {| Call.ShowRadarInfo := 0; Call.MixRadarInfo := 0;
     Call.sm := cycle_inputs; Call.rr := Some frame_track_7 |}.

(** A second point of the track 7, one metre farther. *)
Definition point_7_again : RadarPoint.t :=
  {| RadarPoint.trackId := 7; RadarPoint.dRel := 41;
     RadarPoint.yRel := 0; RadarPoint.vRel := -2;
     RadarPoint.measured := true |}.

(** A frame that holds the track 7 twice. *)
Definition frame_track_7_twice : RadarData.t :=
  {| RadarData.points := [point_7; point_7_again]; RadarData.errors := [] |}.

(** The radar errors of a frame. *)
Definition frame_errors (rr : option RadarData.t) : list RadarError :=
  match rr with Some rr => RadarData.errors rr | None => [] end.

(** The ego speed of the model, [temporalPose.trans[0]], and [v_ego] when
    the model has none. *)
Definition model_speed (md : ModelV2.t) (v_ego : Q) : Q :=
  match ModelV2.temporalPose_trans md with
  | v :: _ => v
  | [] => v_ego
  end.

(** The last [n] elements of a list. *)
Definition last_n {A : Type} (n : nat) (l : list A) : list A :=
  skipn (length l - n) l.

(** The ego speeds of the calls in which the car state was updated. *)
Definition vEgos (cs : list Call.t) : list Q :=
  map (fun c => SubMaster.carState_vEgo (Call.sm c))
      (filter (fun c => SubMaster.updated_carState (Call.sm c)) cs).

(** ** Publication *)

(** The element of [liveTracks] for the track kept under [tid]. *)
Definition live_track {ext : Externals} (tracks : Tracks) (tid : Z)
  : LiveTrack.t :=
  match PyDict.get Z.eqb tracks tid with
  | Some t =>
      {| LiveTrack.trackId := tid; LiveTrack.dRel := Track.dRel t;
         LiveTrack.yRel := Track.yRel t; LiveTrack.vRel := Track.vRel t |}
  | None => LiveTrack.new_message
  end.


(** ** The order of the track map *)

(** The key [k] put at the end of [keys], unless it is there already. *)
Definition add_key (keys : list Z) (k : Z) : list Z :=
  if existsb (Z.eqb k) keys then keys else keys ++ [k].

(** The keys [ids] put in turn at the end of [keys]. *)
Definition add_keys (keys ids : list Z) : list Z :=
  fold_left add_key ids keys.

(** * Verification *)

(** ** Comparisons *)

Lemma Qltb_lt (x y : Q) : (x <? y) = true <-> x < y.
Proof.
  unfold Qltb. rewrite negb_true_iff.
  split; intro H.
  - apply Qnot_le_lt. intro Hle. apply Qle_bool_iff in Hle. congruence.
  - destruct (Qle_bool y x) eqn:E; [|reflexivity].
    apply Qle_bool_iff in E. exfalso. exact (Qlt_not_le _ _ H E).
Qed.

Lemma Qltb_ge (x y : Q) : (x <? y) = false <-> y <= x.
Proof.
  unfold Qltb. rewrite negb_false_iff. apply Qle_bool_iff.
Qed.

Lemma Qleb_le (x y : Q) : (x <=? y) = true <-> x <= y.
Proof. apply Qle_bool_iff. Qed.

Lemma Qleb_gt (x y : Q) : (x <=? y) = false <-> y < x.
Proof.
  unfold Qleb. split; intro H.
  - apply Qnot_le_lt. intro Hle. apply Qle_bool_iff in Hle. congruence.
  - destruct (Qle_bool x y) eqn:E; [|reflexivity].
    apply Qle_bool_iff in E. exfalso. exact (Qlt_not_le _ _ H E).
Qed.

Ltac cmp_to_prop :=
  repeat match goal with
  | H : (_ <? _) = true |- _ => apply Qltb_lt in H
  | H : (_ <? _) = false |- _ => apply Qltb_ge in H
  | H : (_ <=? _) = true |- _ => apply Qleb_le in H
  | H : (_ <=? _) = false |- _ => apply Qleb_gt in H
  end.

(** ** Interpolation *)

(** A point between [xlow] and [xhi] is mapped between [flow] and [fhi]. *)
Lemma linear_between (xv xlow xhi flow fhi lo hi : Q) :
  xlow < xv -> xv <= xhi ->
  lo <= flow <= hi -> lo <= fhi <= hi ->
  lo <= (xv - xlow) * (fhi - flow) / (xhi - xlow) + flow <= hi.
Proof.
  intros Hl Hh [Hf1 Hf2] [Hg1 Hg2].
  assert (Hd : 0 < xhi - xlow) by lra.
  set (t := (xv - xlow) / (xhi - xlow)).
  assert (Ht0 : 0 <= t).
  { unfold t. apply Qle_shift_div_l; [exact Hd | lra]. }
  assert (Ht1 : t <= 1).
  { unfold t. apply Qle_shift_div_r; [exact Hd | lra]. }
  assert (E : (xv - xlow) * (fhi - flow) / (xhi - xlow) + flow
              == flow + t * (fhi - flow)).
  { unfold t. field. lra. }
  rewrite E. split; nra.
Qed.

(** At [xhi] the segment takes the value [fhi]. *)
Lemma linear_at_end (xv xlow xhi flow fhi : Q) :
  xlow < xhi -> xv == xhi ->
  (xv - xlow) * (fhi - flow) / (xhi - xlow) + flow == fhi.
Proof.
  intros Hd E. rewrite E. field. lra.
Qed.

Lemma increasing_from_nth (pts : list (Q * Q)) :
  forall xlow n xn fn,
    increasing_from xlow pts ->
    nth_error pts n = Some (xn, fn) ->
    xlow < xn.
Proof.
  induction pts as [|[x' f'] rest IH]; intros xlow n xn fn Hinc Hn.
  - destruct n; discriminate.
  - destruct Hinc as [Hlt Hinc]. destruct n as [|n]; simpl in Hn.
    + injection Hn as -> ->. exact Hlt.
    + apply Qlt_trans with x'; [exact Hlt|]. eapply IH; eassumption.
Qed.

Lemma interp_segments_bounds (lo hi xv : Q) (pts : list (Q * Q)) :
  forall xlow flow,
    xlow < xv ->
    increasing_from xlow pts ->
    lo <= flow <= hi ->
    Forall (fun p => lo <= snd p <= hi) pts ->
    lo <= interp_segments xv xlow flow pts <= hi.
Proof.
  induction pts as [|[xhi fhi] rest IH]; intros xlow flow Hx Hinc Hf Hall; simpl.
  - exact Hf.
  - destruct Hinc as [Hlt Hinc]. inversion Hall as [|? ? Hp Hrest]; subst.
    simpl in Hp.
    destruct (xv <=? xhi) eqn:E; cmp_to_prop.
    + apply linear_between; assumption.
    + apply IH; assumption.
Qed.

(** At a table point the interpolation is the tabulated value. *)
Lemma interp_segments_at_point (xv : Q) (pts : list (Q * Q)) :
  forall xlow flow n xn fn,
    increasing_from xlow pts ->
    nth_error pts n = Some (xn, fn) ->
    xv == xn ->
    interp_segments xv xlow flow pts == fn.
Proof.
  induction pts as [|[xhi fhi] rest IH]; intros xlow flow n xn fn Hinc Hn E.
  - destruct n; discriminate.
  - destruct Hinc as [Hlt Hinc]. simpl.
    destruct n as [|n]; simpl in Hn.
    + injection Hn as -> ->.
      assert (Hle : (xv <=? xn) = true) by (apply Qleb_le; lra).
      rewrite Hle. apply linear_at_end; assumption.
    + assert (Hgt : (xv <=? xhi) = false).
      { apply Qleb_gt. rewrite E. eapply increasing_from_nth; eassumption. }
      rewrite Hgt. eapply IH; eassumption.
Qed.

(** ** KalmanParams *)

Lemma in_range_Forall (lo hi : Q) (pts : list (Q * Q)) :
  forallb (in_range lo hi) pts = true ->
  Forall (fun p => lo <= snd p <= hi) pts.
Proof.
  intro H. apply Forall_forall. intros p Hp.
  rewrite forallb_forall in H. specialize (H p Hp).
  unfold in_range in H. apply andb_true_iff in H as [H1 H2].
  cmp_to_prop. split; assumption.
Qed.

Lemma increasingb_spec (pts : list (Q * Q)) :
  forall xlow, increasingb xlow pts = true -> increasing_from xlow pts.
Proof.
  induction pts as [|[xhi fhi] rest IH]; intros xlow H; simpl in *.
  - exact I.
  - apply andb_true_iff in H as [H1 H2]. cmp_to_prop. split; auto.
Qed.

Lemma interp_gain (dt g0 : Q) (gains : list Q) :
  length gains = 19%nat ->
  0.01 < dt ->
  interp dt KalmanParams.dts (g0 :: gains)
  = Ok (interp_segments dt (inject_Z 1 * 0.01) g0 (gain_points (g0 :: gains))).
Proof.
  intros Hlen Hdt. unfold interp, gain_points.
  replace (length (g0 :: gains)) with 20%nat by (simpl; rewrite Hlen; reflexivity).
  change (length KalmanParams.dts) with 20%nat. simpl negb. cbv iota.
  change KalmanParams.dts
    with ((inject_Z 1 * 0.01) :: tl KalmanParams.dts).
  cbn [combine tl].
  assert (H : (dt <=? inject_Z 1 * 0.01) = false).
  { apply Qleb_gt. assert (E : inject_Z 1 * 0.01 == 0.01) by reflexivity. lra. }
  rewrite H. reflexivity.
Qed.

Lemma gain_at_table_point (dt g0 : Q) (gains : list Q) (k : nat) :
  length gains = 19%nat ->
  (2 <= k <= 20)%nat ->
  dt == inject_Z (Z.of_nat k) * 0.01 ->
  interp_segments dt (inject_Z 1 * 0.01) g0 (gain_points (g0 :: gains))
  == nth (k - 1) (g0 :: gains) 0.
Proof.
  intros Hlen Hk E.
  apply interp_segments_at_point
    with (n := (k - 2)%nat) (xn := inject_Z (Z.of_nat k) * 0.01).
  - apply increasingb_spec.
    do 20 (destruct gains as [|? gains]; try discriminate Hlen).
    reflexivity.
  - do 20 (destruct gains as [|? gains]; try discriminate Hlen).
    do 21 (destruct k as [|k]; [try lia; try reflexivity|]). lia.
  - exact E.
Qed.

Lemma K0_bounds :
  Forall (fun p => 0.12287673 <= snd p <= 0.36200124)
         (gain_points KalmanParams.K0).
Proof. apply in_range_Forall. vm_compute. reflexivity. Qed.

Lemma K1_bounds :
  Forall (fun p => 0.26278425 <= snd p <= 0.29666309)
         (gain_points KalmanParams.K1).
Proof. apply in_range_Forall. vm_compute. reflexivity. Qed.

Lemma gain_points_increasing (gains : list Q) :
  length gains = 20%nat ->
  increasing_from (inject_Z 1 * 0.01) (gain_points gains).
Proof.
  intro Hlen. apply increasingb_spec.
  do 21 (destruct gains as [|? gains]; try discriminate Hlen).
  reflexivity.
Qed.

(** C6, as the code has it: the guard of [KalmanParams.__init__] is strict.
    For every [dt] with [0.01 < dt < 0.2] the construction succeeds, with
    [A = [[1, dt], [0, 1]]], [C = [1, 0]] and gains that lie between the
    least and the greatest tabulated value; and where [dt] is a table point
    [0.01 k] the gains are the tabulated [K0[k]], [K1[k]]. *)
Theorem KalmanParams_init_gains (dt : Q) :
  0.01 < dt -> dt < 0.2 ->
  exists k0 k1,
    KalmanParams.init dt
    = Ok {| KalmanParams.A := [[1; dt]; [0; 1]];
            KalmanParams.C := [1; 0];
            KalmanParams.K := [[k0]; [k1]] |}
    /\ 0.12287673 <= k0 <= 0.36200124
    /\ 0.26278425 <= k1 <= 0.29666309
    /\ forall k : nat,
         (1 <= k <= 20)%nat ->
         dt == inject_Z (Z.of_nat k) * 0.01 ->
         k0 == nth (k - 1) KalmanParams.K0 0
         /\ k1 == nth (k - 1) KalmanParams.K1 0.
Proof.
  intros Hlo Hhi.
  assert (Hx : inject_Z 1 * 0.01 < dt).
  { assert (E : inject_Z 1 * 0.01 == 0.01) by reflexivity. lra. }
  exists (interp_segments dt (inject_Z 1 * 0.01) 0.12287673
            (gain_points KalmanParams.K0)),
         (interp_segments dt (inject_Z 1 * 0.01) 0.29666309
            (gain_points KalmanParams.K1)).
  split; [|split; [|split]].
  - unfold KalmanParams.init.
    assert (G : negb ((0.01 <? dt) && (dt <? 0.2)) = false).
    { apply negb_false_iff, andb_true_iff. split; apply Qltb_lt; assumption. }
    rewrite G.
    unfold KalmanParams.K0 at 1, KalmanParams.K1 at 1.
    rewrite !interp_gain by (reflexivity || assumption).
    reflexivity.
  - apply interp_segments_bounds.
    + exact Hx.
    + apply gain_points_increasing. reflexivity.
    + split; [apply Qle_refl | apply Qlt_le_weak; reflexivity].
    + exact K0_bounds.
  - apply interp_segments_bounds.
    + exact Hx.
    + apply gain_points_increasing. reflexivity.
    + split; [apply Qlt_le_weak; reflexivity | apply Qle_refl].
    + exact K1_bounds.
  - intros k Hk E.
    assert (Hk2 : (2 <= k <= 20)%nat).
    { destruct (Nat.eq_dec k 1) as [->|]; [|lia].
      exfalso. apply (Qlt_irrefl dt). rewrite E at 1. exact Hx. }
    split.
    + apply (@gain_at_table_point dt 0.12287673 (tl KalmanParams.K0) k);
        [reflexivity | exact Hk2 | exact E].
    + apply (@gain_at_table_point dt 0.29666309 (tl KalmanParams.K1) k);
        [reflexivity | exact Hk2 | exact E].
Qed.

(** At [dt = 0.05], the table point 5. *)
Lemma KalmanParams_init_gains_witness :
  exists k0 k1,
    KalmanParams.init 0.05
    = Ok {| KalmanParams.A := [[1; 0.05]; [0; 1]];
            KalmanParams.C := [1; 0];
            KalmanParams.K := [[k0]; [k1]] |}
    /\ 0.12287673 <= k0 <= 0.36200124
    /\ 0.26278425 <= k1 <= 0.29666309
    /\ forall k : nat,
         (1 <= k <= 20)%nat ->
         0.05 == inject_Z (Z.of_nat k) * 0.01 ->
         k0 == nth (k - 1) KalmanParams.K0 0
         /\ k1 == nth (k - 1) KalmanParams.K1 0.
Proof.
  apply (@KalmanParams_init_gains 0.05); reflexivity.
Defined.

(** C6, as stated, fails at both ends of the closed interval: the guard
    rejects [dt = 0.01] and [dt = 0.2], which are the table points 1 and
    20. *)
Lemma KalmanParams_init_endpoints_rejected :
  (0.01 <= 0.01 /\ 0.01 <= 0.2)
  /\ KalmanParams.init 0.01 = Raise AssertionError
  /\ KalmanParams.init (inject_Z 1 * 0.01) = Raise AssertionError
  /\ KalmanParams.init 0.2 = Raise AssertionError
  /\ KalmanParams.init (inject_Z 20 * 0.01) = Raise AssertionError
  /\ ~ (forall dt, 0.01 <= dt -> dt <= 0.2 -> returns (KalmanParams.init dt)).
Proof.
  repeat split; try reflexivity; try (intro H; discriminate H).
  intro H. destruct (H 0.01) as [kp Hkp]; try (intro C; discriminate C).
  discriminate Hkp.
Qed.

(** ** Lead records *)

(** C7: the vision-only lead record of a hypothesis [L], field by field, and
    its use by the lead selector: with an empty track map and the model
    ready, [get_lead] returns it when [L.prob > 0.5]. *)
Theorem vision_only_lead_record (ext : Externals) (L : LeadMsg.t)
  (vEgo vEgoModel : Q) :
  let r := get_RadarState_from_vision L vEgo vEgoModel in
  Lead.dRel r = LeadMsg.x0 L - 1.52
  /\ Lead.yRel r = - LeadMsg.y0 L
  /\ Lead.vRel r = LeadMsg.v0 L - vEgoModel
  /\ Lead.vLead r = vEgo + Lead.vRel r
  /\ Lead.vLeadK r = vEgo + Lead.vRel r
  /\ Lead.aLeadK r = 0
  /\ Lead.aLeadTau r = 0.3
  /\ Lead.status r = true
  /\ Lead.radar r = false
  /\ Lead.radarTrackId r = (-1)%Z
  /\ Lead.fcw r = false
  /\ Lead.modelProb r = LeadMsg.prob L
  /\ (forall low_speed_override m,
        get_lead vEgo true (PyDict.empty Z Track.t) L vEgoModel
          low_speed_override m
        = if 0.5 <? LeadMsg.prob L then Ok (Fields r)
          else Ok (StatusOnly false)).
Proof.
  cbv zeta. repeat split.
  intros lso m. unfold get_lead, get_lead_vision. simpl.
  destruct (0.5 <? LeadMsg.prob L); destruct lso; reflexivity.
Qed.

Lemma useVisionMix_spec (ext : Externals) (T : Track.t) (L : LeadMsg.t) (m : Z) :
  Track.useVisionMix T L m = true
  <-> (0 < m)%Z /\ 0.5 < LeadMsg.prob L
      /\ Qabs (Track.aLeadK T) < Qabs (LeadMsg.a0 L).
Proof.
  unfold Track.useVisionMix.
  rewrite !andb_true_iff, !Qltb_lt, Z.ltb_lt. tauto.
Qed.

(** C4: in the projected lead record of a track [T] and a hypothesis [L]
    under the mix mode [m], [aLeadK] is [L.a[0]] when [m > 0],
    [L.prob > 0.5] and [|T.aLeadK| < |L.a[0]|] (the flag [useVisionMix] is
    set exactly then), and [T.aLeadK] otherwise.  With [m = 1],
    [T.aLeadK = -1.0] and [L.a[0] = -3.0] it is [-3.0] when [L.prob = 0.8]
    and [-1.0] when [L.prob = 0.4]. *)
Theorem projected_aLeadK (ext : Externals) (T : Track.t) (L : LeadMsg.t)
  (model_prob : Q) (m : Z) :
  let mixes := (0 < m)%Z /\ 0.5 < LeadMsg.prob L
               /\ Qabs (Track.aLeadK T) < Qabs (LeadMsg.a0 L) in
  let r := Track.get_RadarState2 T model_prob L m in
  (Track.useVisionMix T L m = true <-> mixes)
  /\ (mixes -> Lead.aLeadK r = LeadMsg.a0 L)
  /\ (~ mixes -> Lead.aLeadK r = Track.aLeadK T)
  /\ (Track.aLeadK T <> LeadMsg.a0 L ->
      (Lead.aLeadK r = LeadMsg.a0 L <-> mixes))
  /\ (m = 1%Z -> Track.aLeadK T = -1.0 -> LeadMsg.a0 L = -3.0 ->
      (LeadMsg.prob L = 0.8 -> Lead.aLeadK r = -3.0)
      /\ (LeadMsg.prob L = 0.4 -> Lead.aLeadK r = -1.0)).
Proof.
  cbv zeta. pose proof (useVisionMix_spec T L m) as Hmix.
  assert (Hyes : (0 < m)%Z /\ 0.5 < LeadMsg.prob L
                 /\ Qabs (Track.aLeadK T) < Qabs (LeadMsg.a0 L) ->
                 Lead.aLeadK (Track.get_RadarState2 T model_prob L m)
                 = LeadMsg.a0 L).
  { intro H. apply Hmix in H. simpl. rewrite H. reflexivity. }
  assert (Hno : ~ ((0 < m)%Z /\ 0.5 < LeadMsg.prob L
                   /\ Qabs (Track.aLeadK T) < Qabs (LeadMsg.a0 L)) ->
                Lead.aLeadK (Track.get_RadarState2 T model_prob L m)
                = Track.aLeadK T).
  { intro H. simpl. destruct (Track.useVisionMix T L m) eqn:E.
    - exfalso. apply H, Hmix. reflexivity.
    - reflexivity. }
  split; [exact Hmix|]. split; [exact Hyes|]. split; [exact Hno|]. split.
  - intro Hne. split; [|exact Hyes].
    intro Heq. destruct (Track.useVisionMix T L m) eqn:E.
    + apply Hmix. reflexivity.
    + exfalso. apply Hne. rewrite <- Heq. symmetry. apply Hno.
      intro H. apply Hmix in H. discriminate H.
  - intros -> Ha Hl. split; intro Hp; simpl; unfold Track.useVisionMix;
      rewrite Ha, Hl, Hp; reflexivity.
Qed.

(** ** Track: the decay of [aLeadTau] *)

Section Decay.
Context {ext : Externals}.

Lemma update_aLeadTau (T : Track.t) (o : Obs) :
  Track.aLeadTau (update_obs T o)
  = if Qabs (Track.aLeadK (update_obs T o)) <? 0.5 then 1.5
    else Track.aLeadTau T * 0.9.
Proof.
  destruct o as [[[[d y] v] vl] me]. reflexivity.
Qed.

Lemma update_reset (T : Track.t) (o : Obs) :
  Qabs (Track.aLeadK (update_obs T o)) < 0.5 ->
  Track.aLeadTau (update_obs T o) = 1.5.
Proof.
  intro H. rewrite update_aLeadTau.
  apply Qltb_lt in H. rewrite H. reflexivity.
Qed.

Lemma update_decay (T : Track.t) (o : Obs) :
  0.5 <= Qabs (Track.aLeadK (update_obs T o)) ->
  Track.aLeadTau (update_obs T o) = Track.aLeadTau T * 0.9.
Proof.
  intro H. rewrite update_aLeadTau.
  apply Qltb_ge in H. rewrite H. reflexivity.
Qed.

Lemma pow_succ (q : Q) (n : nat) :
  q ^ Z.of_nat (S n) == q * q ^ Z.of_nat n.
Proof.
  rewrite Nat2Z.inj_succ. unfold Z.succ.
  destruct n as [|n].
  - simpl. ring.
  - rewrite Qpower_plus' by lia. simpl (q ^ 1). ring.
Qed.

Lemma updates_decay (os : list Obs) :
  forall T,
    decaying T os ->
    Track.aLeadTau (updates T os)
    == Track.aLeadTau T * 0.9 ^ Z.of_nat (length os).
Proof.
  induction os as [|o os IH]; intros T Hd.
  - simpl. ring.
  - destruct Hd as [Ho Hd]. unfold updates. simpl fold_left.
    fold (updates (update_obs T o) os).
    rewrite (IH _ Hd), (update_decay _ _ Ho).
    change (length (o :: os)) with (S (length os)).
    rewrite pow_succ. ring.
Qed.

Lemma update_range (T : Track.t) (o : Obs) :
  0 < Track.aLeadTau T <= 1.5 ->
  0 < Track.aLeadTau (update_obs T o) <= 1.5.
Proof.
  intros [H0 H1]. rewrite update_aLeadTau.
  destruct (Qabs (Track.aLeadK (update_obs T o)) <? 0.5).
  - split; [reflexivity | apply Qle_refl].
  - split; lra.
Qed.

Lemma updates_range (os : list Obs) :
  forall T,
    0 < Track.aLeadTau T <= 1.5 ->
    0 < Track.aLeadTau (updates T os) <= 1.5.
Proof.
  induction os as [|o os IH]; intros T H.
  - exact H.
  - apply (IH (update_obs T o)). apply update_range. exact H.
Qed.

End Decay.

(** C5: a track is created with [aLeadTau = 1.5]; an update after which
    [|aLeadK| < 0.5] sets it to 1.5; [N] successive updates, after each of
    which [|aLeadK| >= 0.5], multiply it by [0.9 ^ N], so that it is
    [1.5 * 0.9 ^ N] when they follow the creation or a reset; and it lies in
    the interval (0, 1.5] after the creation and after every update. *)
Theorem aLeadTau_decay (ext : Externals) :
  (forall id v_lead kp, Track.aLeadTau (Track.init id v_lead kp) = 1.5)
  /\ (forall T o,
        Qabs (Track.aLeadK (update_obs T o)) < 0.5 ->
        Track.aLeadTau (update_obs T o) = 1.5)
  /\ (forall T os,
        Track.aLeadTau T == 1.5 ->
        decaying T os ->
        Track.aLeadTau (updates T os) == 1.5 * 0.9 ^ Z.of_nat (length os))
  /\ (forall T o,
        0 < Track.aLeadTau T <= 1.5 ->
        0 < Track.aLeadTau (update_obs T o) <= 1.5)
  /\ (forall id v_lead kp os,
        0 < Track.aLeadTau (updates (Track.init id v_lead kp) os) <= 1.5).
Proof.
  split; [reflexivity|].
  split; [exact update_reset|].
  split; [|split].
  - intros T os E Hd. rewrite (updates_decay _ _ Hd), E. reflexivity.
  - exact update_range.
  - intros id v kp os. apply updates_range.
    split; [reflexivity | apply Qle_refl].
Qed.

(** A run of the reference filter at [dt = 0.05]: a track created at 20 m/s
    and updated once, then two updates that observe 30 m/s. *)
Lemma aLeadTau_decay_witness :
  let T := update_obs (ext := Reference.externals)
             (Track.init 7 20 kalman_params_005) (40, 0, 0, 20, true) in
  let os := [(40, 0, 10, 30, true); (40, 0, 10, 30, true)] in
  Track.aLeadTau T == 1.5
  /\ decaying T os
  /\ Track.aLeadTau (updates T os) == 1.5 * 0.9 ^ 2.
Proof.
  cbv zeta.
  assert (E : Track.aLeadTau
                (update_obs (ext := Reference.externals)
                   (Track.init 7 20 kalman_params_005) (40, 0, 0, 20, true))
              == 1.5) by reflexivity.
  assert (D : decaying
                (update_obs (ext := Reference.externals)
                   (Track.init 7 20 kalman_params_005) (40, 0, 0, 20, true))
                [(40, 0, 10, 30, true); (40, 0, 10, 30, true)]).
  { vm_compute. repeat split; intro H; discriminate H. }
  split; [exact E|]. split; [exact D|].
  exact (proj1 (proj2 (proj2 (aLeadTau_decay Reference.externals))) _ _ E D).
Defined.

(** ** Dictionaries *)

Section DictFacts.
Variables (K V : Type) (keq : K -> K -> bool).
Hypothesis keq_eq : forall a b, keq a b = true <-> a = b.

Lemma keq_refl (a : K) : keq a a = true.
Proof. apply keq_eq. reflexivity. Qed.

Lemma dict_mem_keys (d : PyDict.t K V) (k : K) :
  PyDict.mem keq d k = true <-> In k (PyDict.keys d).
Proof.
  unfold PyDict.mem.
  induction d as [|[k' v'] d IH]; simpl.
  - split; [discriminate | tauto].
  - destruct (keq k' k) eqn:E.
    + apply keq_eq in E. split; auto.
    + rewrite IH. split; [auto|]. intros [H|H]; [|exact H].
      apply keq_eq in H. congruence.
Qed.

Lemma dict_keys_set (d : PyDict.t K V) (k k' : K) (v : V) :
  In k (PyDict.keys (PyDict.set keq d k' v)) <-> In k (PyDict.keys d) \/ k = k'.
Proof.
  induction d as [|[k0 v0] d IH]; simpl.
  - split; intros [H|H]; auto; contradiction.
  - destruct (keq k0 k') eqn:E; simpl.
    + apply keq_eq in E. subst k0. intuition congruence.
    + rewrite IH. tauto.
Qed.

(** [set] keeps the keys apart. *)
Lemma dict_set_NoDup (d : PyDict.t K V) (k : K) (v : V) :
  NoDup (PyDict.keys d) -> NoDup (PyDict.keys (PyDict.set keq d k v)).
Proof.
  induction d as [|[k0 v0] d IH]; simpl; intro H.
  - constructor; [intros []|constructor].
  - inversion H as [|? ? Hn Hd]; subst.
    destruct (keq k0 k) eqn:E; simpl.
    + constructor; assumption.
    + constructor; [|apply IH; exact Hd].
      intro Hin. apply dict_keys_set in Hin as [Hin| ->]; [contradiction|].
      rewrite keq_refl in E. discriminate.
Qed.

Lemma dict_get_set_same (d : PyDict.t K V) (k : K) (v : V) :
  PyDict.get keq (PyDict.set keq d k v) k = Some v.
Proof.
  induction d as [|[k0 v0] d IH]; simpl.
  - rewrite keq_refl. reflexivity.
  - destruct (keq k0 k) eqn:E; simpl; rewrite E; [reflexivity | exact IH].
Qed.

(** [pop] reaches past the entries whose key is another one. *)
Lemma dict_pop_app (pre d : PyDict.t K V) (k : K) :
  (forall p, In p pre -> keq (fst p) k = false) ->
  PyDict.pop keq (pre ++ d) k = pre ++ PyDict.pop keq d k.
Proof.
  induction pre as [|[k0 v0] pre IH]; simpl; intro H.
  - reflexivity.
  - pose proof (H (k0, v0) (or_introl eq_refl)) as E. simpl in E. rewrite E.
    rewrite IH by (intros p Hp; apply H; right; exact Hp). reflexivity.
Qed.

End DictFacts.

(** ** The track map of a cycle *)

Section TrackMap.
Context {ext : Externals}.

Lemma Zeqb_eq : forall a b : Z, (a =? b)%Z = true <-> a = b.
Proof. exact Z.eqb_eq. Qed.

Lemma collect_points_keys_from (pts : list RadarPoint.t) :
  forall (d : RadarD.RadarPts) (k : Z),
    In k (PyDict.keys
            (fold_left
               (fun ar_pts pt =>
                  PyDict.set Z.eqb ar_pts (RadarPoint.trackId pt)
                    (RadarPoint.dRel pt, RadarPoint.yRel pt,
                     RadarPoint.vRel pt, RadarPoint.measured pt))
               pts d))
    <-> In k (PyDict.keys d) \/ In k (map RadarPoint.trackId pts).
Proof.
  induction pts as [|pt pts IH]; intros d k; simpl.
  - tauto.
  - rewrite IH, (dict_keys_set Z.eqb Zeqb_eq). intuition congruence.
Qed.

Lemma collect_points_keys (pts : list RadarPoint.t) (k : Z) :
  In k (PyDict.keys (RadarD.collect_points pts))
  <-> In k (map RadarPoint.trackId pts).
Proof.
  unfold RadarD.collect_points. rewrite collect_points_keys_from.
  simpl. tauto.
Qed.

Lemma collect_points_NoDup (pts : list RadarPoint.t) :
  NoDup (PyDict.keys (RadarD.collect_points pts)).
Proof.
  unfold RadarD.collect_points.
  assert (H : forall d : RadarD.RadarPts,
             NoDup (PyDict.keys d) ->
             NoDup (PyDict.keys
                      (fold_left
                         (fun ar_pts pt =>
                            PyDict.set Z.eqb ar_pts (RadarPoint.trackId pt)
                              (RadarPoint.dRel pt, RadarPoint.yRel pt,
                               RadarPoint.vRel pt, RadarPoint.measured pt))
                         pts d))).
  { induction pts as [|pt pts IH]; intros d Hd; simpl.
    - exact Hd.
    - apply IH, (dict_set_NoDup Z.eqb Zeqb_eq), Hd. }
  apply H. constructor.
Qed.

(** Eviction keeps the tracks whose identifier is in the frame, in their
    order. *)
Lemma evict_from (ar_pts : RadarD.RadarPts) (d : Tracks) :
  forall pre : Tracks,
    (forall p, In p pre -> PyDict.mem Z.eqb ar_pts (fst p) = true) ->
    fold_left
      (fun tracks ids =>
         if negb (PyDict.mem Z.eqb ar_pts ids)
         then PyDict.pop Z.eqb tracks ids else tracks)
      (PyDict.keys d) (pre ++ d)
    = pre ++ filter (fun p => PyDict.mem Z.eqb ar_pts (fst p)) d.
Proof.
  induction d as [|[k v] d IH]; intros pre Hpre; simpl.
  - reflexivity.
  - destruct (PyDict.mem Z.eqb ar_pts k) eqn:E; simpl.
    + change (pre ++ (k, v) :: d) with (pre ++ [(k, v)] ++ d).
      rewrite app_assoc, IH.
      * rewrite <- app_assoc. reflexivity.
      * intros p Hp. apply in_app_or in Hp as [Hp|[<-|[]]]; auto.
    + rewrite dict_pop_app.
      * simpl. rewrite Z.eqb_refl. apply IH. exact Hpre.
      * intros p Hp. destruct (Z.eqb_spec (fst p) k) as [Heq|]; [|reflexivity].
        rewrite <- Heq, (Hpre p Hp) in E. discriminate.
Qed.

Lemma evict_filter (tracks : Tracks) (ar_pts : RadarD.RadarPts) :
  RadarD.evict tracks ar_pts
  = filter (fun p => PyDict.mem Z.eqb ar_pts (fst p)) tracks.
Proof.
  unfold RadarD.evict. apply (evict_from ar_pts tracks []).
  intros p [].
Qed.

Lemma evict_keys (tracks : Tracks) (ar_pts : RadarD.RadarPts) (k : Z) :
  In k (PyDict.keys (RadarD.evict tracks ar_pts))
  <-> In k (PyDict.keys tracks) /\ In k (PyDict.keys ar_pts).
Proof.
  rewrite evict_filter. unfold PyDict.keys at 1 2. rewrite !in_map_iff.
  split.
  - intros [p [<- Hp]]. apply filter_In in Hp as [Hp Hm].
    split; [exists p; auto | apply (dict_mem_keys Z.eqb Zeqb_eq); exact Hm].
  - intros [[p [<- Hp]] Hk]. exists p. split; [reflexivity|].
    apply filter_In. split; [exact Hp|].
    apply (dict_mem_keys Z.eqb Zeqb_eq). exact Hk.
Qed.

Lemma filter_keys_NoDup (A B : Type) (f : A * B -> bool) (d : list (A * B)) :
  NoDup (map fst d) -> NoDup (map fst (filter f d)).
Proof.
  induction d as [|p d IH]; simpl; intro H.
  - constructor.
  - inversion H as [|? ? Hn Hd]; subst.
    destruct (f p); simpl; [|apply IH; exact Hd].
    constructor; [|apply IH; exact Hd].
    intro Hin. apply Hn. apply in_map_iff in Hin as [q [Hq Hin]].
    apply filter_In in Hin as [Hin _]. apply in_map_iff. exists q. auto.
Qed.

Lemma upsert_one_keys (kp : KalmanParams.t) (hist : Deque.t) (tracks : Tracks)
  (entry : Z * (Q * Q * Q * bool)) (k : Z) :
  In k (PyDict.keys (RadarD.upsert_one kp hist tracks entry))
  <-> In k (PyDict.keys tracks) \/ k = fst entry.
Proof.
  destruct entry as [ids [[[d y] v] me]]. unfold RadarD.upsert_one.
  apply (dict_keys_set Z.eqb Zeqb_eq).
Qed.

Lemma upsert_keys (kp : KalmanParams.t) (hist : Deque.t)
  (ar_pts : RadarD.RadarPts) :
  forall (tracks : Tracks) (k : Z),
    In k (PyDict.keys (RadarD.upsert kp hist tracks ar_pts))
    <-> In k (PyDict.keys tracks) \/ In k (PyDict.keys ar_pts).
Proof.
  unfold RadarD.upsert.
  induction ar_pts as [|entry ar_pts IH]; intros tracks k; simpl.
  - tauto.
  - rewrite IH, upsert_one_keys. intuition congruence.
Qed.

Lemma upsert_NoDup (kp : KalmanParams.t) (hist : Deque.t)
  (ar_pts : RadarD.RadarPts) :
  forall tracks : Tracks,
    NoDup (PyDict.keys tracks) ->
    NoDup (PyDict.keys (RadarD.upsert kp hist tracks ar_pts)).
Proof.
  unfold RadarD.upsert.
  induction ar_pts as [|[ids [[[d y] v] me]] ar_pts IH]; intros tracks H; simpl.
  - exact H.
  - apply IH. unfold RadarD.upsert_one. apply (dict_set_NoDup Z.eqb Zeqb_eq), H.
Qed.

(** Whatever the later steps of [update] do, they leave the track map as
    the track steps computed it. *)
Lemma update_tracks_kept (self : RadarD.t) (ShowRadarInfo MixRadarInfo : Z)
  (sm : SubMaster.t) (rr : option RadarData.t) :
  RadarD.tracks (fst (RadarD.update self ShowRadarInfo MixRadarInfo sm rr))
  = RadarD.tracks (RadarD.update_tracks self ShowRadarInfo MixRadarInfo sm rr).
Proof.
  unfold RadarD.update.
  destruct (ModelV2.leadsV3 (SubMaster.modelV2 sm)) as [|lead0 [|lead1 rest]];
    try reflexivity.
  cbv zeta.
  destruct (get_lead _ _ _ lead0 _ true _) as [one|e]; [|reflexivity].
  destruct (get_lead _ _ _ lead1 _ false _) as [two|e]; [|reflexivity].
  match goal with |- context [if ?c then _ else _] => destruct c end;
    [|reflexivity].
  destruct (get_path_adjacent_leads _ _ _ _ _) as [[[ll lc] lr]|e];
    reflexivity.
Qed.

End TrackMap.

(** C1: after a cycle update, whatever the state before it and whatever the
    radar frame, the identifiers of the track map are the track identifiers
    of the frame (and they stay distinct keys). *)
Theorem update_track_ids (ext : Externals) (self : RadarD.t)
  (ShowRadarInfo MixRadarInfo : Z) (sm : SubMaster.t)
  (rr : option RadarData.t) :
  let radar_points :=
    match rr with Some rr => RadarData.points rr | None => [] end in
  let self' := fst (RadarD.update self ShowRadarInfo MixRadarInfo sm rr) in
  (forall id : Z,
      In id (PyDict.keys (RadarD.tracks self'))
      <-> In id (map RadarPoint.trackId radar_points))
  /\ (NoDup (PyDict.keys (RadarD.tracks self)) ->
      NoDup (PyDict.keys (RadarD.tracks self'))).
Proof.
  cbv zeta. rewrite update_tracks_kept. unfold RadarD.update_tracks. simpl.
  split.
  - intro id. rewrite upsert_keys, evict_keys, collect_points_keys. tauto.
  - intro H. apply upsert_NoDup. rewrite evict_filter.
    apply filter_keys_NoDup. exact H.
Qed.

(** ** Minimum, maximum and sorting *)

Section BuiltinFacts.
Variable A : Type.
Variable key : A -> Q.

Lemma min_from_In (l : list A) :
  forall best, In (min_from key best l) (best :: l).
Proof.
  induction l as [|a l IH]; intro best; simpl.
  - left. reflexivity.
  - destruct (IH (if key a <? key best then a else best)) as [H|H].
    + destruct (key a <? key best); rewrite <- H; auto.
    + right. right. exact H.
Qed.

Lemma min_from_le_best (l : list A) :
  forall best, key (min_from key best l) <= key best.
Proof.
  induction l as [|a l IH]; intro best; simpl.
  - apply Qle_refl.
  - destruct (key a <? key best) eqn:E; cmp_to_prop.
    + apply Qle_trans with (key a); [apply IH | apply Qlt_le_weak, E].
    + apply IH.
Qed.

Lemma min_from_le (l : list A) :
  forall best x, In x (best :: l) -> key (min_from key best l) <= key x.
Proof.
  induction l as [|a l IH]; intros best x Hx; simpl.
  - destruct Hx as [<-|[]]. apply Qle_refl.
  - destruct Hx as [Hb|[Ha|Hx]].
    + subst x. destruct (key a <? key best) eqn:E; cmp_to_prop.
      * apply Qle_trans with (key a);
          [apply min_from_le_best | apply Qlt_le_weak, E].
      * apply min_from_le_best.
    + subst x. destruct (key a <? key best) eqn:E; cmp_to_prop.
      * apply min_from_le_best.
      * apply Qle_trans with (key best); [apply min_from_le_best | exact E].
    + apply IH. right. exact Hx.
Qed.

Lemma max_from_In (l : list A) :
  forall best, In (max_from key best l) (best :: l).
Proof.
  induction l as [|a l IH]; intro best; simpl.
  - left. reflexivity.
  - destruct (IH (if key best <? key a then a else best)) as [H|H].
    + destruct (key best <? key a); rewrite <- H; auto.
    + right. right. exact H.
Qed.

End BuiltinFacts.

(** ** The lead selector *)

Section LeadSelector.
Context {ext : Externals}.

Lemma potential_low_speed_lead_spec (c : Track.t) (vEgo : Q) :
  Track.potential_low_speed_lead c vEgo = true <-> qualifies vEgo c.
Proof.
  unfold Track.potential_low_speed_lead, qualifies, V_EGO_STATIONARY.
  rewrite !andb_true_iff, !Qltb_lt. tauto.
Qed.

Lemma low_speed_tracks_In (vEgo : Q) (tracks : Tracks) (c : Track.t) :
  In c (low_speed_tracks vEgo tracks)
  <-> In c (PyDict.values tracks) /\ qualifies vEgo c.
Proof.
  unfold low_speed_tracks. rewrite filter_In, potential_low_speed_lead_spec.
  tauto.
Qed.

(** The maximum of an empty collection does not exist. *)
Lemma match_vision_to_track_empty (vEgo : Q) (L : LeadMsg.t) :
  match_vision_to_track vEgo L (PyDict.empty Z Track.t) = Raise ValueError.
Proof. reflexivity. Qed.

Lemma match_vision_to_track_returns (vEgo : Q) (L : LeadMsg.t)
  (tracks : Tracks) :
  (0 <? PyDict.len tracks)%nat = true ->
  exists o,
    match_vision_to_track vEgo L tracks = Ok o
    /\ forall t, o = Some t -> In t (PyDict.values tracks).
Proof.
  intro H. unfold match_vision_to_track.
  destruct tracks as [|[k t] tracks]; [discriminate H|].
  simpl PyDict.values. simpl py_max. simpl bind.
  set (best := max_from (match_prob vEgo L) t (map snd tracks)).
  assert (Hin : In best (t :: map snd tracks)) by apply max_from_In.
  match goal with |- context [if ?c then _ else _] => destruct c end.
  - exists (Some best). split; [reflexivity|]. intros ? [= <-]. exact Hin.
  - exists None. split; [reflexivity|]. discriminate.
Qed.

Lemma get_lead_vision_returns (vEgo : Q) (ready : bool) (tracks : Tracks)
  (L : LeadMsg.t) (vEgoModel : Q) (m : Z) :
  exists d, get_lead_vision vEgo ready tracks L vEgoModel m = Ok d
            /\ selected d.
Proof.
  unfold get_lead_vision, selected.
  destruct ((0 <? PyDict.len tracks)%nat) eqn:Elen;
    destruct ready; destruct (0.5 <? LeadMsg.prob L); simpl;
    try (eexists; split; [reflexivity|];
         first [left; reflexivity | right; eexists; split; reflexivity]).
  destruct (match_vision_to_track_returns vEgo L tracks Elen)
    as [[t|] [-> _]]; simpl;
    eexists; (split; [reflexivity|]); right; eexists; split; reflexivity.
Qed.

(** The test of the override on a dictionary the first part has built:
    [dRel] is read from a full record only. *)
Lemma closer_returns (d : LeadDict) (x : Q) :
  selected d ->
  exists b,
    or_else (s <- dict_status d ;; Ok (negb s))
            (dd <- dict_dRel d ;; Ok (x <? dd)) = Ok b
    /\ (b = true <->
        dict_status d = Ok false
        \/ exists dd, dict_dRel d = Ok dd /\ x < dd).
Proof.
  intros [->|[r [-> Hs]]]; simpl.
  - exists true. split; [reflexivity|]. split; auto.
  - rewrite Hs. simpl. exists (x <? Lead.dRel r). split; [reflexivity|].
    rewrite Qltb_lt. split.
    + intro H. right. exists (Lead.dRel r). auto.
    + intros [[=]|[dd [[= <-] H]]]; exact H.
Qed.

End LeadSelector.

Section LowSpeedOverride.
Context {ext : Externals}.

Lemma get_lead_low_speed_none (vEgo : Q) (tracks : Tracks) (L : LeadMsg.t)
  (m : Z) (d : LeadDict) :
  low_speed_tracks vEgo tracks = [] ->
  get_lead_low_speed vEgo tracks L m d = Ok d.
Proof.
  intro H. unfold get_lead_low_speed. rewrite H. reflexivity.
Qed.

Lemma get_lead_low_speed_some (vEgo : Q) (tracks : Tracks) (L : LeadMsg.t)
  (m : Z) (d : LeadDict) (c0 : Track.t) (rest : list Track.t) :
  low_speed_tracks vEgo tracks = c0 :: rest ->
  selected d ->
  let closest := min_from Track.dRel c0 rest in
  exists b : bool,
    get_lead_low_speed vEgo tracks L m d
    = Ok (if b then Fields (Track.get_RadarState2 closest (LeadMsg.prob L) L m)
          else d)
    /\ (b = true <->
        dict_status d = Ok false
        \/ exists dd, dict_dRel d = Ok dd /\ Track.dRel closest < dd).
Proof.
  intros H Hd closest. unfold get_lead_low_speed. rewrite H.
  simpl length. simpl Nat.ltb. cbv iota. simpl py_min.
  fold closest.
  destruct (closer_returns (Track.dRel closest) Hd) as [b [Hb Hiff]].
  exists b. split; [|exact Hiff].
  unfold bind at 1. unfold bind at 1. rewrite Hb. destruct b; reflexivity.
Qed.

End LowSpeedOverride.

(** C9: the lead selector is total.  Association takes a maximum, which
    raises on an empty track map, and [dRel] is missing from the bare
    [{'status': False}]; the selector reaches neither: it returns a record
    for every track map (the empty one too), readiness flag, hypothesis and
    flags. *)
Theorem get_lead_total (ext : Externals) (vEgo : Q) (ready : bool)
  (tracks : Tracks) (L : LeadMsg.t) (vEgoModel : Q)
  (low_speed_override : bool) (m : Z) :
  (exists d,
      get_lead vEgo ready tracks L vEgoModel low_speed_override m = Ok d
      /\ selected d)
  /\ match_vision_to_track vEgo L (PyDict.empty Z Track.t) = Raise ValueError
  /\ dict_dRel (StatusOnly false) = Raise KeyError
  /\ returns (get_lead vEgo ready (PyDict.empty Z Track.t) L vEgoModel
                low_speed_override m)
  /\ returns (get_lead_low_speed vEgo tracks L m (StatusOnly false)).
Proof.
  assert (Hlow : forall d, selected d ->
            exists d', get_lead_low_speed vEgo tracks L m d = Ok d'
                       /\ selected d').
  { intros d Hd. destruct (low_speed_tracks vEgo tracks) as [|c0 rest] eqn:E.
    - exists d. split; [apply get_lead_low_speed_none; exact E | exact Hd].
    - destruct (@get_lead_low_speed_some ext vEgo tracks L m d c0 rest E Hd)
        as [b [Hb _]].
      rewrite Hb. destruct b.
      + eexists. split; [reflexivity|]. right. eexists. split; reflexivity.
      + exists d. split; [reflexivity | exact Hd]. }
  split; [|split; [reflexivity | split; [reflexivity | split]]].
  - unfold get_lead.
    destruct (get_lead_vision_returns vEgo ready tracks L vEgoModel m)
      as [d [-> Hd]].
    simpl bind. destruct low_speed_override.
    + apply Hlow. exact Hd.
    + exists d. split; [reflexivity | exact Hd].
  - unfold get_lead, get_lead_vision. simpl.
    destruct (ready && (0.5 <? LeadMsg.prob L)); simpl;
      destruct low_speed_override; eexists; reflexivity.
  - destruct (Hlow (StatusOnly false)) as [d' [H _]]; [left; reflexivity|].
    exists d'. exact H.
Qed.

(** C2: with the override on, let [d0] be the record chosen from the vision
    hypothesis.  If no track satisfies [potentialLowSpeedLead(vEgo)], the
    selector returns [d0].  Otherwise there is a qualifying track [closest]
    whose [dRel] is least among the qualifying ones, and the selector
    returns the projected record of [closest] if [d0] has [status = false]
    or [closest.dRel < d0.dRel], and [d0] if not. *)
Theorem low_speed_override_selects (ext : Externals) (vEgo : Q) (ready : bool)
  (tracks : Tracks) (L : LeadMsg.t) (vEgoModel : Q) (m : Z) :
  exists d0,
    get_lead vEgo ready tracks L vEgoModel false m = Ok d0
    /\ ((forall c, In c (PyDict.values tracks) -> ~ qualifies vEgo c) ->
        get_lead vEgo ready tracks L vEgoModel true m = Ok d0)
    /\ ((exists c, In c (PyDict.values tracks) /\ qualifies vEgo c) ->
        exists closest,
          In closest (PyDict.values tracks)
          /\ qualifies vEgo closest
          /\ (forall c, In c (PyDict.values tracks) -> qualifies vEgo c ->
                        Track.dRel closest <= Track.dRel c)
          /\ let closer :=
               dict_status d0 = Ok false
               \/ exists d, dict_dRel d0 = Ok d /\ Track.dRel closest < d in
             (closer ->
              get_lead vEgo ready tracks L vEgoModel true m
              = Ok (Fields (Track.get_RadarState2 closest (LeadMsg.prob L)
                              L m)))
             /\ (~ closer ->
                 get_lead vEgo ready tracks L vEgoModel true m = Ok d0)).
Proof.
  unfold get_lead.
  destruct (get_lead_vision_returns vEgo ready tracks L vEgoModel m)
    as [d0 [-> Hd0]].
  exists d0. simpl bind. split; [reflexivity|]. split.
  - intro Hnone. apply get_lead_low_speed_none.
    destruct (low_speed_tracks vEgo tracks) as [|c rest] eqn:E; [reflexivity|].
    exfalso. assert (Hc : In c (low_speed_tracks vEgo tracks))
      by (rewrite E; left; reflexivity).
    apply low_speed_tracks_In in Hc as [Hin Hq]. exact (Hnone c Hin Hq).
  - intros [c [Hin Hq]].
    destruct (low_speed_tracks vEgo tracks) as [|c0 rest] eqn:E.
    + exfalso. assert (Hc : In c (low_speed_tracks vEgo tracks))
        by (apply low_speed_tracks_In; auto).
      rewrite E in Hc. exact Hc.
    + set (closest := min_from Track.dRel c0 rest).
      assert (Hcl : In closest (low_speed_tracks vEgo tracks))
        by (rewrite E; apply min_from_In).
      apply low_speed_tracks_In in Hcl as [Hcl1 Hcl2].
      exists closest. split; [exact Hcl1|]. split; [exact Hcl2|]. split.
      * intros c' Hin' Hq'. apply min_from_le. rewrite <- E.
        apply low_speed_tracks_In. auto.
      * cbv zeta.
        destruct (@get_lead_low_speed_some ext vEgo tracks L m d0 c0 rest E Hd0)
          as [b [Hb Hiff]].
        fold closest in Hb, Hiff. rewrite Hb. split.
        -- intro Hc. apply Hiff in Hc. rewrite Hc. reflexivity.
        -- intro Hc. destruct b; [|reflexivity].
           exfalso. apply Hc, Hiff. reflexivity.
Qed.

(** ** Sorting *)

Section SortFacts.
Variable A : Type.
Variable key : A -> Q.

Lemma insert_sorted_perm (a : A) (l : list A) :
  Permutation (insert_sorted key a l) (a :: l).
Proof.
  induction l as [|b l IH]; simpl.
  - apply Permutation_refl.
  - destruct (key a <=? key b).
    + apply Permutation_refl.
    + apply Permutation_trans with (b :: a :: l).
      * apply perm_skip. exact IH.
      * apply perm_swap.
Qed.

Lemma sorted_perm (l : list A) : Permutation (sorted key l) l.
Proof.
  induction l as [|a l IH]; simpl.
  - apply perm_nil.
  - apply Permutation_trans with (a :: sorted key l).
    + apply insert_sorted_perm.
    + apply perm_skip. exact IH.
Qed.

Lemma sorted_In (l : list A) (a : A) : In a (sorted key l) <-> In a l.
Proof.
  split; apply Permutation_in;
    [apply sorted_perm | apply Permutation_sym, sorted_perm].
Qed.

Lemma insert_sorted_ordered (a : A) (l : list A) :
  StronglySorted (key_le key) l -> StronglySorted (key_le key) (insert_sorted key a l).
Proof.
  induction l as [|b l IH]; simpl; intro H.
  - constructor; [constructor | constructor].
  - inversion H as [|? ? Hl Hb]; subst.
    destruct (key a <=? key b) eqn:E; cmp_to_prop.
    + constructor; [exact H|].
      constructor; [exact E|].
      rewrite Forall_forall in Hb |- *. intros x Hx.
      unfold key_le in *. apply Qle_trans with (key b); auto.
    + constructor; [apply IH; exact Hl|].
      rewrite Forall_forall in Hb |- *. intros x Hx.
      apply (Permutation_in _ (insert_sorted_perm a l)) in Hx.
      destruct Hx as [<-|Hx]; [|auto].
      unfold key_le. apply Qlt_le_weak. exact E.
Qed.

Lemma sorted_ordered (l : list A) : StronglySorted (key_le key) (sorted key l).
Proof.
  induction l as [|a l IH]; simpl.
  - constructor.
  - apply insert_sorted_ordered. exact IH.
Qed.

End SortFacts.

Lemma insert_sorted_map (A B : Type) (f : A -> B) (key : B -> Q) (a : A)
  (l : list A) :
  insert_sorted key (f a) (map f l)
  = map f (insert_sorted (fun x => key (f x)) a l).
Proof.
  induction l as [|b l IH]; simpl.
  - reflexivity.
  - destruct (key (f a) <=? key (f b)); simpl; [reflexivity|].
    rewrite IH. reflexivity.
Qed.

Lemma sorted_map (A B : Type) (f : A -> B) (key : B -> Q) (l : list A) :
  sorted key (map f l) = map f (sorted (fun x => key (f x)) l).
Proof.
  induction l as [|a l IH]; simpl.
  - reflexivity.
  - rewrite IH. apply insert_sorted_map.
Qed.

(** ** Dictionaries whose keys are compared by an equivalence

    Keys that are numbers are compared by their value ([Qeq_bool]), not by
    their representation. *)

Section KeyedDict.
Variables (K V : Type) (keq : K -> K -> bool).
Hypothesis keq_refl' : forall a, keq a a = true.
Hypothesis keq_sym : forall a b, keq a b = true -> keq b a = true.
Hypothesis keq_trans :
  forall a b c, keq a b = true -> keq b c = true -> keq a c = true.

Lemma keq_left (a b c : K) : keq a b = true -> keq a c = keq b c.
Proof.
  intro H. destruct (keq b c) eqn:E.
  - eapply keq_trans; eassumption.
  - destruct (keq a c) eqn:E'; [|reflexivity].
    rewrite (keq_trans (keq_sym H) E') in E. discriminate.
Qed.

Lemma get_set (d : PyDict.t K V) (k k' : K) (v : V) :
  PyDict.get keq (PyDict.set keq d k v) k'
  = if keq k k' then Some v else PyDict.get keq d k'.
Proof.
  induction d as [|[k0 v0] d IH]; simpl.
  - reflexivity.
  - destruct (keq k0 k) eqn:E; simpl.
    + rewrite (keq_left k' E). destruct (keq k k'); reflexivity.
    + rewrite IH. destruct (keq k0 k') eqn:E0; [|reflexivity].
      destruct (keq k k') eqn:E1; [|reflexivity].
      rewrite (keq_trans E0 (keq_sym E1)) in E. discriminate.
Qed.

Lemma In_set (d : PyDict.t K V) (k : K) (v : V) (p : K * V) :
  In p (PyDict.set keq d k v) ->
  In p d \/ (snd p = v /\ keq (fst p) k = true).
Proof.
  induction d as [|[k0 v0] d IH]; simpl.
  - intros [<-|[]]. right. simpl. auto.
  - destruct (keq k0 k) eqn:E; simpl.
    + intros [<-|H]; [right; simpl; auto | left; right; exact H].
    + intros [<-|H]; [left; left; reflexivity|].
      destruct (IH H) as [H'|H']; [left; right; exact H' | right; exact H'].
Qed.

Lemma distinct_keys_set (d : PyDict.t K V) (k : K) (v : V) :
  distinct_keys keq d -> distinct_keys keq (PyDict.set keq d k v).
Proof.
  induction d as [|[k0 v0] d IH]; simpl.
  - intros _. split; [intros p []|exact I].
  - intros [Hk Hd]. destruct (keq k0 k) eqn:E; simpl.
    + split; assumption.
    + split; [|apply IH; exact Hd].
      intros p Hp. apply In_set in Hp as [Hp|[_ Hp]]; [apply Hk; exact Hp|].
      destruct (keq k0 (fst p)) eqn:E'; [|reflexivity].
      rewrite (keq_trans E' Hp) in E. discriminate.
Qed.

Lemma distinct_keys_get (d : PyDict.t K V) (k : K) (v : V) :
  distinct_keys keq d -> In (k, v) d -> PyDict.get keq d k = Some v.
Proof.
  induction d as [|[k0 v0] d IH]; simpl.
  - intros _ [].
  - intros [Hk Hd] [[= -> ->]|H].
    + rewrite keq_refl'. reflexivity.
    + pose proof (Hk _ H) as E. simpl in E. rewrite E. apply IH; assumption.
Qed.

Lemma get_In (d : PyDict.t K V) (k : K) (v : V) :
  PyDict.get keq d k = Some v ->
  exists k', In (k', v) d /\ keq k' k = true.
Proof.
  induction d as [|[k0 v0] d IH]; simpl.
  - discriminate.
  - destruct (keq k0 k) eqn:E.
    + intros [= ->]. exists k0. auto.
    + intro H. destruct (IH H) as [k' [Hin Hk]]. exists k'. auto.
Qed.

Variable key : V -> K.
Variable take : V -> bool.

Lemma get_store_some (vs : list V) :
  forall (d : PyDict.t K V) (k : K),
    PyDict.get keq (fold_left (store_some keq key take) vs d) k
    = match last_stored keq key take k vs with
      | Some v => Some v
      | None => PyDict.get keq d k
      end.
Proof.
  induction vs as [|v vs IH]; intros d k; simpl.
  - reflexivity.
  - rewrite IH. destruct (last_stored keq key take k vs); [reflexivity|].
    unfold store_some. destruct (take v); simpl; [|reflexivity].
    rewrite get_set. destruct (keq (key v) k); reflexivity.
Qed.

Lemma store_some_distinct (vs : list V) :
  forall d, distinct_keys keq d ->
            distinct_keys keq (fold_left (store_some keq key take) vs d).
Proof.
  induction vs as [|v vs IH]; intros d H; simpl; [exact H|].
  apply IH. unfold store_some. destruct (take v); [|exact H].
  apply distinct_keys_set. exact H.
Qed.

(** Every entry is stored under the key of its value, and is taken. *)
Lemma store_some_keyed (vs : list V) :
  forall d,
    (forall p, In p d -> keq (fst p) (key (snd p)) = true /\ take (snd p) = true) ->
    forall p, In p (fold_left (store_some keq key take) vs d) ->
              keq (fst p) (key (snd p)) = true /\ take (snd p) = true.
Proof.
  induction vs as [|v vs IH]; intros d H; simpl; [exact H|].
  apply IH. unfold store_some. destruct (take v) eqn:E; [|exact H].
  intros p Hp. apply In_set in Hp as [Hp|[Hv Hk]]; [apply H; exact Hp|].
  rewrite Hv. auto.
Qed.

(** What [last_stored] finds: a value after which no value is stored under
    the same key. *)
Lemma last_stored_Some (k : K) (vs : list V) (v : V) :
  last_stored keq key take k vs = Some v <->
  exists vs1 vs2,
    vs = vs1 ++ v :: vs2
    /\ take v = true /\ keq (key v) k = true
    /\ forall v', In v' vs2 -> take v' && keq (key v') k = false.
Proof.
  revert v. induction vs as [|a vs IH]; intro v; simpl.
  - split; [discriminate|]. intros [vs1 [vs2 [H _]]].
    destruct vs1; discriminate H.
  - destruct (last_stored keq key take k vs) as [w|] eqn:E.
    + split.
      * intros [= ->]. destruct (proj1 (IH v) eq_refl)
          as [vs1 [vs2 [-> [Ht [Hk Hl]]]]].
        exists (a :: vs1), vs2. auto.
      * intros [vs1 [vs2 [Hvs [Ht [Hk Hl]]]]].
        destruct vs1 as [|b vs1]; simpl in Hvs; injection Hvs as -> ->.
        -- assert (Hw : In w vs2).
           { destruct (proj1 (IH w) eq_refl) as [l1 [l2 [-> _]]].
             apply in_or_app. right. left. reflexivity. }
           destruct (proj1 (IH w) eq_refl) as [l1 [l2 [_ [Ht' [Hk' _]]]]].
           specialize (Hl w Hw). rewrite Ht', Hk' in Hl. discriminate.
        -- f_equal. symmetry.
           assert (Hv : Some w = Some v); [|injection Hv; auto].
           apply IH. exists vs1, vs2. auto.
    + split.
      * destruct (take a && keq (key a) k) eqn:Ea; [|discriminate].
        intros [= ->]. apply andb_true_iff in Ea as [Ht Hk].
        exists [], vs. repeat split; auto.
        intros v' Hv'. destruct (take v' && keq (key v') k) eqn:E'; [|reflexivity].
        exfalso. apply andb_true_iff in E' as [Ht' Hk'].
        apply in_split in Hv' as [l1 [l2 ->]].
        clear - E Ht' Hk'. revert E. induction l1 as [|b l1 IHl]; simpl.
        -- destruct (last_stored keq key take k l2); [discriminate|].
           rewrite Ht', Hk'. discriminate.
        -- destruct (last_stored keq key take k (l1 ++ v' :: l2)); [discriminate|].
           intros _. apply IHl. reflexivity.
      * intros [vs1 [vs2 [Hvs [Ht [Hk Hl]]]]].
        destruct vs1 as [|b vs1]; simpl in Hvs; injection Hvs as -> ->.
        -- rewrite Ht, Hk. reflexivity.
        -- exfalso. assert (Hv : None = Some v); [|discriminate Hv].
           apply IH. exists vs1, vs2. auto.
Qed.

End KeyedDict.

(** ** Path classification *)

Lemma corridor_eqb_eq (a b : Corridor) : corridor_eqb a b = true <-> a = b.
Proof. destruct a, b; simpl; split; congruence. Qed.

Lemma in_order_map (A B : Type) (R : A -> A -> Prop) (R' : B -> B -> Prop)
  (f : A -> B) (l : list A) :
  (forall a b, In a l -> In b l -> R a b -> R' (f a) (f b)) ->
  StronglySorted R l -> StronglySorted R' (map f l).
Proof.
  induction l as [|a l IH]; intros H Hs; simpl.
  - constructor.
  - inversion Hs as [|? ? Hl Ha]; subst. constructor.
    + apply IH; [|exact Hl]. intros x y Hx Hy. apply H; right; assumption.
    + rewrite Forall_forall in Ha |- *. intros y Hy.
      apply in_map_iff in Hy as [x [<- Hx]].
      apply H; [left; reflexivity | right; exact Hx | apply Ha; exact Hx].
Qed.

Lemma set_length (d : PyDict.t Q PathLead.t) (k : Q) (v : PathLead.t) :
  (length (PyDict.set Qeq_bool d k v) <= S (length d))%nat.
Proof.
  induction d as [|[k0 v0] d IH]; simpl; [lia|].
  destruct (Qeq_bool k0 k); simpl; lia.
Qed.

Section Classification.
Context {ext : Externals}.

Lemma corridor_cases (h : Q) (ld : PathLead.t) :
  let center := Qabs (PathLead.dPath ld) < h
                /\ -1 < Lead.vLeadK (PathLead.lead ld) in
  (center /\ corridor h ld = CenterCorridor)
  \/ (~ center /\ PathLead.dPath ld < 0 /\ corridor h ld = LeftCorridor)
  \/ (~ center /\ ~ PathLead.dPath ld < 0
      /\ corridor h ld = RightCorridor).
Proof.
  cbv zeta. unfold corridor.
  destruct (Qabs (PathLead.dPath ld) <? h) eqn:E1;
    destruct (-1 <? Lead.vLeadK (PathLead.lead ld)) eqn:E2;
    simpl andb; cbv iota.
  1: { left. cmp_to_prop. auto. }
  all: assert (Hn : ~ (Qabs (PathLead.dPath ld) < h
                       /\ -1 < Lead.vLeadK (PathLead.lead ld)))
         by (cmp_to_prop; intros [H1 H2];
             first [exact (Qlt_not_le _ _ H1 E1) | exact (Qlt_not_le _ _ H2 E2)]).
  all: destruct (PathLead.dPath ld <? 0) eqn:E3; cmp_to_prop;
       [right; left; auto | right; right].
  all: split; [exact Hn|]; split; [|reflexivity];
       intro H; exact (Qlt_not_le _ _ H E3).
Qed.

Lemma corridor_center (h : Q) (ld : PathLead.t) :
  corridor h ld = CenterCorridor
  <-> Qabs (PathLead.dPath ld) < h /\ -1 < Lead.vLeadK (PathLead.lead ld).
Proof.
  destruct (corridor_cases h ld) as [[H ->]|[[H [_ ->]]|[H [_ ->]]]];
    split; try discriminate; try tauto.
Qed.

Lemma corridor_left (h : Q) (ld : PathLead.t) :
  corridor h ld = LeftCorridor
  <-> ~ (Qabs (PathLead.dPath ld) < h /\ -1 < Lead.vLeadK (PathLead.lead ld))
      /\ PathLead.dPath ld < 0.
Proof.
  destruct (corridor_cases h ld) as [[H ->]|[[H [H' ->]]|[H [H' ->]]]];
    split; try discriminate; try tauto.
Qed.

Lemma corridor_right (h : Q) (ld : PathLead.t) :
  corridor h ld = RightCorridor
  <-> ~ (Qabs (PathLead.dPath ld) < h /\ -1 < Lead.vLeadK (PathLead.lead ld))
      /\ ~ PathLead.dPath ld < 0.
Proof.
  destruct (corridor_cases h ld) as [[H ->]|[[H [H' ->]]|[H [H' ->]]]];
    split; try discriminate; try tauto.
Qed.

Lemma store_leads_of (h : Q) (s : PathState.t) (ld : PathLead.t)
  (X : Corridor) :
  leads_of (store h s ld) X
  = store_some Qeq_bool path_key (in_corridor h X) (leads_of s X) ld.
Proof.
  unfold store, store_some, in_corridor.
  destruct (corridor h ld), X; reflexivity.
Qed.

Lemma fold_store_leads_of (h : Q) (lds : list PathLead.t) :
  forall (s : PathState.t) (X : Corridor),
    leads_of (fold_left (store h) lds s) X
    = fold_left (store_some Qeq_bool path_key (in_corridor h X)) lds
        (leads_of s X).
Proof.
  induction lds as [|ld lds IH]; intros s X; simpl.
  - reflexivity.
  - rewrite IH, store_leads_of. reflexivity.
Qed.

Lemma for_each_classify (md : option ModelV2.t) (mix : Z) (env : PathEnv.t)
  (h : Q) (cs : list Track.t) :
  forall s s',
    for_each (classify_track md mix env h) cs s = Ok s' ->
    exists lds,
      Forall2 (fun c ld => track_lead md mix env c = Ok ld) cs lds
      /\ s' = fold_left (store h) lds s.
Proof.
  induction cs as [|c cs IH]; intros s s' H; simpl in H.
  - injection H as <-. exists []. split; [constructor | reflexivity].
  - unfold classify_track at 1 in H.
    destruct (track_lead md mix env c) as [ld|e] eqn:E; simpl in H;
      [|discriminate H].
    destruct (IH _ _ H) as [lds [HF ->]].
    exists (ld :: lds). split; [constructor; assumption | reflexivity].
Qed.

Lemma lookup_each (d : PyDict.t Q PathLead.t) (es : list (Q * PathLead.t)) :
  forall acc,
    (forall e, In e es -> PyDict.get Qeq_bool d (fst e) = Some (snd e)) ->
    for_each (fun acc k => v <- PyDict.lookup Qeq_bool d k ;; Ok (acc ++ [v]))
      (map fst es) acc
    = Ok (acc ++ map snd es).
Proof.
  induction es as [|e es IH]; intros acc H; simpl.
  - rewrite app_nil_r. reflexivity.
  - unfold PyDict.lookup at 1. rewrite (H e (or_introl eq_refl)). simpl.
    rewrite IH by (intros e' He'; apply H; right; exact He').
    rewrite <- app_assoc. reflexivity.
Qed.

(** With distinct keys, the list read in the order of the keys is the list
    of the values of the entries, sorted by their key. *)
Lemma by_sorted_keys_values (d : PyDict.t Q PathLead.t) :
  distinct_keys Qeq_bool d ->
  by_sorted_keys d = Ok (PyDict.values (sorted (fun p => fst p) d)).
Proof.
  intro Hd. unfold by_sorted_keys, PyDict.keys.
  rewrite (sorted_map (@fst Q PathLead.t) (fun k => k) d).
  rewrite lookup_each; [reflexivity|].
  intros [k v] He. apply sorted_In in He. simpl.
  apply distinct_keys_get; auto using Qeq_bool_refl, Qeq_bool_sym.
Qed.

End Classification.

Section CorridorDict.
Context {ext : Externals}.
Variables (h : Q) (X : Corridor).

Lemma corridor_dict_distinct (lds : list PathLead.t) :
  distinct_keys Qeq_bool (corridor_dict h X lds).
Proof.
  apply store_some_distinct.
  - exact Qeq_bool_refl.
  - exact Qeq_bool_trans.
  - exact I.
Qed.

Lemma corridor_dict_keyed (lds : list PathLead.t) (k : Q) (ld : PathLead.t) :
  In (k, ld) (corridor_dict h X lds) ->
  k == path_key ld /\ corridor h ld = X.
Proof.
  intro H.
  destruct (store_some_keyed Qeq_bool Qeq_bool_refl path_key
              (in_corridor h X) lds [] (fun p (F : In p []) => match F with end)
              (k, ld) H) as [Hk Ht].
  simpl in Hk, Ht. split.
  - apply Qeq_bool_iff. exact Hk.
  - apply corridor_eqb_eq. exact Ht.
Qed.

Lemma corridor_dict_get (lds : list PathLead.t) (k : Q) :
  PyDict.get Qeq_bool (corridor_dict h X lds) k
  = last_stored Qeq_bool path_key (in_corridor h X) k lds.
Proof.
  unfold corridor_dict.
  rewrite (get_store_some Qeq_bool Qeq_bool_sym Qeq_bool_trans). simpl.
  destruct (last_stored Qeq_bool path_key (in_corridor h X) k lds);
    reflexivity.
Qed.

(** The values of the dictionary: of the records of a corridor that have a
    given [|dPath|], the one stored last. *)
Lemma corridor_dict_values (lds : list PathLead.t) (ld : PathLead.t) :
  In ld (PyDict.values (corridor_dict h X lds))
  <-> last_of_its_key h X lds ld.
Proof.
  unfold PyDict.values. rewrite in_map_iff. split.
  - intros [[k v] [Hv Hin]]. simpl in Hv. subst v.
    pose proof (distinct_keys_get Qeq_bool Qeq_bool_refl _ k ld
                  (corridor_dict_distinct lds) Hin) as Hget.
    rewrite corridor_dict_get in Hget.
    apply last_stored_Some in Hget as [l1 [l2 [-> [Ht [Hk Hl]]]]].
    exists l1, l2. split; [reflexivity|]. split.
    + apply corridor_eqb_eq. exact Ht.
    + intros ld' Hin' [Hc Hq]. specialize (Hl ld' Hin').
      apply andb_false_iff in Hl as [Hl|Hl].
      * unfold in_corridor in Hl. rewrite Hc in Hl.
        destruct X; discriminate Hl.
      * apply Qeq_bool_iff in Hk. rewrite <- Hq in Hk.
        apply Qeq_bool_iff in Hk. rewrite Hk in Hl. discriminate Hl.
  - intros [l1 [l2 [-> [Hc Hl]]]].
    assert (Hget : PyDict.get Qeq_bool
                     (corridor_dict h X (l1 ++ ld :: l2)) (path_key ld)
                   = Some ld).
    { rewrite corridor_dict_get. apply last_stored_Some.
      exists l1, l2. split; [reflexivity|]. split; [|split].
      - apply corridor_eqb_eq. exact Hc.
      - apply Qeq_bool_refl.
      - intros ld' Hin'.
        destruct (in_corridor h X ld') eqn:E1; [|reflexivity].
        destruct (Qeq_bool (path_key ld') (path_key ld)) eqn:E2; [|reflexivity].
        exfalso. apply (Hl ld' Hin'). split.
        + apply corridor_eqb_eq. exact E1.
        + apply Qeq_bool_iff. exact E2. }
    apply get_In in Hget as [k' [Hin _]].
    exists (k', ld). split; [reflexivity | exact Hin].
Qed.

(** Two records of the dictionary with the same [|dPath|] are one. *)
Lemma corridor_dict_one_per_key (lds : list PathLead.t) (a b : PathLead.t) :
  In a (PyDict.values (corridor_dict h X lds)) ->
  In b (PyDict.values (corridor_dict h X lds)) ->
  path_key a == path_key b ->
  a = b.
Proof.
  unfold PyDict.values. rewrite !in_map_iff.
  intros [[ka va] [Ea Ha]] [[kb vb] [Eb Hb]] Hq. simpl in Ea, Eb. subst va vb.
  pose proof (distinct_keys_get Qeq_bool Qeq_bool_refl _ ka a
                (corridor_dict_distinct lds) Ha) as Ga.
  pose proof (distinct_keys_get Qeq_bool Qeq_bool_refl _ kb b
                (corridor_dict_distinct lds) Hb) as Gb.
  rewrite corridor_dict_get in Ga, Gb.
  apply corridor_dict_keyed in Ha as [Ka _].
  apply corridor_dict_keyed in Hb as [Kb _].
  assert (E : last_stored Qeq_bool path_key (in_corridor h X) ka lds
              = last_stored Qeq_bool path_key (in_corridor h X) kb lds).
  { assert (Hkk : ka == kb) by (rewrite Ka, Kb; exact Hq).
    clear - Hkk. induction lds as [|v vs IH]; simpl; [reflexivity|].
    rewrite IH.
    assert (Hb : Qeq_bool (path_key v) ka = Qeq_bool (path_key v) kb).
    { destruct (Qeq_bool (path_key v) kb) eqn:E.
      - apply Qeq_bool_iff. apply Qeq_bool_iff in E. rewrite Hkk. exact E.
      - destruct (Qeq_bool (path_key v) ka) eqn:E'; [|reflexivity].
        apply Qeq_bool_iff in E'. rewrite Hkk in E'.
        apply Qeq_bool_iff in E'. congruence. }
    rewrite Hb. reflexivity. }
  congruence.
Qed.

End CorridorDict.

Section Emitted.
Context {ext : Externals}.

(** The lists [get_path_adjacent_leads] returns for a track map that has
    tracks, in terms of the records [lds] of its tracks. *)
Lemma get_path_adjacent_leads_lists (v_ego : Q) (md : option ModelV2.t)
  (lane_width : Q) (clusters : Tracks) (mix : Z)
  (ll lc lr : list PathLead.t) :
  PyDict.len clusters <> 0%nat ->
  get_path_adjacent_leads v_ego md lane_width clusters mix = Ok (ll, lc, lr) ->
  exists env lds,
    path_env md lane_width = Ok env
    /\ Forall2 (fun c ld => track_lead md mix env c = Ok ld)
         (PyDict.values clusters) lds
    /\ ll = PyDict.values
              (sorted (fun p => fst p)
                 (corridor_dict (lane_width / 2) LeftCorridor lds))
    /\ lc = sorted (fun c => Lead.dRel (PathLead.lead c))
              (PyDict.values
                 (corridor_dict (lane_width / 2) CenterCorridor lds))
    /\ lr = PyDict.values
              (sorted (fun p => fst p)
                 (corridor_dict (lane_width / 2) RightCorridor lds)).
Proof.
  intros Hlen H. unfold get_path_adjacent_leads in H.
  destruct (Nat.eqb_spec (PyDict.len clusters) 0) as [E|_]; [contradiction|].
  destruct (path_env md lane_width) as [env|e]; [|discriminate H].
  simpl bind in H. cbv zeta in H.
  match type of H with
  | bind (for_each ?f ?l ?s0) _ = _ =>
      destruct (for_each f l s0) as [s|e] eqn:Es; [|discriminate H]
  end.
  apply for_each_classify in Es as [lds [HF ->]].
  simpl bind in H.
  pose proof (fun X => fold_store_leads_of (lane_width / 2) lds
                         {| PathState.leads_left := PyDict.empty Q PathLead.t;
                            PathState.leads_center := PyDict.empty Q PathLead.t;
                            PathState.leads_right := PyDict.empty Q PathLead.t |}
                         X) as HX.
  pose proof (HX LeftCorridor) as HL.
  pose proof (HX CenterCorridor) as HC.
  pose proof (HX RightCorridor) as HR.
  simpl leads_of in HL, HC, HR.
  fold (corridor_dict (lane_width / 2) LeftCorridor lds) in HL.
  fold (corridor_dict (lane_width / 2) CenterCorridor lds) in HC.
  fold (corridor_dict (lane_width / 2) RightCorridor lds) in HR.
  rewrite HL, HC, HR in H.
  rewrite !by_sorted_keys_values in H by apply corridor_dict_distinct.
  simpl in H. injection H as <- <- <-.
  exists env, lds. repeat split. exact HF.
Qed.

End Emitted.

Section EmittedFacts.
Context {ext : Externals}.

Lemma values_sorted_In (key : Q * PathLead.t -> Q) (d : PyDict.t Q PathLead.t)
  (ld : PathLead.t) :
  In ld (PyDict.values (sorted key d)) <-> In ld (PyDict.values d).
Proof.
  unfold PyDict.values. rewrite !in_map_iff.
  split; intros [p [Hp Hin]]; exists p; (split; [exact Hp|]);
    apply (sorted_In key d p); exact Hin.
Qed.

Lemma last_stored_covers (h : Q) (lds : list PathLead.t) (ld : PathLead.t) :
  In ld lds ->
  exists ld',
    last_stored Qeq_bool path_key (in_corridor h (corridor h ld))
      (path_key ld) lds = Some ld'.
Proof.
  induction lds as [|a lds IH]; intros Hin; [destruct Hin|]. simpl.
  destruct (last_stored Qeq_bool path_key (in_corridor h (corridor h ld))
              (path_key ld) lds) as [w|] eqn:E.
  - exists w. reflexivity.
  - destruct Hin as [->|Hin].
    + unfold in_corridor at 1.
      rewrite (proj2 (corridor_eqb_eq _ _) eq_refl), Qeq_bool_refl.
      exists ld. reflexivity.
    + destruct (IH Hin) as [w Hw]. discriminate Hw.
Qed.

(** The record of every track has its [|dPath|] in the dictionary of its
    corridor. *)
Lemma corridor_dict_covers (h : Q) (lds : list PathLead.t) (ld : PathLead.t) :
  In ld lds ->
  exists ld',
    In ld' (PyDict.values (corridor_dict h (corridor h ld) lds))
    /\ path_key ld' == path_key ld.
Proof.
  intro Hin. destruct (last_stored_covers h lds ld Hin) as [ld' Hl].
  exists ld'. split.
  - rewrite <- corridor_dict_get in Hl.
    apply get_In in Hl as [k' [Hk _]].
    unfold PyDict.values. apply in_map_iff. exists (k', ld'). auto.
  - apply last_stored_Some in Hl as [_ [_ [_ [_ [Hk _]]]]].
    apply Qeq_bool_iff. exact Hk.
Qed.

Lemma store_total (h : Q) (s : PathState.t) (ld : PathLead.t) :
  (total_leads (store h s ld) <= S (total_leads s))%nat.
Proof.
  unfold store, total_leads.
  destruct (corridor h ld); simpl;
    match goal with
    | |- context [PyDict.set Qeq_bool ?d ?k ?v] =>
        pose proof (set_length d k v)
    end; lia.
Qed.

Lemma fold_store_total (h : Q) (lds : list PathLead.t) :
  forall s,
    (total_leads (fold_left (store h) lds s)
     <= total_leads s + length lds)%nat.
Proof.
  induction lds as [|ld lds IH]; intro s; simpl; [lia|].
  pose proof (IH (store h s ld)). pose proof (store_total h s ld). lia.
Qed.

Lemma corridor_dict_total (h : Q) (lds : list PathLead.t) :
  (length (corridor_dict h LeftCorridor lds)
   + length (corridor_dict h CenterCorridor lds)
   + length (corridor_dict h RightCorridor lds) <= length lds)%nat.
Proof.
  set (s0 := {| PathState.leads_left := PyDict.empty Q PathLead.t;
                PathState.leads_center := PyDict.empty Q PathLead.t;
                PathState.leads_right := PyDict.empty Q PathLead.t |}).
  pose proof (fold_store_total h lds s0) as H.
  unfold total_leads in H.
  change (PathState.leads_left (fold_left (store h) lds s0))
    with (leads_of (fold_left (store h) lds s0) LeftCorridor) in H.
  change (PathState.leads_center (fold_left (store h) lds s0))
    with (leads_of (fold_left (store h) lds s0) CenterCorridor) in H.
  change (PathState.leads_right (fold_left (store h) lds s0))
    with (leads_of (fold_left (store h) lds s0) RightCorridor) in H.
  rewrite !fold_store_leads_of in H. simpl in H. exact H.
Qed.

(** The list returned for a corridor has the values of its dictionary. *)
Lemma emitted_values (h : Q) (lds : list PathLead.t) (X : Corridor)
  (ld : PathLead.t) :
  In ld (emitted
           (PyDict.values (sorted (fun p => fst p)
                             (corridor_dict h LeftCorridor lds)),
            sorted (fun c => Lead.dRel (PathLead.lead c))
              (PyDict.values (corridor_dict h CenterCorridor lds)),
            PyDict.values (sorted (fun p => fst p)
                             (corridor_dict h RightCorridor lds))) X)
  <-> In ld (PyDict.values (corridor_dict h X lds)).
Proof.
  destruct X; simpl.
  - apply values_sorted_In.
  - apply sorted_In.
  - apply values_sorted_In.
Qed.

Lemma values_sorted_by_key (h : Q) (X : Corridor) (lds : list PathLead.t) :
  StronglySorted
    (fun a b => Qabs (PathLead.dPath a) <= Qabs (PathLead.dPath b))
    (PyDict.values (sorted (fun p => fst p) (corridor_dict h X lds))).
Proof.
  unfold PyDict.values.
  apply in_order_map
    with (R := key_le (fun p : Q * PathLead.t => fst p)).
  - intros [ka a] [kb b] Ha Hb Hle. unfold key_le in Hle. simpl in *.
    apply sorted_In in Ha, Hb.
    apply corridor_dict_keyed in Ha as [Ka _].
    apply corridor_dict_keyed in Hb as [Kb _].
    unfold path_key in Ka, Kb. rewrite <- Ka, <- Kb. exact Hle.
  - apply sorted_ordered.
Qed.

End EmittedFacts.

(** C8: the record of a track goes to the center corridor if and only if
    [|dPath| < laneWidth/2] and [vLeadK > -1], otherwise to the left one if
    and only if [dPath < 0], otherwise to the right one.  Every returned
    record is in the list of its corridor, every track has its [|dPath|] in
    the list of its corridor, the left and right lists are sorted by
    ascending [|dPath|] and the center list by ascending [dRel]. *)
Theorem path_classification_corridors (ext : Externals) (v_ego : Q)
  (md : option ModelV2.t) (lane_width : Q) (clusters : Tracks) (mix : Z)
  (ll lc lr : list PathLead.t) :
  get_path_adjacent_leads v_ego md lane_width clusters mix = Ok (ll, lc, lr) ->
  let h := lane_width / 2 in
  let center := fun ld =>
    Qabs (PathLead.dPath ld) < h /\ -1 < Lead.vLeadK (PathLead.lead ld) in
  (forall ld, corridor h ld = CenterCorridor <-> center ld)
  /\ (forall ld, corridor h ld = LeftCorridor
                 <-> ~ center ld /\ PathLead.dPath ld < 0)
  /\ (forall ld, corridor h ld = RightCorridor
                 <-> ~ center ld /\ ~ PathLead.dPath ld < 0)
  /\ (forall X ld, In ld (emitted (ll, lc, lr) X) -> corridor h ld = X)
  /\ (forall c, In c (PyDict.values clusters) ->
        exists env ld,
          path_env md lane_width = Ok env
          /\ track_lead md mix env c = Ok ld
          /\ exists ld', In ld' (emitted (ll, lc, lr) (corridor h ld))
                         /\ Qabs (PathLead.dPath ld')
                            == Qabs (PathLead.dPath ld))
  /\ StronglySorted
       (fun a b => Qabs (PathLead.dPath a) <= Qabs (PathLead.dPath b)) ll
  /\ StronglySorted
       (fun a b => Qabs (PathLead.dPath a) <= Qabs (PathLead.dPath b)) lr
  /\ StronglySorted
       (fun a b => Lead.dRel (PathLead.lead a) <= Lead.dRel (PathLead.lead b))
       lc.
Proof.
  intros H h center.
  split; [exact (corridor_center h)|].
  split; [exact (corridor_left h)|].
  split; [exact (corridor_right h)|].
  destruct (Nat.eq_dec (PyDict.len clusters) 0) as [E|E].
  - unfold get_path_adjacent_leads in H. rewrite E in H. simpl in H.
    injection H as <- <- <-.
    destruct clusters; [|discriminate E].
    split; [intros [] ld []|]. split; [intros c []|].
    repeat split; constructor.
  - destruct (@get_path_adjacent_leads_lists ext v_ego md lane_width clusters mix
                _ _ _ E H)
      as [env [lds [Henv [HF [-> [-> ->]]]]]].
    fold h. split; [|split; [|split; [|split]]].
    + intros X ld Hin. apply emitted_values in Hin.
      apply corridor_dict_values in Hin as [l1 [l2 [_ [Hc _]]]]. exact Hc.
    + intros c Hc.
      assert (Hld : exists ld, In ld lds /\ track_lead md mix env c = Ok ld).
      { clear - HF Hc. induction HF as [|c0 ld0 cs lds0 H0 HF IH].
        - destruct Hc.
        - destruct Hc as [->|Hc].
          + exists ld0. split; [left; reflexivity | exact H0].
          + destruct (IH Hc) as [ld [Hin Hld]]. exists ld. split; [right|]; auto. }
      destruct Hld as [ld [Hin Hld]].
      exists env, ld. split; [exact Henv|]. split; [exact Hld|].
      destruct (corridor_dict_covers h lds ld Hin) as [ld' [Hin' Hk]].
      exists ld'. split; [apply emitted_values; exact Hin' | exact Hk].
    + apply values_sorted_by_key.
    + apply values_sorted_by_key.
    + exact (sorted_ordered (fun c => Lead.dRel (PathLead.lead c)) _).
Qed.

(** C10: for a track map that has tracks, let [lds] be the records of the
    tracks in the order of the loop.  A record is returned for a corridor if
    and only if it belongs to that corridor and no later record of the
    corridor has the same [|dPath|]; no list has two records with the same
    [|dPath|]; and the three lists together have at most as many records as
    there are tracks. *)
Theorem equal_dPath_keeps_last (ext : Externals) (v_ego : Q)
  (md : option ModelV2.t) (lane_width : Q) (clusters : Tracks) (mix : Z)
  (ll lc lr : list PathLead.t) :
  PyDict.len clusters <> 0%nat ->
  get_path_adjacent_leads v_ego md lane_width clusters mix = Ok (ll, lc, lr) ->
  exists env lds,
    path_env md lane_width = Ok env
    /\ Forall2 (fun c ld => track_lead md mix env c = Ok ld)
         (PyDict.values clusters) lds
    /\ (forall X ld,
           In ld (emitted (ll, lc, lr) X)
           <-> last_of_its_key (lane_width / 2) X lds ld)
    /\ (forall X a b,
           In a (emitted (ll, lc, lr) X) -> In b (emitted (ll, lc, lr) X) ->
           Qabs (PathLead.dPath a) == Qabs (PathLead.dPath b) -> a = b)
    /\ (length ll + length lc + length lr <= PyDict.len clusters)%nat.
Proof.
  intros E H.
  destruct (@get_path_adjacent_leads_lists ext v_ego md lane_width clusters mix
                _ _ _ E H)
    as [env [lds [Henv [HF [-> [-> ->]]]]]].
  exists env, lds. split; [exact Henv|]. split; [exact HF|].
  split; [|split].
  - intros X ld. rewrite emitted_values. apply corridor_dict_values.
  - intros X a b Ha Hb Hk. apply emitted_values in Ha, Hb.
    exact (corridor_dict_one_per_key _ _ _ _ _ Ha Hb Hk).
  - pose proof (corridor_dict_total (lane_width / 2) lds) as Ht.
    assert (Hlen : length lds = PyDict.len clusters).
    { apply Forall2_length in HF. unfold PyDict.values in HF.
      rewrite length_map in HF. symmetry. exact HF. }
    unfold PyDict.values. rewrite !length_map.
    rewrite !(Permutation_length (sorted_perm _ _)).
    rewrite length_map. lia.
Qed.

(** ** Scenarios of the path classification *)

(** Scenario 5 of the specification: with [laneWidth = 3.6] and a straight
    path the first track is returned in the center list and the second in
    the right one. *)
Lemma corridor_split_scenario :
  exists ll lc lr,
    get_path_adjacent_leads (ext := Reference.externals) 20
      (Some (path_model 100 0)) 3.6 tracks_corridor_split 0
    = Ok (ll, lc, lr)
    /\ map (fun ld => Lead.radarTrackId (PathLead.lead ld)) ll = []
    /\ map (fun ld => Lead.radarTrackId (PathLead.lead ld)) lc = [1%Z]
    /\ map (fun ld => Lead.radarTrackId (PathLead.lead ld)) lr = [2%Z]
    /\ (forall X ld, In ld (emitted (ll, lc, lr) X) ->
                     corridor (3.6 / 2) ld = X)
    /\ StronglySorted
         (fun a b => Lead.dRel (PathLead.lead a) <= Lead.dRel (PathLead.lead b))
         lc.
Proof.
  do 3 eexists.
  split; [vm_compute; reflexivity|].
  split; [reflexivity|]. split; [reflexivity|]. split; [reflexivity|].
  match goal with
  | |- (forall X ld, In ld (emitted (?ll, ?lc, ?lr) X) -> _) /\ _ =>
      pose proof (@path_classification_corridors Reference.externals 20
                    (Some (path_model 100 0)) 3.6 tracks_corridor_split 0
                    ll lc lr) as T
  end.
  assert (Hrun : get_path_adjacent_leads (ext := Reference.externals) 20
                   (Some (path_model 100 0)) 3.6 tracks_corridor_split 0
                 = Ok _) by (vm_compute; reflexivity).
  specialize (T Hrun). cbv zeta in T.
  destruct T as [_ [_ [_ [T1 [_ [_ [_ T2]]]]]]].
  split; [exact T1 | exact T2].
Defined.

(** Two tracks of the center corridor with the same [|dPath|]: one record
    is returned for two tracks, that of the track processed last. *)
Lemma same_dPath_collides :
  exists ll lc lr,
    get_path_adjacent_leads (ext := Reference.externals) 20
      (Some (path_model 100 0)) 3.6 tracks_same_offset 0
    = Ok (ll, lc, lr)
    /\ map (fun ld => Lead.radarTrackId (PathLead.lead ld)) lc = [2%Z]
    /\ (length ll + length lc + length lr < PyDict.len tracks_same_offset)%nat
    /\ exists env lds,
         path_env (ext := Reference.externals) (Some (path_model 100 0)) 3.6
         = Ok env
         /\ Forall2 (fun c ld => track_lead (Some (path_model 100 0)) 0 env c
                                 = Ok ld)
              (PyDict.values tracks_same_offset) lds
         /\ (forall X ld,
                In ld (emitted (ll, lc, lr) X)
                <-> last_of_its_key (3.6 / 2) X lds ld)
         /\ (forall X a b,
                In a (emitted (ll, lc, lr) X) ->
                In b (emitted (ll, lc, lr) X) ->
                Qabs (PathLead.dPath a) == Qabs (PathLead.dPath b) -> a = b)
         /\ (length ll + length lc + length lr
             <= PyDict.len tracks_same_offset)%nat.
Proof.
  do 3 eexists.
  split; [vm_compute; reflexivity|].
  split; [reflexivity|]. split; [simpl; lia|].
  apply (@equal_dPath_keeps_last Reference.externals 20
           (Some (path_model 100 0)) 3.6 tracks_same_offset 0).
  - discriminate.
  - vm_compute. reflexivity.
Defined.

(** ** The model path *)

(** The guard of line 207 is a disjunction that starts with
    [md is not None]: a model that is present gives the model path whatever
    its length and reach, and without a model the next operand raises. *)
Lemma model_path_guard (ext : Externals) :
  (forall m : ModelV2.t,
      model_path (Some m)
      = Ok (Some (XYLine.x (ModelV2.position m)),
            Some (XYLine.y (ModelV2.position m))))
  /\ model_path None = Raise AttributeError.
Proof. split; [intro m|]; reflexivity. Qed.

(** C3, as the code has it, for the choice of the formula: when the model
    path [(md_x, md_y)] is available, [dPath = -yRel - interp(dRel, md_x,
    md_y)] is used for a track if its [dRel] is within the horizon
    [md_x[-1]], and also if a lane-line centre exists and
    [md_x[-1] - dRel < ll_x[-1] - dRel]; otherwise the lane-line centre is
    used if there is one, and [dPath = -yRel] if not. *)
Theorem model_path_formula_choice (ext : Externals) (env : PathEnv.t)
  (c : Track.t) (mx my : list Q) (xl : Q) :
  PathEnv.md_x env = Some mx ->
  PathEnv.md_y env = Some my ->
  py_index mx (-1) = Ok xl ->
  (forall cy, PathEnv.c_y env = Some cy ->
              exists lx ll, PathEnv.ll_x env = Some lx
                            /\ py_index lx (-1) = Ok ll) ->
  let lanes_reach_further :=
    exists cy lx ll,
      PathEnv.c_y env = Some cy /\ PathEnv.ll_x env = Some lx
      /\ py_index lx (-1) = Ok ll
      /\ xl - Track.dRel c < ll - Track.dRel c in
  (Track.dRel c <= xl \/ lanes_reach_further ->
   use_model_path env c = Ok true
   /\ track_dPath env c
      = (i <- interp (Track.dRel c) mx my ;; Ok (- Track.yRel c - i)))
  /\ (~ (Track.dRel c <= xl \/ lanes_reach_further) ->
      use_model_path env c = Ok false
      /\ track_dPath env c
         = match PathEnv.c_y env with
           | Some cy =>
               lx <- bound (PathEnv.ll_x env) ;;
               i <- interp (Track.dRel c) lx cy ;;
               Ok (- Track.yRel c - i)
           | None => Ok (- Track.yRel c)
           end).
Proof.
  intros Hx Hy Hl Hlane lanes.
  assert (Huse : exists b,
             use_model_path env c = Ok b
             /\ (b = true <-> Track.dRel c <= xl \/ lanes)).
  { unfold use_model_path. rewrite Hx, Hy. simpl. rewrite Hl. simpl.
    destruct (Track.dRel c <=? xl) eqn:E; cmp_to_prop.
    - exists true. split; [reflexivity|]. split; auto.
    - destruct (PathEnv.c_y env) as [cy|] eqn:Ec; simpl.
      + destruct (Hlane cy eq_refl) as [lx [ll [Hlx Hll]]].
        rewrite Hlx. simpl. rewrite Hll. simpl.
        exists (xl - Track.dRel c <? ll - Track.dRel c).
        split; [reflexivity|]. rewrite Qltb_lt. split.
        * intro H. right. exists cy, lx, ll. auto.
        * intros [H|[cy' [lx' [ll' [_ [Hlx' [Hll' H]]]]]]].
          -- exfalso. exact (Qlt_not_le _ _ E H).
          -- rewrite Hlx in Hlx'. injection Hlx' as <-.
             rewrite Hll in Hll'. injection Hll' as <-. exact H.
      + exists false. split; [reflexivity|]. split; [discriminate|].
        intros [H|[cy' [_ [_ [Hc _]]]]].
        * exfalso. exact (Qlt_not_le _ _ E H).
        * discriminate Hc. }
  destruct Huse as [b [Hb Hiff]].
  unfold track_dPath. rewrite Hb. simpl. split.
  - intro H. apply Hiff in H. subst b. split; [reflexivity|].
    rewrite Hx, Hy. reflexivity.
  - intro H. destruct b.
    + exfalso. apply H, Hiff. reflexivity.
    + split; reflexivity.
Qed.

(** A track at 80 m, a model path that reaches 70 m and lane lines that
    reach 100 m: the model path formula is used (the path is clamped, its
    end is 7 m aside). *)
Lemma model_path_formula_choice_witness :
  exists env,
    path_env (ext := Reference.externals) (Some (lanes_model 70 7)) 3.6
    = Ok env
    /\ use_model_path env (radar_track 1 80 0.5 0) = Ok true
    /\ track_dPath env (radar_track 1 80 0.5 0)
       = (i <- interp 80 [0; 70] [0; 7] ;; Ok (- 0.5 - i)).
Proof.
  eexists. split; [vm_compute; reflexivity|].
  lazymatch goal with
  | |- use_model_path ?e _ = _ /\ _ =>
      refine (proj1 (@model_path_formula_choice Reference.externals e
                       (radar_track 1 80 0.5 0) [0; 70] [0; 7] 70
                       eq_refl eq_refl eq_refl _) _)
  end.
  - intros cy Hcy. simpl in Hcy. eexists. eexists.
    split; [reflexivity | vm_compute; reflexivity].
  - right. eexists. eexists. eexists.
    split; [reflexivity|]. split; [reflexivity|].
    split; [vm_compute; reflexivity | reflexivity].
Defined.

(** C3, as stated, fails twice.  A model path of two samples that ends at
    10 m is taken, although it has not [TRAJECTORY_SIZE] samples and does
    not exceed 60 m: the track at 5 m gets [dPath = -0.5 - 0.5], not
    [-yRel].  And for a track at 80 m, beyond a model path that ends at
    70 m, the model path formula is used when the lane lines reach 100 m:
    [dPath = -0.5 - 7], not the lane-line value [-0.5 - 0]. *)
Lemma model_path_claim_counterexample :
  (length (XYLine.x (ModelV2.position (path_model 10 1)))
   <> TRAJECTORY_SIZE (Externals := Reference.externals)
   /\ py_index (XYLine.x (ModelV2.position (path_model 10 1))) (-1) = Ok 10
   /\ ~ LEAD_PATH_DREL_MIN < 10
   /\ model_path (ext := Reference.externals) (Some (path_model 10 1))
      = Ok (Some [0; 10], Some [0; 1])
   /\ exists ld,
        get_path_adjacent_leads (ext := Reference.externals) 20
          (Some (path_model 10 1)) 3.6 [(1%Z, radar_track 1 5 0.5 0)] 0
        = Ok ([], [ld], [])
        /\ PathLead.dPath ld == -1
        /\ ~ PathLead.dPath ld == - Track.yRel (radar_track 1 5 0.5 0))
  /\ (exists env ld,
        path_env (ext := Reference.externals) (Some (lanes_model 70 7)) 3.6
        = Ok env
        /\ PathEnv.md_x env = Some [0; 70]
        /\ ~ Track.dRel (radar_track 1 80 0.5 0) <= 70
        /\ use_model_path env (radar_track 1 80 0.5 0) = Ok true
        /\ get_path_adjacent_leads (ext := Reference.externals) 20
             (Some (lanes_model 70 7)) 3.6 [(1%Z, radar_track 1 80 0.5 0)] 0
           = Ok ([ld], [], [])
        /\ PathLead.dPath ld == -7.5).
Proof.
  split.
  - split; [discriminate|]. split; [reflexivity|].
    split; [intro H; discriminate H|]. split; [reflexivity|].
    eexists. split; [vm_compute; reflexivity|].
    split; [reflexivity | intro H; discriminate H].
  - eexists. eexists. split; [vm_compute; reflexivity|].
    split; [reflexivity|]. split; [intro H; apply H; reflexivity|].
    split; [vm_compute; reflexivity|].
    split; [vm_compute; reflexivity | reflexivity].
Qed.

(** ** Scenarios of the lead selector *)

(** Scenario 4 of the specification: at [vEgo = 2] both tracks qualify and
    the lead is A, the closer one. *)
Lemma low_speed_override_scenario :
  get_lead (ext := Reference.externals) 2 true tracks_low_speed no_lead 2
    true 0
  = Ok (Fields (Track.get_RadarState2 (radar_track 1 5 0.2 0) 0 no_lead 0))
  /\ exists d0,
       get_lead (ext := Reference.externals) 2 true tracks_low_speed no_lead
         2 false 0 = Ok d0
       /\ d0 = StatusOnly false
       /\ exists closest,
            In closest (PyDict.values tracks_low_speed)
            /\ qualifies 2 closest
            /\ (forall c, In c (PyDict.values tracks_low_speed) ->
                          qualifies 2 c ->
                          Track.dRel closest <= Track.dRel c).
Proof.
  split; [vm_compute; reflexivity|].
  destruct (@low_speed_override_selects Reference.externals 2 true
              tracks_low_speed no_lead 2 0) as [d0 [H0 [_ Hsome]]].
  exists d0. split; [exact H0|].
  split; [vm_compute in H0; injection H0 as <-; reflexivity|].
  destruct Hsome as [closest [Hin [Hq [Hmin _]]]].
  - exists (radar_track 1 5 0.2 0). split; [left; reflexivity|].
    unfold qualifies. vm_compute. repeat split.
  - exists closest. auto.
Defined.

(** Scenario 6 of the specification: with [MixRadarInfo = 1] the projected
    [aLeadK] is -3.0 at [prob = 0.8] and -1.0 at [prob = 0.4]. *)
Lemma mix_mode_scenario :
  Lead.aLeadK (Track.get_RadarState2 braking_track 0.8 (braking_lead 0.8) 1)
  = -3.0
  /\ Lead.aLeadK (Track.get_RadarState2 braking_track 0.4 (braking_lead 0.4) 1)
     = -1.0.
Proof.
  split.
  - exact (proj1 (proj2 (proj2 (proj2 (proj2
             (@projected_aLeadK Reference.externals braking_track
                (braking_lead 0.8) 0.8 1))))
             eq_refl eq_refl eq_refl) eq_refl).
  - exact (proj2 (proj2 (proj2 (proj2 (proj2
             (@projected_aLeadK Reference.externals braking_track
                (braking_lead 0.4) 0.4 1))))
             eq_refl eq_refl eq_refl) eq_refl).
Defined.

Lemma vision_only_scenario :
  exists r,
    get_lead (ext := Reference.externals) 10 true (PyDict.empty Z Track.t)
      vision_lead 10 true 0 = Ok (Fields r)
    /\ Lead.dRel r == 48.48 /\ Lead.yRel r == 0 /\ Lead.vRel r == 5
    /\ Lead.vLead r == 15 /\ Lead.vLeadK r == 15
    /\ Lead.aLeadK r = 0 /\ Lead.aLeadTau r = 0.3
    /\ Lead.status r = true /\ Lead.radar r = false /\ Lead.fcw r = false
    /\ Lead.modelProb r = 0.9 /\ Lead.radarTrackId r = (-1)%Z.
Proof.
  exists (get_RadarState_from_vision vision_lead 10 10).
  pose proof (@vision_only_lead_record Reference.externals vision_lead 10 10)
    as T. cbv zeta in T.
  destruct T as [_ [_ [_ [_ [_ [_ [_ [_ [_ [_ [_ [_ T]]]]]]]]]]]].
  split; [exact (T true 0%Z)|].
  repeat split.
Defined.

(** ** Further properties of a cycle *)

Section Cycle.
Context {ext : Externals}.

(** The steps of [update] that follow the tracks change the radar state and
    its validity only. *)
Lemma update_state (self : RadarD.t) (ShowRadarInfo MixRadarInfo : Z)
  (sm : SubMaster.t) (rr : option RadarData.t) :
  exists valid rs,
    fst (RadarD.update self ShowRadarInfo MixRadarInfo sm rr)
    = RadarD.set_radar_state
        (RadarD.update_tracks self ShowRadarInfo MixRadarInfo sm rr) valid rs.
Proof.
  unfold RadarD.update.
  destruct (ModelV2.leadsV3 (SubMaster.modelV2 sm)) as [|lead0 [|lead1 rest]];
    try (eexists; eexists; reflexivity).
  cbv zeta.
  destruct (get_lead _ _ _ lead0 _ true _) as [one|e];
    [|eexists; eexists; reflexivity].
  destruct (get_lead _ _ _ lead1 _ false _) as [two|e];
    [|eexists; eexists; reflexivity].
  match goal with |- context [if ?c then _ else _] => destruct c end;
    [|eexists; eexists; reflexivity].
  destruct (get_path_adjacent_leads _ _ _ _ _) as [[[ll lc] lr]|e];
    eexists; eexists; reflexivity.
Qed.

Lemma get_set_other (V : Type) (d : PyDict.t Z V) (k k' : Z) (v : V) :
  k' <> k ->
  PyDict.get Z.eqb (PyDict.set Z.eqb d k' v) k = PyDict.get Z.eqb d k.
Proof.
  intro Hne. induction d as [|[k0 v0] d IH]; simpl.
  - destruct (Z.eqb_spec k' k); [contradiction | reflexivity].
  - destruct (Z.eqb_spec k0 k') as [->|Hk]; simpl.
    + destruct (Z.eqb_spec k' k); [contradiction | reflexivity].
    + rewrite IH. reflexivity.
Qed.

Lemma get_filter_kept (V : Type) (f : Z -> bool) (d : PyDict.t Z V) (k : Z) :
  f k = true ->
  PyDict.get Z.eqb (filter (fun p => f (fst p)) d) k = PyDict.get Z.eqb d k.
Proof.
  intro Hk. induction d as [|[k0 v0] d IH]; simpl; [reflexivity|].
  destruct (f k0) eqn:E; simpl.
  - rewrite IH. reflexivity.
  - destruct (Z.eqb_spec k0 k) as [->|_]; [congruence | exact IH].
Qed.

Lemma upsert_get_other (kp : KalmanParams.t) (hist : Deque.t)
  (ar_pts : RadarD.RadarPts) (id : Z) :
  forall tracks : Tracks,
    ~ In id (PyDict.keys ar_pts) ->
    PyDict.get Z.eqb (RadarD.upsert kp hist tracks ar_pts) id
    = PyDict.get Z.eqb tracks id.
Proof.
  unfold RadarD.upsert.
  induction ar_pts as [|[ids [[[d y] v] me]] ar_pts IH]; intros tracks Hn;
    simpl; [reflexivity|].
  rewrite IH by (intro H; apply Hn; right; exact H).
  unfold RadarD.upsert_one. apply get_set_other.
  intros ->. apply Hn. left. reflexivity.
Qed.

Lemma upsert_cons (kp : KalmanParams.t) (hist : Deque.t) (tracks : Tracks)
  (entry : Z * (Q * Q * Q * bool)) (ar_pts : RadarD.RadarPts) :
  RadarD.upsert kp hist tracks (entry :: ar_pts)
  = RadarD.upsert kp hist (RadarD.upsert_one kp hist tracks entry) ar_pts.
Proof. reflexivity. Qed.

(** The track that [update] keeps under [ids]: the track found there, or a
    new one, updated with the point of [ids]. *)
Lemma upsert_get (kp : KalmanParams.t) (hist : Deque.t)
  (ar_pts : RadarD.RadarPts) :
  forall (tracks : Tracks) (ids : Z) (d y v : Q) (me : bool),
    NoDup (PyDict.keys ar_pts) ->
    In (ids, (d, y, v, me)) ar_pts ->
    PyDict.get Z.eqb (RadarD.upsert kp hist tracks ar_pts) ids
    = Some (Track.update
              match PyDict.get Z.eqb tracks ids with
              | Some track => track
              | None => Track.init ids (v + Deque.oldest hist) kp
              end d y v (v + Deque.oldest hist) me).
Proof.
  induction ar_pts as [|[ids0 [[[d0 y0] v0] me0]] ar_pts IH];
    intros tracks ids d y v me Hnd Hin; [destruct Hin|].
  simpl in Hnd. inversion Hnd as [|? ? Hn Hnd']; subst.
  destruct Hin as [[= -> -> -> -> ->]|Hin].
  - rewrite upsert_cons, upsert_get_other by exact Hn.
    unfold RadarD.upsert_one.
    apply (dict_get_set_same Z.eqb Zeqb_eq).
  - assert (Hne : ids0 <> ids).
    { intros ->. apply Hn. unfold PyDict.keys. apply in_map_iff.
      exists (ids, (d, y, v, me)). auto. }
    rewrite upsert_cons, (IH _ ids d y v me Hnd' Hin).
    unfold RadarD.upsert_one. rewrite get_set_other by exact Hne.
    reflexivity.
Qed.

(** An entry of [ar_pts] is a point of the frame. *)
Lemma collect_points_In (pts : list RadarPoint.t) (ids : Z) (d y v : Q)
  (me : bool) :
  In (ids, (d, y, v, me)) (RadarD.collect_points pts) ->
  exists pt,
    In pt pts /\ RadarPoint.trackId pt = ids /\ RadarPoint.dRel pt = d
    /\ RadarPoint.yRel pt = y /\ RadarPoint.vRel pt = v
    /\ RadarPoint.measured pt = me.
Proof.
  unfold RadarD.collect_points.
  assert (H : forall acc : RadarD.RadarPts,
             In (ids, (d, y, v, me))
               (fold_left
                  (fun ar_pts pt =>
                     PyDict.set Z.eqb ar_pts (RadarPoint.trackId pt)
                       (RadarPoint.dRel pt, RadarPoint.yRel pt,
                        RadarPoint.vRel pt, RadarPoint.measured pt))
                  pts acc) ->
             In (ids, (d, y, v, me)) acc
             \/ exists pt,
                  In pt pts /\ RadarPoint.trackId pt = ids
                  /\ RadarPoint.dRel pt = d /\ RadarPoint.yRel pt = y
                  /\ RadarPoint.vRel pt = v /\ RadarPoint.measured pt = me).
  { induction pts as [|pt pts IH]; intros acc Hin; simpl in Hin.
    - left. exact Hin.
    - destruct (IH _ Hin) as [Hacc|[pt' [Hpt' Hf]]].
      + apply (In_set Z.eqb Z.eqb_refl) in Hacc as [Hacc|[Hv Hk]].
        * left. exact Hacc.
        * right. exists pt. simpl in Hv, Hk. apply Z.eqb_eq in Hk.
          injection Hv as <- <- <- <-.
          repeat split; auto. left. reflexivity.
      + right. exists pt'. split; [right; exact Hpt' | exact Hf]. }
  intro Hin. destruct (H _ Hin) as [[]|Hex]. exact Hex.
Qed.

End Cycle.

(** Without readiness or with a hypothesis of probability at most 0.5
    there is neither association nor vision-only lead: the record chosen
    from the vision hypothesis is [{'status': False}], whatever the
    tracks. *)
Theorem low_probability_no_lead (ext : Externals) (vEgo : Q) (ready : bool)
  (tracks : Tracks) (L : LeadMsg.t) (vEgoModel : Q) (m : Z) :
  ready = false \/ LeadMsg.prob L <= 0.5 ->
  get_lead vEgo ready tracks L vEgoModel false m = Ok (StatusOnly false).
Proof.
  intro H. unfold get_lead, get_lead_vision.
  assert (E : ready && (0.5 <? LeadMsg.prob L) = false).
  { destruct H as [->|H]; [reflexivity|].
    apply andb_false_iff. right. apply Qltb_ge. exact H. }
  rewrite <- andb_assoc, E, andb_false_r. reflexivity.
Qed.

Lemma low_probability_no_lead_witness :
  get_lead (ext := Reference.externals) 2 true tracks_low_speed no_lead 2
    false 0 = Ok (StatusOnly false).
Proof.
  apply (@low_probability_no_lead Reference.externals).
  right. intro H. discriminate H.
Defined.

(** After a cycle, every identifier of the frame has a track that holds the
    values of a point of the frame with that identifier, with
    [vLead = vRel + v_ego_hist[0]]; the track is a new one, updated once, if
    the identifier was not in the map, and the track of the map, updated
    once more, if it was. *)
Theorem update_stores_frame (ext : Externals) (self : RadarD.t)
  (ShowRadarInfo MixRadarInfo : Z) (sm : SubMaster.t)
  (rr : option RadarData.t) (pt : RadarPoint.t) :
  In pt (match rr with Some rr => RadarData.points rr | None => [] end) ->
  let self' := fst (RadarD.update self ShowRadarInfo MixRadarInfo sm rr) in
  exists t pt',
    PyDict.get Z.eqb (RadarD.tracks self') (RadarPoint.trackId pt) = Some t
    /\ In pt' (match rr with Some rr => RadarData.points rr | None => [] end)
    /\ RadarPoint.trackId pt' = RadarPoint.trackId pt
    /\ Track.dRel t = RadarPoint.dRel pt'
    /\ Track.yRel t = RadarPoint.yRel pt'
    /\ Track.vRel t = RadarPoint.vRel pt'
    /\ Track.measured t = RadarPoint.measured pt'
    /\ Track.vLead t
       = RadarPoint.vRel pt' + Deque.oldest (RadarD.v_ego_hist self')
    /\ match PyDict.get Z.eqb (RadarD.tracks self) (RadarPoint.trackId pt) with
       | None => Track.cnt t = 1%nat
                 /\ Track.identifier t = RadarPoint.trackId pt
                 /\ Track.K_K t = KalmanParams.K (RadarD.kalman_params self)
       | Some t0 => Track.cnt t = (Track.cnt t0 + 1)%nat
                    /\ Track.identifier t = Track.identifier t0
                    /\ Track.K_K t = Track.K_K t0
       end.
Proof.
  intros Hpt. cbv zeta.
  destruct (update_state self ShowRadarInfo MixRadarInfo sm rr)
    as [valid [rs ->]].
  unfold RadarD.set_radar_state, RadarD.update_tracks. simpl.
  set (pts := match rr with Some rr0 => RadarData.points rr0 | None => [] end)
    in *.
  set (hist := if SubMaster.updated_carState sm
               then Deque.append (RadarD.v_ego_hist self)
                      (SubMaster.carState_vEgo sm)
               else RadarD.v_ego_hist self).
  assert (Hk : In (RadarPoint.trackId pt)
                 (PyDict.keys (RadarD.collect_points pts))).
  { apply collect_points_keys. apply in_map. exact Hpt. }
  unfold PyDict.keys in Hk. apply in_map_iff in Hk as [[ids [[[d y] v] me]] [Hid Hin]].
  simpl in Hid. subst ids.
  rewrite (upsert_get (RadarD.kalman_params self) hist
             (RadarD.collect_points pts)
             (RadarD.evict (RadarD.tracks self) (RadarD.collect_points pts))
             (RadarPoint.trackId pt) d y v me
             (collect_points_NoDup pts) Hin).
  destruct (collect_points_In pts _ _ _ _ _ Hin)
    as [pt' [Hpt' [Hid [<- [<- [<- <-]]]]]].
  eexists. exists pt'. split; [reflexivity|].
  split; [exact Hpt'|]. split; [exact Hid|].
  simpl. repeat (split; [reflexivity|]).
  rewrite evict_filter.
  rewrite (get_filter_kept (PyDict.mem Z.eqb (RadarD.collect_points pts))).
  - destruct (PyDict.get Z.eqb (RadarD.tracks self) (RadarPoint.trackId pt));
      simpl; repeat split; lia.
  - apply (dict_mem_keys Z.eqb Zeqb_eq). apply collect_points_keys.
    apply in_map. exact Hpt.
Qed.

(** The first cycle of scenario 1: the track 7 is new, and updated once. *)
Lemma update_stores_frame_witness :
  In point_7 (RadarData.points frame_track_7)
  /\ let self' :=
       fst (RadarD.update radar_d_005 0 0 cycle_inputs (Some frame_track_7)) in
     exists t pt',
       PyDict.get Z.eqb (RadarD.tracks self') (RadarPoint.trackId point_7)
       = Some t
       /\ In pt' (RadarData.points frame_track_7)
       /\ RadarPoint.trackId pt' = RadarPoint.trackId point_7
       /\ Track.dRel t = RadarPoint.dRel pt'
       /\ Track.yRel t = RadarPoint.yRel pt'
       /\ Track.vRel t = RadarPoint.vRel pt'
       /\ Track.measured t = RadarPoint.measured pt'
       /\ Track.vLead t
          = RadarPoint.vRel pt' + Deque.oldest (RadarD.v_ego_hist self')
       /\ Track.cnt t = 1%nat
       /\ Track.identifier t = RadarPoint.trackId point_7
       /\ Track.K_K t = KalmanParams.K (RadarD.kalman_params radar_d_005).
Proof.
  split; [left; reflexivity|].
  exact (@update_stores_frame Reference.externals radar_d_005 0 0
           cycle_inputs (Some frame_track_7) point_7 (or_introl eq_refl)).
Defined.

(** Scenario 1 of the specification: after three cycles [leadOne] has no
    lead and the only track is the track 7, at 40 m. *)
Lemma single_track_scenario :
  match three_cycles with
  | Raise _ => False
  | Ok s =>
      option_map RadarState.leadOne (RadarD.radar_state s)
      = Some (StatusOnly false)
      /\ RadarD.radar_state_valid s = true
      /\ map (fun p => (fst p, Track.dRel (snd p), Track.yRel (snd p),
                         Track.vRel (snd p), Track.vLead (snd p),
                         Track.cnt (snd p)))
             (RadarD.tracks s)
         = [(7%Z, 40, 0, -2, 18, 3%nat)]
  end.
Proof.
  vm_compute. repeat split.
Qed.

(** ** Further properties of a track *)

Section TrackFacts.
Context {ext : Externals}.

Lemma updates_snoc (T : Track.t) (os : list Obs) (o : Obs) :
  updates T (os ++ [o]) = update_obs (updates T os) o.
Proof. unfold updates. rewrite fold_left_app. reflexivity. Qed.

Lemma updates_cons (T : Track.t) (o : Obs) (os : list Obs) :
  updates T (o :: os) = updates (update_obs T o) os.
Proof. reflexivity. Qed.

Lemma update_obs_kept (T : Track.t) (o : Obs) :
  Track.cnt (update_obs T o) = (Track.cnt T + 1)%nat
  /\ Track.identifier (update_obs T o) = Track.identifier T
  /\ Track.K_A (update_obs T o) = Track.K_A T
  /\ Track.K_C (update_obs T o) = Track.K_C T
  /\ Track.K_K (update_obs T o) = Track.K_K T.
Proof. destruct o as [[[[d y] v] vl] me]. repeat split. Qed.

(** Once a track has been updated, every update feeds its filter. *)
Lemma updates_filter (os : list Obs) :
  forall T,
    (0 < Track.cnt T)%nat ->
    Track.kf (updates T os) = fold_left KF1D_update (v_leads os) (Track.kf T).
Proof.
  induction os as [|o os IH]; intros T Hc; [reflexivity|].
  rewrite updates_cons, IH.
  - destruct o as [[[[d y] v] vl] me]. simpl.
    apply Nat.ltb_lt in Hc. rewrite Hc. reflexivity.
  - destruct (update_obs_kept T o) as [-> _]. lia.
Qed.

Lemma updates_filter_state (os : list Obs) (o : Obs) (T : Track.t) :
  Track.vLeadK (updates T (os ++ [o]))
  = KF1D_x (Track.kf (updates T (os ++ [o]))) SPEED
  /\ Track.aLeadK (updates T (os ++ [o]))
     = KF1D_x (Track.kf (updates T (os ++ [o]))) ACCEL.
Proof.
  rewrite updates_snoc. destruct o as [[[[d y] v] vl] me]. split; reflexivity.
Qed.

End TrackFacts.

(** A track counts its updates and keeps its identifier and the
    parameters of its filter, whatever it is updated with; it holds the
    values of its last update. *)
Theorem updates_count (ext : Externals) (T : Track.t) (os : list Obs) :
  let T' := updates T os in
  Track.cnt T' = (Track.cnt T + length os)%nat
  /\ Track.identifier T' = Track.identifier T
  /\ Track.K_A T' = Track.K_A T
  /\ Track.K_C T' = Track.K_C T
  /\ Track.K_K T' = Track.K_K T
  /\ forall os' d y v vl me,
       os = os' ++ [(d, y, v, vl, me)] ->
       Track.dRel T' = d /\ Track.yRel T' = y /\ Track.vRel T' = v
       /\ Track.vLead T' = vl /\ Track.measured T' = me.
Proof.
  cbv zeta.
  assert (H : forall os T,
             Track.cnt (updates T os) = (Track.cnt T + length os)%nat
             /\ Track.identifier (updates T os) = Track.identifier T
             /\ Track.K_A (updates T os) = Track.K_A T
             /\ Track.K_C (updates T os) = Track.K_C T
             /\ Track.K_K (updates T os) = Track.K_K T).
  { clear. induction os as [|o os IH]; intro T.
    - simpl. repeat split. lia.
    - rewrite updates_cons.
      destruct (IH (update_obs T o)) as [-> [-> [-> [-> ->]]]].
      destruct (update_obs_kept T o) as [-> [-> [-> [-> ->]]]].
      simpl length. repeat split. lia. }
  destruct (H os T) as [H1 [H2 [H3 [H4 H5]]]].
  repeat (split; [assumption|]).
  intros os' d y v vl me ->. rewrite updates_snoc. repeat split.
Qed.

(** The filter of a track is created on the first [v_lead] with no
    acceleration; the first update does not feed it, and every later update
    feeds it its [v_lead], once.  [vLeadK] and [aLeadK] are the state of the
    filter. *)
Theorem filter_skips_first_measurement (ext : Externals) (id : Z) (v : Q)
  (kp : KalmanParams.t) (o : Obs) (os : list Obs) :
  let T := updates (Track.init id v kp) (o :: os) in
  Track.kf T
  = fold_left KF1D_update (v_leads os)
      (KF1D_new [[v]; [0]] (KalmanParams.A kp) (KalmanParams.C kp)
         (KalmanParams.K kp))
  /\ Track.vLeadK T = KF1D_x (Track.kf T) SPEED
  /\ Track.aLeadK T = KF1D_x (Track.kf T) ACCEL.
Proof.
  cbv zeta. split.
  - rewrite updates_cons, updates_filter.
    + destruct o as [[[[d y] v'] vl] me]. reflexivity.
    + destruct (update_obs_kept (Track.init id v kp) o) as [-> _].
      simpl. lia.
  - destruct (exists_last (l := o :: os)) as [os' [o' E]]; [discriminate|].
    rewrite E. apply updates_filter_state.
Qed.

(** The record of [get_RadarState2] is the record of [get_RadarState]
    except for [yRel] and [aLeadK], and the same record when
    [mixRadarInfo = 0].  Its [yRel] is the track's, unless the mix mode is
    on and the track's [yRel] is zero: it is [-lead.y[0]] then. *)
Theorem get_RadarState2_extends (ext : Externals) (T : Track.t) (p : Q)
  (L : LeadMsg.t) (m : Z) :
  let r := Track.get_RadarState T p in
  let r2 := Track.get_RadarState2 T p L m in
  (m = 0%Z -> r2 = r)
  /\ Lead.dRel r2 = Lead.dRel r /\ Lead.vRel r2 = Lead.vRel r
  /\ Lead.vLead r2 = Lead.vLead r /\ Lead.vLeadK r2 = Lead.vLeadK r
  /\ Lead.aLeadTau r2 = Lead.aLeadTau r /\ Lead.status r2 = Lead.status r
  /\ Lead.fcw r2 = Lead.fcw r /\ Lead.modelProb r2 = Lead.modelProb r
  /\ Lead.radar r2 = Lead.radar r
  /\ Lead.radarTrackId r2 = Lead.radarTrackId r
  /\ (m <> 0%Z /\ Track.yRel T == 0 -> Lead.yRel r2 = - LeadMsg.y0 L)
  /\ (m = 0%Z \/ ~ Track.yRel T == 0 -> Lead.yRel r2 = Track.yRel T).
Proof.
  cbv zeta. split; [|repeat (split; [reflexivity|]); split].
  - intros ->. unfold Track.get_RadarState2, Track.get_RadarState,
      Track.useVisionMix. simpl. reflexivity.
  - intros [Hm Hy]. simpl.
    apply Z.eqb_neq in Hm. apply Qeq_bool_iff in Hy. rewrite Hm, Hy.
    reflexivity.
  - intros [->|Hy]; simpl; [reflexivity|].
    destruct (Track.yRel T =? 0) eqn:E.
    + exfalso. apply Hy. apply Qeq_bool_iff. exact E.
    + rewrite orb_true_r. reflexivity.
Qed.

(** ** Further properties of the association *)

Section AssociationFacts.
Context {ext : Externals}.

Lemma max2_ge (a b : Q) : a <= max2 a b /\ b <= max2 a b.
Proof.
  unfold max2. destruct (a <? b) eqn:E; cmp_to_prop.
  - split; [apply Qlt_le_weak; exact E | apply Qle_refl].
  - split; [apply Qle_refl | exact E].
Qed.

(** The argument of [math.exp] in [laplacian_pdf]. *)
Lemma laplacian_exponent (x mu b : Q) :
  - Qabs (x - mu) / max2 b 0.0001 <= 0.
Proof.
  assert (Hb : 0 < max2 b 0.0001).
  { apply Qlt_le_trans with 0.0001; [reflexivity | apply max2_ge]. }
  assert (Ha : 0 <= Qabs (x - mu)) by apply Qabs_nonneg.
  apply Qle_shift_div_r; [exact Hb|]. lra.
Qed.

Lemma laplacian_pdf_range (x mu b : Q) :
  (forall e, e <= 0 -> 0 <= math_exp e <= 1) ->
  0 <= laplacian_pdf x mu b <= 1.
Proof.
  intro H. unfold laplacian_pdf. apply H, laplacian_exponent.
Qed.

End AssociationFacts.

Section MaximumFacts.
Variable A : Type.
Variable key : A -> Q.

Lemma max_from_ge_best (l : list A) :
  forall best, key best <= key (max_from key best l).
Proof.
  induction l as [|a l IH]; intro best; simpl.
  - apply Qle_refl.
  - destruct (key best <? key a) eqn:E; cmp_to_prop.
    + apply Qle_trans with (key a); [apply Qlt_le_weak, E | apply IH].
    + apply IH.
Qed.

Lemma max_from_ge (l : list A) :
  forall best x, In x (best :: l) -> key x <= key (max_from key best l).
Proof.
  induction l as [|a l IH]; intros best x Hx; simpl.
  - destruct Hx as [Hb|[]]. subst x. apply Qle_refl.
  - destruct Hx as [Hb|[Ha|Hx]].
    + subst x. destruct (key best <? key a) eqn:E; cmp_to_prop.
      * apply Qle_trans with (key a);
          [apply Qlt_le_weak, E | apply max_from_ge_best].
      * apply max_from_ge_best.
    + subst x. destruct (key best <? key a) eqn:E; cmp_to_prop.
      * apply max_from_ge_best.
      * apply Qle_trans with (key best); [exact E | apply max_from_ge_best].
    + apply IH. right. exact Hx.
Qed.

(** [max] returns the first of the elements whose key is the greatest. *)
Lemma max_from_first (l : list A) :
  forall best,
    exists l1 l2,
      best :: l = l1 ++ max_from key best l :: l2
      /\ forall x, In x l1 -> key x < key (max_from key best l).
Proof.
  induction l as [|a l IH]; intro best.
  - exists [], []. split; [reflexivity|]. intros x [].
  - simpl max_from. destruct (key best <? key a) eqn:E; cmp_to_prop.
    + destruct (IH a) as [l1 [l2 [Hl Hlt]]].
      pose proof (max_from_ge_best l a) as Hge.
      set (m := max_from key a l) in *.
      exists (best :: l1), l2. split; [simpl; rewrite Hl; reflexivity|].
      intros x [<-|Hx]; [|apply Hlt, Hx].
      apply Qlt_le_trans with (key a); [exact E | exact Hge].
    + destruct (IH best) as [l1 [l2 [Hl Hlt]]].
      set (m := max_from key best l) in *.
      destruct l1 as [|b l1].
      * simpl in Hl. injection Hl as Hb Hl2.
        exists [], (a :: l2). rewrite <- Hb, <- Hl2.
        split; [reflexivity|]. intros x [].
      * simpl in Hl. injection Hl as Hb Hl2. subst b.
        exists (best :: a :: l1), l2. simpl. rewrite <- Hl2.
        split; [reflexivity|].
        intros x [<-|[<-|Hx]].
        -- apply Hlt. left. reflexivity.
        -- apply Qle_lt_trans with (key best); [exact E|].
           apply Hlt. left. reflexivity.
        -- apply Hlt. right. exact Hx.
Qed.

End MaximumFacts.

(** A deviation [b] below [1e-4] (zero and negative ones too) is replaced
    by [1e-4], so that [laplacian_pdf] never divides by zero; the argument
    it gives to [math.exp] is never positive. *)
Theorem laplacian_pdf_floor (ext : Externals) (x mu b : Q) :
  (b < 0.0001 -> laplacian_pdf x mu b = laplacian_pdf x mu 0.0001)
  /\ (0.0001 <= b -> laplacian_pdf x mu b = math_exp (- Qabs (x - mu) / b))
  /\ exists e, e <= 0 /\ laplacian_pdf x mu b = math_exp e.
Proof.
  split; [|split].
  - intro H. unfold laplacian_pdf, max2.
    apply Qltb_lt in H. rewrite H. reflexivity.
  - intro H. unfold laplacian_pdf, max2.
    apply Qltb_ge in H. rewrite H. reflexivity.
  - exists (- Qabs (x - mu) / max2 b 0.0001).
    split; [apply laplacian_exponent | reflexivity].
Qed.

(** Where [math.exp] maps the numbers that are not positive into [0, 1],
    the score [prob] of a track is in [0, 1]. *)
Theorem match_prob_range (ext : Externals) (vEgo : Q) (L : LeadMsg.t)
  (c : Track.t) :
  (forall e, e <= 0 -> 0 <= math_exp e <= 1) ->
  0 <= match_prob vEgo L c <= 1.
Proof.
  intro H. unfold match_prob.
  pose proof (laplacian_pdf_range (Track.dRel c)
                (LeadMsg.x0 L - RADAR_TO_CAMERA) (LeadMsg.xStd0 L) H) as Hd.
  pose proof (laplacian_pdf_range (Track.yRel c) (- LeadMsg.y0 L)
                (LeadMsg.yStd0 L) H) as Hy.
  pose proof (laplacian_pdf_range (Track.vRel c + vEgo) (LeadMsg.v0 L)
                (LeadMsg.vStd0 L) H) as Hv.
  cbv zeta.
  set (pd := laplacian_pdf (Track.dRel c) _ _) in *.
  set (py := laplacian_pdf (Track.yRel c) _ _) in *.
  set (pv := laplacian_pdf (Track.vRel c + vEgo) _ _) in *.
  assert (Hdy : 0 <= pd * py <= 1).
  { split; [apply Qmult_le_0_compat; tauto|].
    apply Qle_trans with (1 * py).
    - apply Qmult_le_compat_r; tauto.
    - lra. }
  split; [apply Qmult_le_0_compat; tauto|].
  apply Qle_trans with (1 * pv).
  - apply Qmult_le_compat_r; tauto.
  - lra.
Qed.

Lemma match_prob_range_witness :
  0 <= match_prob (ext := Reference.externals) 20 vision_lead
         (radar_track 1 30 0 0) <= 1.
Proof.
  apply (@match_prob_range Reference.externals).
  intros e He. simpl. unfold Reference.exp.
  destruct (e <? 0) eqn:E; cmp_to_prop.
  - assert (H1 : 0 < 1 - e) by lra.
    split.
    + apply Qle_shift_div_l; [exact H1 | lra].
    + apply Qle_shift_div_r; [exact H1 | lra].
  - lra.
Defined.

(** Association considers one track only, the first one, in the order of
    the track map, whose score is the greatest: on a track map that is not
    empty it returns that track if its distance and its speed are
    plausible, and no track if they are not (no other track is tried). *)
Theorem match_vision_to_track_best (ext : Externals) (vEgo : Q)
  (L : LeadMsg.t) (tracks : Tracks) :
  tracks <> [] ->
  exists best,
    In best (PyDict.values tracks)
    /\ (forall c, In c (PyDict.values tracks) ->
                  match_prob vEgo L c <= match_prob vEgo L best)
    /\ (exists before after,
           PyDict.values tracks = before ++ best :: after
           /\ forall c, In c before ->
                         match_prob vEgo L c < match_prob vEgo L best)
    /\ let d := LeadMsg.x0 L - 1.52 in
       let dist_sane := Qabs (Track.dRel best - d) < max2 (d * 0.35) 5.0 in
       let vel_sane :=
         Qabs (Track.vRel best + vEgo - LeadMsg.v0 L) < 10
         \/ 3 < vEgo + Track.vRel best in
       (dist_sane /\ vel_sane ->
        match_vision_to_track vEgo L tracks = Ok (Some best))
       /\ (~ (dist_sane /\ vel_sane) ->
           match_vision_to_track vEgo L tracks = Ok None).
Proof.
  intro Hne. destruct tracks as [|[k t] tracks]; [contradiction|].
  set (best := max_from (match_prob vEgo L) t (PyDict.values tracks)).
  exists best. split; [apply max_from_In|].
  split; [intros c Hc; apply max_from_ge; exact Hc|].
  split; [exact (max_from_first (match_prob vEgo L) (PyDict.values tracks) t)|].
  cbv zeta.
  assert (E : match_vision_to_track vEgo L ((k, t) :: tracks)
              = if (Qabs (Track.dRel best - (LeadMsg.x0 L - 1.52))
                    <? max2 ((LeadMsg.x0 L - 1.52) * 0.35) 5.0)
                   && ((Qabs (Track.vRel best + vEgo - LeadMsg.v0 L) <? 10)
                       || (3 <? vEgo + Track.vRel best))
                then Ok (Some best) else Ok None) by reflexivity.
  rewrite E. clear E.
  match goal with
  | |- context [if ?g then _ else _] =>
      assert (Hiff : g = true
                     <-> Qabs (Track.dRel best - (LeadMsg.x0 L - 1.52))
                         < max2 ((LeadMsg.x0 L - 1.52) * 0.35) 5.0
                         /\ (Qabs (Track.vRel best + vEgo - LeadMsg.v0 L) < 10
                             \/ 3 < vEgo + Track.vRel best))
        by (rewrite andb_true_iff, orb_true_iff, !Qltb_lt; tauto);
      destruct g
  end.
  - split; [reflexivity|]. intro Hn. exfalso. apply Hn, Hiff. reflexivity.
  - split; [|reflexivity]. intro Hs. apply Hiff in Hs. discriminate Hs.
Qed.

Lemma match_vision_to_track_best_witness :
  tracks_low_speed <> []
  /\ exists best,
       In best (PyDict.values tracks_low_speed)
       /\ (forall c, In c (PyDict.values tracks_low_speed) ->
                     match_prob 2 vision_lead c
                     <= match_prob 2 vision_lead best)
       /\ (exists before after,
              PyDict.values tracks_low_speed = before ++ best :: after
              /\ forall c, In c before ->
                            match_prob 2 vision_lead c
                            < match_prob 2 vision_lead best)
       /\ let d := LeadMsg.x0 vision_lead - 1.52 in
          let dist_sane := Qabs (Track.dRel best - d) < max2 (d * 0.35) 5.0 in
          let vel_sane :=
            Qabs (Track.vRel best + 2 - LeadMsg.v0 vision_lead) < 10
            \/ 3 < 2 + Track.vRel best in
          (dist_sane /\ vel_sane ->
           match_vision_to_track 2 vision_lead tracks_low_speed
           = Ok (Some best))
          /\ (~ (dist_sane /\ vel_sane) ->
              match_vision_to_track 2 vision_lead tracks_low_speed = Ok None).
Proof.
  split; [discriminate|].
  apply (@match_vision_to_track_best Reference.externals). discriminate.
Defined.

(** ** Further properties of the lead selector *)

Section LeadOrigin.
Context {ext : Externals}.

(** Where the record chosen from the vision hypothesis comes from. *)
Lemma get_lead_vision_cases (vEgo : Q) (ready : bool) (tracks : Tracks)
  (L : LeadMsg.t) (vEgoModel : Q) (m : Z) :
  exists d,
    get_lead_vision vEgo ready tracks L vEgoModel m = Ok d
    /\ ((d = StatusOnly false /\ (ready = false \/ LeadMsg.prob L <= 0.5))
        \/ (ready = true /\ 0.5 < LeadMsg.prob L
            /\ ((exists t, In t (PyDict.values tracks)
                           /\ d = Fields (Track.get_RadarState2 t
                                            (LeadMsg.prob L) L m))
                \/ d = Fields (get_RadarState_from_vision L vEgo vEgoModel)))).
Proof.
  unfold get_lead_vision.
  destruct ready; simpl;
    [|rewrite andb_false_r; simpl; eexists; split; [reflexivity|];
      left; split; [reflexivity | left; reflexivity]].
  destruct (0.5 <? LeadMsg.prob L) eqn:Ep; cmp_to_prop;
    [|rewrite andb_false_r; simpl; eexists; split; [reflexivity|];
      left; split; [reflexivity | right; exact Ep]].
  rewrite andb_true_r.
  destruct ((0 <? PyDict.len tracks)%nat) eqn:Elen; simpl.
  - destruct (match_vision_to_track_returns vEgo L tracks Elen)
      as [[t|] [-> Hin]]; simpl; eexists; (split; [reflexivity|]); right;
      (split; [reflexivity|]); (split; [exact Ep|]).
    + left. exists t. split; [apply Hin|]; reflexivity.
    + right. reflexivity.
  - eexists. split; [reflexivity|]. right.
    split; [reflexivity|]. split; [exact Ep|]. right. reflexivity.
Qed.

(** The override keeps the record it is given or replaces it by the
    record of a track that qualifies. *)
Lemma get_lead_low_speed_cases (vEgo : Q) (tracks : Tracks) (L : LeadMsg.t)
  (m : Z) (d : LeadDict) :
  selected d ->
  exists d',
    get_lead_low_speed vEgo tracks L m d = Ok d'
    /\ (d' = d
        \/ exists t, In t (PyDict.values tracks) /\ qualifies vEgo t
                     /\ d' = Fields (Track.get_RadarState2 t (LeadMsg.prob L)
                                       L m)).
Proof.
  intro Hd. destruct (low_speed_tracks vEgo tracks) as [|c0 rest] eqn:E.
  - exists d.
    split; [apply get_lead_low_speed_none; exact E | left; reflexivity].
  - destruct (@get_lead_low_speed_some ext vEgo tracks L m d c0 rest E Hd)
      as [b [Hb _]].
    rewrite Hb. destruct b.
    + eexists. split; [reflexivity|]. right.
      exists (min_from Track.dRel c0 rest).
      assert (Hin : In (min_from Track.dRel c0 rest)
                      (low_speed_tracks vEgo tracks))
        by (rewrite E; apply min_from_In).
      apply low_speed_tracks_In in Hin as [H1 H2]. auto.
    + exists d. split; [reflexivity | left; reflexivity].
Qed.

Lemma get_lead_vision_selected (vEgo : Q) (ready : bool) (tracks : Tracks)
  (L : LeadMsg.t) (vEgoModel : Q) (m : Z) (d : LeadDict) :
  get_lead_vision vEgo ready tracks L vEgoModel m = Ok d -> selected d.
Proof.
  intro H.
  destruct (get_lead_vision_returns vEgo ready tracks L vEgoModel m)
    as [d' [H' Hs]].
  rewrite H in H'. injection H' as ->. exact Hs.
Qed.

Lemma filter_none (A : Type) (f : A -> bool) (l : list A) :
  (forall a, In a l -> f a = false) -> filter f l = [].
Proof.
  induction l as [|a l IH]; intro H; simpl; [reflexivity|].
  rewrite (H a) by (left; reflexivity).
  apply IH. intros b Hb. apply H. right. exact Hb.
Qed.

(** Where the record returned by the lead selector comes from. *)
Lemma get_lead_cases (vEgo : Q) (ready : bool) (tracks : Tracks)
  (L : LeadMsg.t) (vEgoModel : Q) (low_speed_override : bool) (m : Z) :
  exists d,
    get_lead vEgo ready tracks L vEgoModel low_speed_override m = Ok d
    /\ ((d = StatusOnly false /\ (ready = false \/ LeadMsg.prob L <= 0.5))
        \/ (exists t,
               In t (PyDict.values tracks)
               /\ d = Fields (Track.get_RadarState2 t (LeadMsg.prob L) L m)
               /\ ((ready = true /\ 0.5 < LeadMsg.prob L)
                   \/ (low_speed_override = true /\ qualifies vEgo t)))
        \/ (ready = true /\ 0.5 < LeadMsg.prob L
            /\ d = Fields (get_RadarState_from_vision L vEgo vEgoModel))).
Proof.
  unfold get_lead.
  destruct (get_lead_vision_cases vEgo ready tracks L vEgoModel m)
    as [d0 [H0 Hc]].
  pose proof (get_lead_vision_selected _ _ _ _ _ _ H0) as Hs.
  rewrite H0. simpl bind.
  assert (Hd0 : (d0 = StatusOnly false
                 /\ (ready = false \/ LeadMsg.prob L <= 0.5))
                \/ (exists t,
                       In t (PyDict.values tracks)
                       /\ d0 = Fields (Track.get_RadarState2 t
                                         (LeadMsg.prob L) L m)
                       /\ ((ready = true /\ 0.5 < LeadMsg.prob L)
                           \/ (low_speed_override = true
                               /\ qualifies vEgo t)))
                \/ (ready = true /\ 0.5 < LeadMsg.prob L
                    /\ d0 = Fields (get_RadarState_from_vision L vEgo
                                      vEgoModel))).
  { destruct Hc as [[-> Hn]|[Hr [Hp [[t [Hin ->]]| ->]]]]; auto.
    right. left. exists t. auto. }
  destruct low_speed_override.
  - destruct (get_lead_low_speed_cases vEgo tracks L m Hs)
      as [d' [-> [->|[t [Hin [Hq ->]]]]]].
    + exists d0. split; [reflexivity | exact Hd0].
    + eexists. split; [reflexivity|]. right. left. exists t. auto.
  - exists d0. split; [reflexivity | exact Hd0].
Qed.

End LeadOrigin.

(** The lead selector invents no lead: the record it returns is the bare
    [{'status': False}], the projected record of a track of the map, or,
    with the model ready and a hypothesis of probability above 0.5, the
    vision-only record. *)
Theorem get_lead_origin (ext : Externals) (vEgo : Q) (ready : bool)
  (tracks : Tracks) (L : LeadMsg.t) (vEgoModel : Q)
  (low_speed_override : bool) (m : Z) :
  exists d,
    get_lead vEgo ready tracks L vEgoModel low_speed_override m = Ok d
    /\ (d = StatusOnly false
        \/ (exists t, In t (PyDict.values tracks)
                      /\ d = Fields (Track.get_RadarState2 t (LeadMsg.prob L)
                                       L m))
        \/ (ready = true /\ 0.5 < LeadMsg.prob L
            /\ d = Fields (get_RadarState_from_vision L vEgo vEgoModel))).
Proof.
  destruct (@get_lead_cases ext vEgo ready tracks L vEgoModel
              low_speed_override m)
    as [d [H [[-> _]|[[t [Hin [-> _]]]|[Hr [Hp ->]]]]]];
    eexists; (split; [exact H|]); eauto.
Qed.

(** A forward collision warning is raised by radar leads only: the record
    returned has [fcw] set if and only if it is the record of a track and
    the probability of the hypothesis is above 0.9.  Every record returned
    has [status] set and carries that probability as [modelProb]. *)
Theorem get_lead_fcw (ext : Externals) (vEgo : Q) (ready : bool)
  (tracks : Tracks) (L : LeadMsg.t) (vEgoModel : Q)
  (low_speed_override : bool) (m : Z) :
  exists d,
    get_lead vEgo ready tracks L vEgoModel low_speed_override m = Ok d
    /\ forall r,
         d = Fields r ->
         (Lead.fcw r = true <-> Lead.radar r = true /\ 0.9 < LeadMsg.prob L)
         /\ Lead.status r = true
         /\ Lead.modelProb r = LeadMsg.prob L.
Proof.
  destruct (@get_lead_cases ext vEgo ready tracks L vEgoModel
              low_speed_override m)
    as [d [H [[-> _]|[[t [Hin [-> _]]]|[Hr [Hp ->]]]]]];
    eexists; (split; [exact H|]).
  - discriminate.
  - intros r [= <-]. simpl. unfold Track.is_potential_fcw.
    rewrite Qltb_lt. tauto.
  - intros r [= <-]. simpl. repeat split; try discriminate.
    intros [Hf _]. discriminate Hf.
Qed.

(** At 4 m/s and above no track is a potential low speed lead: the
    override changes nothing, and the selector returns what it returns
    without it. *)
Theorem override_inactive_at_speed (ext : Externals) (vEgo : Q)
  (ready : bool) (tracks : Tracks) (L : LeadMsg.t) (vEgoModel : Q) (m : Z) :
  4 <= vEgo ->
  get_lead vEgo ready tracks L vEgoModel true m
  = get_lead vEgo ready tracks L vEgoModel false m.
Proof.
  intro Hv. unfold get_lead.
  destruct (get_lead_vision vEgo ready tracks L vEgoModel m) as [d|e];
    [|reflexivity].
  simpl bind. apply get_lead_low_speed_none.
  apply filter_none. intros c _.
  unfold Track.potential_low_speed_lead, V_EGO_STATIONARY.
  apply Qltb_ge in Hv. rewrite Hv, andb_false_r. reflexivity.
Qed.

Lemma override_inactive_at_speed_witness :
  get_lead (ext := Reference.externals) 20 true tracks_low_speed vision_lead
    20 true 0
  = get_lead 20 true tracks_low_speed vision_lead 20 false 0.
Proof.
  apply (@override_inactive_at_speed Reference.externals).
  intro H. discriminate H.
Defined.

(** With the override on, the lead returned is never farther than a track
    that qualifies as a potential low speed lead: where there is such a
    track, the selector returns a record with [status] set whose [dRel] is at
    most the [dRel] of that track. *)
Theorem override_never_farther (ext : Externals) (vEgo : Q) (ready : bool)
  (tracks : Tracks) (L : LeadMsg.t) (vEgoModel : Q) (m : Z) (c : Track.t) :
  In c (PyDict.values tracks) ->
  qualifies vEgo c ->
  exists r,
    get_lead vEgo ready tracks L vEgoModel true m = Ok (Fields r)
    /\ Lead.status r = true
    /\ Lead.dRel r <= Track.dRel c.
Proof.
  intros Hin Hq. unfold get_lead.
  destruct (get_lead_vision_returns vEgo ready tracks L vEgoModel m)
    as [d0 [-> Hd0]].
  simpl bind.
  destruct (low_speed_tracks vEgo tracks) as [|c0 rest] eqn:E.
  - exfalso. assert (Hc : In c (low_speed_tracks vEgo tracks))
      by (apply low_speed_tracks_In; auto).
    rewrite E in Hc. exact Hc.
  - assert (Hle : Track.dRel (min_from Track.dRel c0 rest) <= Track.dRel c).
    { apply min_from_le. rewrite <- E. apply low_speed_tracks_In. auto. }
    destruct (@get_lead_low_speed_some ext vEgo tracks L m d0 c0 rest E Hd0)
      as [b [Hb Hiff]].
    rewrite Hb. destruct b.
    + eexists. split; [reflexivity|]. split; [reflexivity | exact Hle].
    + destruct Hd0 as [->|[r [-> Hr]]].
      * exfalso. assert (Hf : false = true)
          by (apply Hiff; left; reflexivity).
        discriminate Hf.
      * exists r. split; [reflexivity|]. split; [exact Hr|].
        apply Qle_trans with (Track.dRel (min_from Track.dRel c0 rest));
          [|exact Hle].
        apply Qnot_lt_le. intro Hlt.
        assert (Hf : false = true).
        { apply Hiff. right. exists (Lead.dRel r). split; [reflexivity|].
          exact Hlt. }
        discriminate Hf.
Qed.

Lemma override_never_farther_witness :
  In (radar_track 2 10 0 0) (PyDict.values tracks_low_speed)
  /\ qualifies 2 (radar_track 2 10 0 0)
  /\ exists r,
       get_lead (ext := Reference.externals) 2 true tracks_low_speed
         vision_lead 2 true 0 = Ok (Fields r)
       /\ Lead.status r = true
       /\ Lead.dRel r <= Track.dRel (radar_track 2 10 0 0).
Proof.
  assert (Hin : In (radar_track 2 10 0 0) (PyDict.values tracks_low_speed))
    by (right; left; reflexivity).
  assert (Hq : qualifies 2 (radar_track 2 10 0 0))
    by (repeat split).
  split; [exact Hin|]. split; [exact Hq|].
  exact (@override_never_farther Reference.externals 2 true tracks_low_speed
           vision_lead 2 0 (radar_track 2 10 0 0) Hin Hq).
Defined.

(** ** Further properties of the path classification *)

Section PathTotal.
Context {ext : Externals}.

Lemma py_index_last (A : Type) (l : list A) :
  l <> [] -> exists a, py_index l (-1) = Ok a.
Proof.
  intro Hne. unfold py_index.
  assert (Hlen : (0 < length l)%nat)
    by (destruct l; [contradiction | simpl; lia]).
  change ((-1 <? 0)%Z) with true. cbv iota.
  destruct ((Z.of_nat (length l) + -1 <? 0)%Z
            || (Z.of_nat (length l) <=? Z.of_nat (length l) + -1)%Z)%bool eqn:E.
  - exfalso. apply orb_true_iff in E as [E|E].
    + apply Z.ltb_lt in E. lia.
    + apply Z.leb_le in E. lia.
  - destruct (nth_error l (Z.to_nat (Z.of_nat (length l) + -1))) eqn:En.
    + eexists. reflexivity.
    + exfalso. apply nth_error_None in En. lia.
Qed.

Lemma interp_returns (xv : Q) (xp fp : list Q) :
  xp <> [] -> length xp = length fp -> exists v, interp xv xp fp = Ok v.
Proof.
  intros Hne Hlen. unfold interp. rewrite Hlen, Nat.eqb_refl. simpl negb.
  cbv iota.
  destruct xp as [|x0 xp]; [contradiction|].
  destruct fp as [|f0 fp]; [discriminate Hlen|].
  simpl combine. cbv iota beta.
  destruct (xv <=? x0); eexists; reflexivity.
Qed.

End PathTotal.

Section PathTotal2.
Context {ext : Externals}.

Local Arguments py_index : simpl never.
Local Arguments interp : simpl never.

Lemma np_add_same_length (a b : list Q) :
  length a = length b ->
  np_add a b = Ok (map (fun p => fst p + snd p) (combine a b)).
Proof.
  intro H. unfold np_add. rewrite H, Nat.eqb_refl. reflexivity.
Qed.

(** The centre line, when there is one, has as many points as [ll_x]. *)
Lemma lane_centre_returns (m : ModelV2.t) (lane_width : Q) :
  well_formed m ->
  exists ox oy,
    lane_centre (Some m) lane_width = Ok (ox, oy)
    /\ forall cy, oy = Some cy ->
                  exists lx, ox = Some lx /\ lx <> []
                             /\ length lx = length cy.
Proof.
  intros [Ht [_ [_ [Hp Hl]]]]. unfold lane_centre.
  assert (Hnone : exists ox oy,
             Ok (None, None) = Ok (ox, oy)
             /\ forall cy : list Q, oy = Some cy ->
                  exists lx : list Q, ox = Some lx /\ lx <> []
                                      /\ length lx = length cy).
  { exists None, None. split; [reflexivity|]. discriminate. }
  simpl is_some. unfold and_then at 1. simpl bind.
  destruct (0 <? lane_width); [|exact Hnone].
  destruct (ModelV2.laneLines m) as [|l0 [|l1 [|l2 [|l3 [|l4 ls]]]]];
    try exact Hnone.
  destruct (ModelV2.laneLineProbs m) as [|p0 [|p1 [|p2 [|p3 [|p4 ps]]]]];
    try discriminate Hp.
  inversion Hl as [|? ? _ Hl1]; subst.
  inversion Hl1 as [|? ? [Hx1 Hy1] Hl2]; subst.
  inversion Hl2 as [|? ? [Hx2 Hy2] _]; subst.
  change (py_index [l0; l1; l2; l3] 1) with (Ok l1).
  change (py_index [l0; l1; l2; l3] 2) with (Ok l2).
  change (py_index [p0; p1; p2; p3] 1) with (Ok p1).
  change (py_index [p0; p1; p2; p3] 2) with (Ok p2).
  change (length [l0; l1; l2; l3] =? 4)%nat with true.
  cbv iota. unfold bind at 1. unfold bind at 1.
  rewrite Hx1, Nat.eqb_refl. cbv iota beta. unfold bind at 1 2 3 4.
  assert (Hne : XYLine.x l1 <> []).
  { intro E. rewrite E in Hx1. simpl in Hx1. lia. }
  destruct ((MIN_LANE_PROB <? p1) && (MIN_LANE_PROB <? p2));
    [|destruct (MIN_LANE_PROB <? p1); [|destruct (MIN_LANE_PROB <? p2)]].
  - rewrite np_add_same_length by congruence. unfold bind.
    do 2 eexists. split; [reflexivity|]. intros cy [= <-].
    exists (XYLine.x l1). split; [reflexivity|]. split; [exact Hne|].
    rewrite !length_map, length_combine. lia.
  - do 2 eexists. split; [reflexivity|]. intros cy [= <-].
    exists (XYLine.x l1). split; [reflexivity|]. split; [exact Hne|].
    rewrite length_map. congruence.
  - do 2 eexists. split; [reflexivity|]. intros cy [= <-].
    exists (XYLine.x l1). split; [reflexivity|]. split; [exact Hne|].
    rewrite length_map. congruence.
  - do 2 eexists. split; [reflexivity|]. discriminate.
Qed.

Lemma use_model_path_returns (env : PathEnv.t) (c : Track.t)
  (mx : list Q) :
  PathEnv.md_x env = Some mx -> mx <> [] ->
  (forall cy, PathEnv.c_y env = Some cy ->
              exists lx, PathEnv.ll_x env = Some lx /\ lx <> []
                         /\ length lx = length cy) ->
  exists b, use_model_path env c = Ok b.
Proof.
  intros Hx Hne Hc. unfold use_model_path. rewrite Hx.
  destruct (py_index_last Hne) as [xl Hxl].
  match goal with
  | |- exists b, or_else _ ?second = Ok b =>
      assert (H2 : exists b2, second = Ok b2)
  end.
  { destruct (PathEnv.c_y env) as [cy|] eqn:Ec.
    - destruct (Hc cy eq_refl) as [lx [Hlx [Hl _]]]. rewrite Hlx.
      destruct (py_index_last Hl) as [ll Hll].
      simpl. rewrite Hxl. simpl. rewrite Hll. simpl.
      eexists. reflexivity.
    - eexists. reflexivity. }
  destruct H2 as [b2 H2]. rewrite H2.
  destruct (is_some (PathEnv.md_y env)); simpl.
  - rewrite Hxl. simpl.
    destruct (Track.dRel c <=? xl); eexists; reflexivity.
  - eexists. reflexivity.
Qed.

End PathTotal2.

Section PathTotal3.
Context {ext : Externals}.

Local Arguments py_index : simpl never.
Local Arguments interp : simpl never.

Lemma path_env_returns (m : ModelV2.t) (lane_width : Q) :
  well_formed m ->
  exists env,
    path_env (Some m) lane_width = Ok env
    /\ PathEnv.md_x env = Some (XYLine.x (ModelV2.position m))
    /\ PathEnv.md_y env = Some (XYLine.y (ModelV2.position m))
    /\ forall cy, PathEnv.c_y env = Some cy ->
                  exists lx, PathEnv.ll_x env = Some lx /\ lx <> []
                             /\ length lx = length cy.
Proof.
  intro Hw. destruct (lane_centre_returns lane_width Hw) as [ox [oy [Hl Hc]]].
  unfold path_env. rewrite Hl. simpl.
  eexists. split; [reflexivity|]. simpl. auto.
Qed.

Lemma track_dPath_returns (m : ModelV2.t) (env : PathEnv.t) (c : Track.t) :
  well_formed m ->
  PathEnv.md_x env = Some (XYLine.x (ModelV2.position m)) ->
  PathEnv.md_y env = Some (XYLine.y (ModelV2.position m)) ->
  (forall cy, PathEnv.c_y env = Some cy ->
              exists lx, PathEnv.ll_x env = Some lx /\ lx <> []
                         /\ length lx = length cy) ->
  exists dPath, track_dPath env c = Ok dPath.
Proof.
  intros [_ [Hne [Hlen _]]] Hx Hy Hc. unfold track_dPath.
  destruct (@use_model_path_returns ext env c _ Hx Hne Hc) as [[|] ->]; simpl.
  - rewrite Hx, Hy. simpl.
    destruct (@interp_returns (Track.dRel c) _ _ Hne Hlen) as [v ->].
    simpl. eexists. reflexivity.
  - destruct (PathEnv.c_y env) as [cy|] eqn:Ec.
    + destruct (Hc cy eq_refl) as [lx [-> [Hl Hlen']]]. simpl.
      destruct (@interp_returns (Track.dRel c) _ _ Hl Hlen') as [v ->].
      simpl. eexists. reflexivity.
    + eexists. reflexivity.
Qed.

Lemma for_each_total (A S : Type) (body : S -> A -> result S) (l : list A) :
  (forall s a, In a l -> exists s', body s a = Ok s') ->
  forall s, exists s', for_each body l s = Ok s'.
Proof.
  induction l as [|a l IH]; intros H s; simpl.
  - eexists. reflexivity.
  - destruct (H s a (or_introl eq_refl)) as [s1 ->]. simpl.
    apply IH. intros s2 b Hb. apply H. right. exact Hb.
Qed.

(** The dictionaries of the corridors have distinct keys: their records
    can be listed by key. *)
Lemma classified_lists (md : option ModelV2.t) (mix : Z) (env : PathEnv.t)
  (h : Q) (cs : list Track.t) (s : PathState.t) :
  for_each (classify_track md mix env h) cs
    {| PathState.leads_left := PyDict.empty Q PathLead.t;
       PathState.leads_center := PyDict.empty Q PathLead.t;
       PathState.leads_right := PyDict.empty Q PathLead.t |} = Ok s ->
  exists ll lr,
    by_sorted_keys (PathState.leads_left s) = Ok ll
    /\ by_sorted_keys (PathState.leads_right s) = Ok lr.
Proof.
  intro Es. apply for_each_classify in Es as [lds [_ ->]].
  pose proof (fun X => fold_store_leads_of h lds
                {| PathState.leads_left := PyDict.empty Q PathLead.t;
                   PathState.leads_center := PyDict.empty Q PathLead.t;
                   PathState.leads_right := PyDict.empty Q PathLead.t |}
                X) as HX.
  pose proof (HX LeftCorridor) as HL.
  pose proof (HX RightCorridor) as HR.
  simpl leads_of in HL, HR.
  fold (corridor_dict h LeftCorridor lds) in HL.
  fold (corridor_dict h RightCorridor lds) in HR.
  rewrite HL, HR.
  rewrite !by_sorted_keys_values by apply corridor_dict_distinct.
  do 2 eexists. split; reflexivity.
Qed.

(** On a well formed model message with a lead hypothesis, the path
    classification returns. *)
Lemma adjacent_leads_returns (v_ego : Q) (m : ModelV2.t) (lane_width : Q)
  (clusters : Tracks) (mix : Z) :
  well_formed m ->
  ModelV2.leadsV3 m <> [] ->
  exists out,
    get_path_adjacent_leads v_ego (Some m) lane_width clusters mix = Ok out.
Proof.
  intros Hw Hl. unfold get_path_adjacent_leads.
  destruct (Nat.eqb (PyDict.len clusters) 0); [eexists; reflexivity|].
  destruct (path_env_returns lane_width Hw) as [env [-> [Hx [Hy Hc]]]].
  simpl bind.
  match goal with
  | |- context [for_each ?f ?l ?s0] =>
      destruct (@for_each_total _ _ f l) with (s := s0) as [s Es]
  end.
  { intros s c _. unfold classify_track, track_lead.
    destruct (@track_dPath_returns m env c Hw Hx Hy Hc) as [dPath ->]. simpl.
    unfold path_lead. simpl.
    destruct (ModelV2.leadsV3 m) as [|lead0 leads]; [contradiction|].
    change (py_index (lead0 :: leads) 0) with (Ok lead0). simpl.
    eexists. reflexivity. }
  rewrite Es. simpl bind.
  destruct (classified_lists _ _ _ _ _ Es) as [ll [lr [-> ->]]].
  simpl. eexists. reflexivity.
Qed.

End PathTotal3.

Section PathOrigin.
Context {ext : Externals}.

Lemma Forall2_In_r (A B : Type) (R : A -> B -> Prop) (l : list A)
  (l' : list B) (b : B) :
  Forall2 R l l' -> In b l' -> exists a, In a l /\ R a b.
Proof.
  induction 1 as [|a0 b0 l l' H0 HF IH]; intro Hin; [destruct Hin|].
  destruct Hin as [->|Hin].
  - exists a0. split; [left; reflexivity | exact H0].
  - destruct (IH Hin) as [a [Ha HR]]. exists a. split; [right|]; assumption.
Qed.

(** What a record of the loop holds. *)
Lemma track_lead_record (md : option ModelV2.t) (mix : Z) (env : PathEnv.t)
  (c : Track.t) (ld : PathLead.t) :
  track_lead md mix env c = Ok ld ->
  exists m lead0 rest,
    md = Some m
    /\ ModelV2.leadsV3 m = lead0 :: rest
    /\ track_dPath env c = Ok (PathLead.dPath ld)
    /\ PathLead.lead ld
       = Track.get_RadarState2 c (LeadMsg.prob lead0) lead0 mix
    /\ PathLead.vLat ld
       = math_sqrt ((10 * PathLead.dPath ld) ^ 2 + Track.dRel c ^ 2).
Proof.
  unfold track_lead. destruct (track_dPath env c) as [dPath|e];
    [|discriminate].
  simpl bind. unfold path_lead.
  destruct md as [m|]; [|discriminate]. simpl bind.
  destruct (ModelV2.leadsV3 m) as [|lead0 rest] eqn:E; [discriminate|].
  change (py_index (lead0 :: rest) 0) with (Ok lead0). simpl bind.
  intros [= <-]. exists m, lead0, rest. repeat split. exact E.
Qed.

Lemma store_none (h : Q) (X : Corridor) (lds : list PathLead.t) :
  (forall ld, in_corridor h X ld = false) ->
  corridor_dict h X lds = [].
Proof.
  intro H. unfold corridor_dict.
  assert (G : forall acc,
             fold_left (store_some Qeq_bool path_key (in_corridor h X)) lds acc
             = acc).
  { induction lds as [|ld lds IH]; intro acc; simpl; [reflexivity|].
    unfold store_some at 2. rewrite H. apply IH. }
  apply G.
Qed.

(** A record returned by the path classification is the record of a
    track of the map. *)
Lemma emitted_track_lead (v_ego : Q) (md : option ModelV2.t)
  (lane_width : Q) (clusters : Tracks) (mix : Z)
  (out : list PathLead.t * list PathLead.t * list PathLead.t)
  (X : Corridor) (ld : PathLead.t) :
  get_path_adjacent_leads v_ego md lane_width clusters mix = Ok out ->
  In ld (emitted out X) ->
  exists env c,
    In c (PyDict.values clusters) /\ track_lead md mix env c = Ok ld.
Proof.
  destruct out as [[ll lc] lr]. intros H Hin.
  destruct (Nat.eq_dec (PyDict.len clusters) 0) as [E|E].
  - unfold get_path_adjacent_leads in H. rewrite E in H. simpl in H.
    injection H as <- <- <-. destruct X; destruct Hin.
  - destruct (@get_path_adjacent_leads_lists ext v_ego md lane_width clusters
                mix _ _ _ E H)
      as [env [lds [Henv [HF [-> [-> ->]]]]]].
    apply emitted_values in Hin.
    apply corridor_dict_values in Hin as [l1 [l2 [Hl _]]].
    assert (Hld : In ld lds) by (rewrite Hl; apply in_elt).
    destruct (@Forall2_In_r _ _ _ _ _ ld HF Hld) as [c [Hc Ht]].
    exists env, c. auto.
Qed.

End PathOrigin.

(** Without a model message the path classification returns three empty
    lists when there is no track, and raises [AttributeError] when there is
    one. *)
Theorem no_model_no_paths (ext : Externals) (v_ego lane_width : Q)
  (clusters : Tracks) (mix : Z) :
  get_path_adjacent_leads v_ego None lane_width clusters mix
  = match clusters with
    | [] => Ok ([], [], [])
    | _ :: _ => Raise AttributeError
    end.
Proof.
  destruct clusters; reflexivity.
Qed.

(** Every record returned by the path classification is the projected
    record of a track of the map and of the first lead hypothesis,
    [leadsV3[0]], with [vLat = sqrt((10 dPath)^2 + dRel^2)]: it has
    [status] and [radar] set and the identifier of the track. *)
Theorem path_leads_are_tracks (ext : Externals) (v_ego : Q)
  (md : option ModelV2.t) (lane_width : Q) (clusters : Tracks) (mix : Z)
  (ll lc lr : list PathLead.t) :
  get_path_adjacent_leads v_ego md lane_width clusters mix = Ok (ll, lc, lr) ->
  forall X ld,
    In ld (emitted (ll, lc, lr) X) ->
    exists m lead0 rest c,
      md = Some m
      /\ ModelV2.leadsV3 m = lead0 :: rest
      /\ In c (PyDict.values clusters)
      /\ PathLead.lead ld
         = Track.get_RadarState2 c (LeadMsg.prob lead0) lead0 mix
      /\ PathLead.vLat ld
         = math_sqrt ((10 * PathLead.dPath ld) ^ 2 + Track.dRel c ^ 2)
      /\ Lead.status (PathLead.lead ld) = true
      /\ Lead.radar (PathLead.lead ld) = true
      /\ Lead.radarTrackId (PathLead.lead ld) = Track.identifier c.
Proof.
  intros H X ld Hin.
  destruct (@emitted_track_lead ext _ _ _ _ _ _ X ld H Hin)
    as [env [c [Hc Ht]]].
  destruct (@track_lead_record ext _ _ _ _ _ Ht)
    as [m [lead0 [rest [-> [El [_ [Hr Hv]]]]]]].
  exists m, lead0, rest, c. rewrite Hr.
  repeat (split; [assumption || reflexivity|]). reflexivity.
Qed.

Lemma path_leads_are_tracks_witness :
  exists ll lc lr,
    get_path_adjacent_leads (ext := Reference.externals) 20
      (Some (path_model 100 0)) 3.6 tracks_corridor_split 0
    = Ok (ll, lc, lr)
    /\ forall X ld,
         In ld (emitted (ll, lc, lr) X) ->
         exists m lead0 rest (c : @Track.t Reference.externals),
           Some (path_model 100 0) = Some m
           /\ ModelV2.leadsV3 m = lead0 :: rest
           /\ In c (PyDict.values tracks_corridor_split)
           /\ PathLead.lead ld
              = Track.get_RadarState2 c (LeadMsg.prob lead0) lead0 0
           /\ PathLead.vLat ld
              = @math_sqrt Reference.externals
                  ((10 * PathLead.dPath ld) ^ 2 + Track.dRel c ^ 2)
           /\ Lead.status (PathLead.lead ld) = true
           /\ Lead.radar (PathLead.lead ld) = true
           /\ Lead.radarTrackId (PathLead.lead ld) = Track.identifier c.
Proof.
  do 3 eexists.
  split; [vm_compute; reflexivity|].
  apply (@path_leads_are_tracks Reference.externals 20
           (Some (path_model 100 0)) 3.6 tracks_corridor_split 0).
  vm_compute. reflexivity.
Defined.

(** A lane width that is not positive leaves the center corridor empty:
    every record goes to the left or to the right. *)
Theorem no_center_without_lane_width (ext : Externals) (v_ego : Q)
  (md : option ModelV2.t) (lane_width : Q) (clusters : Tracks) (mix : Z)
  (ll lc lr : list PathLead.t) :
  lane_width <= 0 ->
  get_path_adjacent_leads v_ego md lane_width clusters mix = Ok (ll, lc, lr) ->
  lc = []
  /\ (length ll + length lr <= PyDict.len clusters)%nat.
Proof.
  intros Hw H.
  destruct (Nat.eq_dec (PyDict.len clusters) 0) as [E|E].
  - unfold get_path_adjacent_leads in H. rewrite E in H. simpl in H.
    injection H as <- <- <-. split; [reflexivity | simpl; lia].
  - destruct (@get_path_adjacent_leads_lists ext v_ego md lane_width clusters
                mix _ _ _ E H)
      as [env [lds [Henv [HF [-> [-> ->]]]]]].
    assert (Hc : corridor_dict (lane_width / 2) CenterCorridor lds = []).
    { apply store_none. intro ld. unfold in_corridor.
      destruct (corridor_eqb (corridor (lane_width / 2) ld) CenterCorridor)
        eqn:Ec; [|reflexivity].
      exfalso. apply corridor_eqb_eq in Ec.
      apply corridor_center in Ec as [Ha _].
      pose proof (Qabs_nonneg (PathLead.dPath ld)) as Hn.
      assert (Hh : lane_width / 2 <= 0).
      { apply Qle_shift_div_r; [reflexivity | lra]. }
      lra. }
    rewrite Hc. split; [reflexivity|].
    pose proof (corridor_dict_total (lane_width / 2) lds) as Ht.
    rewrite Hc in Ht. simpl length in Ht.
    assert (Hlen : length lds = PyDict.len clusters).
    { apply Forall2_length in HF. unfold PyDict.values in HF.
      rewrite length_map in HF. symmetry. exact HF. }
    unfold PyDict.values. rewrite !length_map.
    rewrite !(Permutation_length (sorted_perm _ _)). lia.
Qed.

Lemma no_center_without_lane_width_witness :
  exists ll lc lr,
    get_path_adjacent_leads (ext := Reference.externals) 20
      (Some (path_model 100 0)) 0 tracks_corridor_split 0
    = Ok (ll, lc, lr)
    /\ lc = []
    /\ (length ll + length lr <= PyDict.len tracks_corridor_split)%nat.
Proof.
  do 3 eexists.
  split; [vm_compute; reflexivity|].
  apply (@no_center_without_lane_width Reference.externals 20
           (Some (path_model 100 0)) 0 tracks_corridor_split 0).
  - intro H. discriminate H.
  - vm_compute. reflexivity.
Defined.

(** The records are projected with the first lead hypothesis: on a well
    formed model message without hypothesis, the path classification of a
    track map that is not empty raises [IndexError]. *)
Theorem path_leads_need_hypothesis (ext : Externals) (v_ego : Q)
  (m : ModelV2.t) (lane_width : Q) (clusters : Tracks) (mix : Z) :
  well_formed m ->
  ModelV2.leadsV3 m = [] ->
  clusters <> [] ->
  get_path_adjacent_leads v_ego (Some m) lane_width clusters mix
  = Raise IndexError.
Proof.
  intros Hw Hl Hne. unfold get_path_adjacent_leads.
  destruct clusters as [|[k c] clusters]; [contradiction|].
  simpl PyDict.len. simpl Nat.eqb. cbv iota.
  destruct (@path_env_returns ext m lane_width Hw) as [env [-> [Hx [Hy Hc]]]].
  simpl bind. simpl PyDict.values. simpl for_each.
  unfold classify_track at 1, track_lead.
  destruct (@track_dPath_returns ext m env c Hw Hx Hy Hc) as [dPath ->].
  simpl bind. unfold path_lead. simpl bind. rewrite Hl. reflexivity.
Qed.

Lemma path_leads_need_hypothesis_witness :
  get_path_adjacent_leads (ext := Reference.externals) 20
    (Some no_hypothesis_model) 3.6 tracks_corridor_split 0
  = Raise IndexError.
Proof.
  apply (@path_leads_need_hypothesis Reference.externals).
  - unfold well_formed. simpl. repeat split; try lia; try discriminate.
    constructor.
  - reflexivity.
  - discriminate.
Defined.

(** ** Further properties of the track map *)

Section TrackMapFacts.
Context {ext : Externals}.

Lemma collect_points_snoc (pts : list RadarPoint.t) (pt : RadarPoint.t) :
  RadarD.collect_points (pts ++ [pt])
  = PyDict.set Z.eqb (RadarD.collect_points pts) (RadarPoint.trackId pt)
      (RadarPoint.dRel pt, RadarPoint.yRel pt, RadarPoint.vRel pt,
       RadarPoint.measured pt).
Proof. unfold RadarD.collect_points. rewrite fold_left_app. reflexivity. Qed.

(** The entry of [ar_pts] for an identifier is its last point. *)
Lemma collect_points_get (pts : list RadarPoint.t) (id : Z) :
  PyDict.get Z.eqb (RadarD.collect_points pts) id
  = option_map (fun pt => (RadarPoint.dRel pt, RadarPoint.yRel pt,
                           RadarPoint.vRel pt, RadarPoint.measured pt))
      (last_point pts id).
Proof.
  unfold last_point. induction pts as [|pt pts IH] using rev_ind.
  - reflexivity.
  - rewrite collect_points_snoc, rev_unit. simpl find.
    destruct (Z.eqb_spec (RadarPoint.trackId pt) id) as [<-|Hne].
    + apply (dict_get_set_same Z.eqb Zeqb_eq).
    + rewrite get_set_other by exact Hne. exact IH.
Qed.

Lemma get_not_key (V : Type) (d : PyDict.t Z V) (k : Z) :
  ~ In k (PyDict.keys d) -> PyDict.get Z.eqb d k = None.
Proof.
  intro H. destruct (PyDict.get Z.eqb d k) eqn:E; [|reflexivity].
  exfalso. apply H. apply (dict_mem_keys Z.eqb Zeqb_eq).
  unfold PyDict.mem. rewrite E. reflexivity.
Qed.

Lemma get_key (V : Type) (d : PyDict.t Z V) (k : Z) (v : V) :
  PyDict.get Z.eqb d k = Some v -> In (k, v) d.
Proof.
  induction d as [|[k0 v0] d IH]; simpl; [discriminate|].
  destruct (Z.eqb_spec k0 k) as [->|_].
  - intros [= ->]. left. reflexivity.
  - intro H. right. apply IH, H.
Qed.

(** The track that a call of [update] leaves under an identifier: none if
    the frame has no point for it, and otherwise the track found there, or
    a new one, updated with the last point of the frame for it. *)
Lemma update_tracks_get (self : RadarD.t) (ShowRadarInfo MixRadarInfo : Z)
  (sm : SubMaster.t) (rr : option RadarData.t) (id : Z) :
  let s1 := RadarD.update_tracks self ShowRadarInfo MixRadarInfo sm rr in
  PyDict.get Z.eqb (RadarD.tracks s1) id
  = match last_point (frame_points rr) id with
    | Some pt =>
        let v_lead :=
          RadarPoint.vRel pt + Deque.oldest (RadarD.v_ego_hist s1) in
        Some (Track.update
                match PyDict.get Z.eqb (RadarD.tracks self) id with
                | Some t => t
                | None => Track.init id v_lead (RadarD.kalman_params self)
                end
                (RadarPoint.dRel pt) (RadarPoint.yRel pt)
                (RadarPoint.vRel pt) v_lead (RadarPoint.measured pt))
    | None => None
    end.
Proof.
  cbv zeta. unfold RadarD.update_tracks. simpl.
  fold (frame_points rr).
  pose proof (collect_points_get (frame_points rr) id) as Hg.
  set (ar := RadarD.collect_points (frame_points rr)) in *.
  set (hist := if SubMaster.updated_carState sm
               then Deque.append (RadarD.v_ego_hist self)
                      (SubMaster.carState_vEgo sm)
               else RadarD.v_ego_hist self).
  destruct (last_point (frame_points rr) id) as [pt|]; simpl in Hg.
  - rewrite (upsert_get (RadarD.kalman_params self) hist ar
               (RadarD.evict (RadarD.tracks self) ar) id
               (RadarPoint.dRel pt) (RadarPoint.yRel pt) (RadarPoint.vRel pt)
               (RadarPoint.measured pt)
               (collect_points_NoDup (frame_points rr)) (get_key _ _ Hg)).
    rewrite evict_filter, (get_filter_kept (PyDict.mem Z.eqb ar)).
    + reflexivity.
    + unfold PyDict.mem. rewrite Hg. reflexivity.
  - assert (Hn : ~ In id (PyDict.keys ar)).
    { intro H. apply (dict_mem_keys Z.eqb Zeqb_eq) in H.
      unfold PyDict.mem in H. rewrite Hg in H. discriminate H. }
    rewrite upsert_get_other by exact Hn.
    apply get_not_key. rewrite evict_keys. tauto.
Qed.

Lemma last_point_seen (rr : option RadarData.t) (id : Z) :
  existsb (Z.eqb id) (frame_ids rr) = true
  <-> last_point (frame_points rr) id <> None.
Proof.
  unfold frame_ids, last_point. rewrite existsb_exists. split.
  - intros [k [Hin Hk]] Hn. apply Z.eqb_eq in Hk. subst k.
    apply in_map_iff in Hin as [pt [Hid Hpt]].
    assert (Hf : (RadarPoint.trackId pt =? id)%Z = false).
    { apply (find_none _ _ Hn pt). apply in_rev in Hpt. exact Hpt. }
    apply Z.eqb_neq in Hf. contradiction.
  - intro Hn. destruct (find _ (rev (frame_points rr))) as [pt|] eqn:E;
      [|contradiction].
    apply find_some in E as [Hin Hk]. apply Z.eqb_eq in Hk.
    exists id. split; [|apply Z.eqb_refl].
    apply in_map_iff. exists pt. split; [exact Hk|].
    apply in_rev. exact Hin.
Qed.

Lemma calls_snoc (self : RadarD.t) (cs : list Call.t) (c : Call.t) :
  calls self (cs ++ [c]) = call (calls self cs) c.
Proof. unfold calls. rewrite fold_left_app. reflexivity. Qed.

Lemma streak_snoc (id : Z) (cs : list Call.t) (c : Call.t) :
  streak id (cs ++ [c]) = if seen id c then S (streak id cs) else O.
Proof. unfold streak. rewrite fold_left_app. reflexivity. Qed.

Lemma call_tracks (self : RadarD.t) (c : Call.t) :
  RadarD.tracks (call self c)
  = RadarD.tracks (RadarD.update_tracks self (Call.ShowRadarInfo c)
                     (Call.MixRadarInfo c) (Call.sm c) (Call.rr c)).
Proof. apply update_tracks_kept. Qed.

End TrackMapFacts.

(** The counter of a track is the number of frames in a row, up to the
    last one, that hold its identifier: a track whose identifier is missing
    from a frame is dropped, and starts again from a new track when the
    identifier comes back.  The track map holds a track for an identifier
    exactly when the last frame holds it, under its own identifier. *)
Theorem cnt_counts_frames_in_a_row (ext : Externals) (self : RadarD.t)
  (cs : list Call.t) (id : Z) :
  RadarD.tracks self = [] ->
  match PyDict.get Z.eqb (RadarD.tracks (calls self cs)) id with
  | Some t => Track.cnt t = streak id cs /\ (0 < streak id cs)%nat
              /\ Track.identifier t = id
  | None => streak id cs = 0%nat
  end.
Proof.
  intro H0. induction cs as [|c cs IH] using rev_ind.
  - simpl. rewrite H0. reflexivity.
  - rewrite calls_snoc, streak_snoc, call_tracks, update_tracks_get.
    unfold seen.
    pose proof (last_point_seen (Call.rr c) id) as Hs.
    destruct (last_point (frame_points (Call.rr c)) id) as [pt|].
    + assert (E : existsb (Z.eqb id) (frame_ids (Call.rr c)) = true)
        by (apply Hs; discriminate).
      rewrite E. cbv zeta.
      destruct (PyDict.get Z.eqb (RadarD.tracks (calls self cs)) id)
        as [t0|].
      * destruct IH as [Hc [Hp Hi]]. simpl. repeat split; lia || assumption.
      * simpl. rewrite IH. repeat split; lia.
    + destruct (existsb (Z.eqb id) (frame_ids (Call.rr c))); [|reflexivity].
      exfalso. apply Hs; reflexivity.
Qed.

Lemma cnt_counts_frames_in_a_row_witness :
  RadarD.tracks radar_d_005 = []
  /\ match PyDict.get Z.eqb
             (RadarD.tracks (calls radar_d_005 [call_7; call_7; call_7])) 7%Z
     with
     | Some t => Track.cnt t = streak 7%Z [call_7; call_7; call_7]
                 /\ (0 < streak 7%Z [call_7; call_7; call_7])%nat
                 /\ Track.identifier t = 7%Z
     | None => streak 7%Z [call_7; call_7; call_7] = 0%nat
     end.
Proof.
  split; [reflexivity|].
  exact (@cnt_counts_frames_in_a_row Reference.externals radar_d_005
           [call_7; call_7; call_7] 7%Z eq_refl).
Defined.

Section LastPoint.
Context {ext : Externals}.

Lemma last_point_split (pts1 pts2 : list RadarPoint.t) (pt : RadarPoint.t) :
  (forall p, In p pts2 -> RadarPoint.trackId p <> RadarPoint.trackId pt) ->
  last_point (pts1 ++ pt :: pts2) (RadarPoint.trackId pt) = Some pt.
Proof.
  intro H. unfold last_point.
  rewrite rev_app_distr. simpl rev. rewrite <- app_assoc. simpl app.
  assert (G : forall l,
             (forall p, In p l ->
                        RadarPoint.trackId p <> RadarPoint.trackId pt) ->
             forall tl,
               find (fun p => (RadarPoint.trackId p
                               =? RadarPoint.trackId pt)%Z) (l ++ pt :: tl)
               = Some pt).
  { induction l as [|p l IH]; intros Hl tl; simpl.
    - rewrite Z.eqb_refl. reflexivity.
    - destruct (Z.eqb_spec (RadarPoint.trackId p) (RadarPoint.trackId pt))
        as [E|_].
      + exfalso. exact (Hl p (or_introl eq_refl) E).
      + apply IH. intros q Hq. apply Hl. right. exact Hq. }
  apply G. intros p Hp. apply H. apply in_rev. exact Hp.
Qed.

End LastPoint.

(** When a frame holds several points with the same identifier, the last
    one wins: the track holds its values, and it is updated once (its
    counter grows by one, whatever the number of points). *)
Theorem last_point_wins (ext : Externals) (self : RadarD.t)
  (ShowRadarInfo MixRadarInfo : Z) (sm : SubMaster.t)
  (rr : option RadarData.t) (pts1 pts2 : list RadarPoint.t)
  (pt : RadarPoint.t) :
  frame_points rr = pts1 ++ pt :: pts2 ->
  (forall p, In p pts2 -> RadarPoint.trackId p <> RadarPoint.trackId pt) ->
  let self' := fst (RadarD.update self ShowRadarInfo MixRadarInfo sm rr) in
  exists t,
    PyDict.get Z.eqb (RadarD.tracks self') (RadarPoint.trackId pt) = Some t
    /\ Track.dRel t = RadarPoint.dRel pt
    /\ Track.yRel t = RadarPoint.yRel pt
    /\ Track.vRel t = RadarPoint.vRel pt
    /\ Track.measured t = RadarPoint.measured pt
    /\ Track.vLead t
       = RadarPoint.vRel pt + Deque.oldest (RadarD.v_ego_hist self')
    /\ Track.cnt t
       = match PyDict.get Z.eqb (RadarD.tracks self) (RadarPoint.trackId pt)
         with
         | Some t0 => (Track.cnt t0 + 1)%nat
         | None => 1%nat
         end.
Proof.
  intros Hf Hl. cbv zeta.
  rewrite update_tracks_kept, update_tracks_get, Hf.
  rewrite (@last_point_split pts1 pts2 pt Hl).
  destruct (update_state self ShowRadarInfo MixRadarInfo sm rr)
    as [valid [rs ->]].
  eexists. split; [reflexivity|].
  simpl. repeat (split; [reflexivity|]).
  destruct (PyDict.get Z.eqb (RadarD.tracks self) (RadarPoint.trackId pt));
    reflexivity.
Qed.

Lemma last_point_wins_witness :
  frame_points (Some frame_track_7_twice) = [point_7] ++ point_7_again :: []
  /\ (forall p, In p [] ->
                RadarPoint.trackId p <> RadarPoint.trackId point_7_again)
  /\ let self' :=
       fst (RadarD.update radar_d_005 0 0 cycle_inputs
              (Some frame_track_7_twice)) in
     exists t,
       PyDict.get Z.eqb (RadarD.tracks self')
         (RadarPoint.trackId point_7_again) = Some t
       /\ Track.dRel t = RadarPoint.dRel point_7_again
       /\ Track.yRel t = RadarPoint.yRel point_7_again
       /\ Track.vRel t = RadarPoint.vRel point_7_again
       /\ Track.measured t = RadarPoint.measured point_7_again
       /\ Track.vLead t
          = RadarPoint.vRel point_7_again
            + Deque.oldest (RadarD.v_ego_hist self')
       /\ Track.cnt t
          = match PyDict.get Z.eqb (RadarD.tracks radar_d_005)
                    (RadarPoint.trackId point_7_again)
            with
            | Some t0 => (Track.cnt t0 + 1)%nat
            | None => 1%nat
            end.
Proof.
  assert (Hl : forall p, In p [] ->
                 RadarPoint.trackId p <> RadarPoint.trackId point_7_again)
    by (intros p []).
  split; [reflexivity|]. split; [exact Hl|].
  exact (@last_point_wins Reference.externals radar_d_005 0 0 cycle_inputs
           (Some frame_track_7_twice) [point_7] [] point_7_again eq_refl Hl).
Defined.
(** ** Further properties of a cycle: what is published *)

Section Outcome.
Context {ext : Externals}.

(** The outcome of [update], step by step: the state of the tracks, then
    the radar state, whose leads are set as far as the call goes. *)
Lemma update_outcome (self : RadarD.t) (ShowRadarInfo MixRadarInfo : Z)
  (sm : SubMaster.t) (rr : option RadarData.t) :
  let s1 := RadarD.update_tracks self ShowRadarInfo MixRadarInfo sm rr in
  let valid :=
    SubMaster.all_checks sm && Nat.eqb (length (frame_errors rr)) 0 in
  let md := SubMaster.modelV2 sm in
  let lead_of := fun lead low =>
    get_lead (RadarD.v_ego s1) (RadarD.ready s1) (RadarD.tracks s1) lead
      (model_speed md (RadarD.v_ego s1)) low MixRadarInfo in
  exists one two ll lc lr r,
    RadarD.update self ShowRadarInfo MixRadarInfo sm rr
    = (RadarD.set_radar_state s1 valid
         {| RadarState.mdMonoTime := SubMaster.logMonoTime_modelV2 sm;
            RadarState.carStateMonoTime := SubMaster.logMonoTime_carState sm;
            RadarState.radarErrors := frame_errors rr;
            RadarState.leadOne := one;
            RadarState.leadTwo := two;
            RadarState.leadsLeft := ll;
            RadarState.leadsCenter := lc;
            RadarState.leadsRight := lr |}, r)
    /\ match ModelV2.leadsV3 md with
       | lead0 :: lead1 :: _ =>
           match lead_of lead0 true with
           | Raise e => one = StatusOnly false /\ two = StatusOnly false
                        /\ (ll, lc, lr) = ([], [], []) /\ r = Raise e
           | Ok d1 =>
               one = d1
               /\ match lead_of lead1 false with
                  | Raise e => two = StatusOnly false
                               /\ (ll, lc, lr) = ([], [], []) /\ r = Raise e
                  | Ok d2 =>
                      two = d2
                      /\ if RadarD.ready s1 && negb (ShowRadarInfo =? 0)%Z
                         then
                           match get_path_adjacent_leads (RadarD.v_ego s1)
                                   (Some md)
                                   (SubMaster.lateralPlan_laneWidth sm)
                                   (RadarD.tracks s1) MixRadarInfo
                           with
                           | Raise e => (ll, lc, lr) = ([], [], [])
                                        /\ r = Raise e
                           | Ok out => (ll, lc, lr) = out /\ r = Ok tt
                           end
                         else (ll, lc, lr) = ([], [], []) /\ r = Ok tt
                  end
           end
       | _ => one = StatusOnly false /\ two = StatusOnly false
              /\ (ll, lc, lr) = ([], [], []) /\ r = Ok tt
       end.
Proof.
  cbv zeta. unfold RadarD.update.
  fold (frame_errors rr).
  fold (model_speed (SubMaster.modelV2 sm)
          (RadarD.v_ego (RadarD.update_tracks self ShowRadarInfo MixRadarInfo
                           sm rr))).
  set (s1 := RadarD.update_tracks self ShowRadarInfo MixRadarInfo sm rr).
  destruct (ModelV2.leadsV3 (SubMaster.modelV2 sm))
    as [|lead0 [|lead1 rest]];
    try (do 6 eexists; split; [reflexivity | repeat split]).
  cbv zeta.
  cbn [RadarD.v_ego RadarD.ready RadarD.tracks RadarD.mixRadarInfo
       RadarD.showRadarInfo RadarD.set_radar_state].
  change (RadarD.mixRadarInfo s1) with MixRadarInfo.
  change (RadarD.showRadarInfo s1) with ShowRadarInfo.
  destruct (get_lead _ _ _ lead0 _ true _) as [one|e];
    [|do 6 eexists; split; [reflexivity | repeat split]].
  destruct (get_lead _ _ _ lead1 _ false _) as [two|e];
    [|do 6 eexists; split; [reflexivity | repeat split]].
  destruct (RadarD.ready s1 && negb (ShowRadarInfo =? 0)%Z);
    [|do 6 eexists; split; [reflexivity | repeat split]].
  destruct (get_path_adjacent_leads _ _ _ _ _) as [[[ll lc] lr]|e];
    do 6 eexists; (split; [reflexivity | repeat split]).
Qed.

End Outcome.

Section History.
Context {ext : Externals}.

Lemma last_n_all (A : Type) (n : nat) (l : list A) :
  (length l <= n)%nat -> last_n n l = l.
Proof.
  intro H. unfold last_n. replace (length l - n)%nat with 0%nat by lia.
  reflexivity.
Qed.

Lemma last_n_length (A : Type) (n : nat) (l : list A) :
  (length (last_n n l) <= n)%nat.
Proof. unfold last_n. rewrite length_skipn. lia. Qed.

Lemma last_n_snoc (A : Type) (n : nat) (l : list A) (v : A) :
  (0 < n)%nat -> last_n n (last_n n l ++ [v]) = last_n n (l ++ [v]).
Proof.
  intro Hn. destruct (Nat.le_gt_cases (length l) n) as [H|H].
  - rewrite (last_n_all l H). reflexivity.
  - unfold last_n. rewrite !length_app, length_skipn. simpl length.
    replace (length l - (length l - n) + 1 - n)%nat with 1%nat by lia.
    rewrite !skipn_app, !length_skipn, skipn_skipn.
    replace (1 - (length l - (length l - n)))%nat with 0%nat by lia.
    replace (length l + 1 - n - length l)%nat with 0%nat by lia.
    replace (1 + (length l - n))%nat with (length l + 1 - n)%nat by lia.
    reflexivity.
Qed.

(** [append] on a deque that holds at most [delay + 1] elements. *)
Lemma append_items (d : Deque.t) (v : Q) :
  (length (Deque.newer d) <= Deque.delay d)%nat ->
  Deque.items (Deque.append d v)
  = last_n (Deque.delay d + 1) (Deque.items d ++ [v])
  /\ Deque.delay (Deque.append d v) = Deque.delay d
  /\ (length (Deque.newer (Deque.append d v)) <= Deque.delay d)%nat.
Proof.
  intro H. unfold Deque.append, Deque.items.
  destruct (length (Deque.newer d) <? Deque.delay d)%nat eqn:E.
  - apply Nat.ltb_lt in E. simpl. rewrite last_n_all.
    + repeat split. rewrite length_app. simpl. lia.
    + simpl. rewrite length_app. simpl. lia.
  - apply Nat.ltb_ge in E.
    assert (El : length (Deque.newer d) = Deque.delay d) by lia.
    destruct (Deque.newer d ++ [v]) as [|h r] eqn:En.
    + destruct (Deque.newer d); discriminate En.
    + simpl. unfold last_n. simpl length. rewrite En. simpl length.
      assert (Hr : length (h :: r) = (Deque.delay d + 1)%nat).
      { rewrite <- En, length_app. simpl. lia. }
      simpl in Hr.
      replace (S (S (length r)) - (Deque.delay d + 1))%nat with 1%nat by lia.
      simpl. repeat split. lia.
Qed.

Lemma call_history (self : RadarD.t) (c : Call.t) :
  RadarD.v_ego_hist (call self c)
  = (if SubMaster.updated_carState (Call.sm c)
     then Deque.append (RadarD.v_ego_hist self)
            (SubMaster.carState_vEgo (Call.sm c))
     else RadarD.v_ego_hist self)
  /\ RadarD.v_ego (call self c)
     = (if SubMaster.updated_carState (Call.sm c)
        then SubMaster.carState_vEgo (Call.sm c)
        else RadarD.v_ego self)
  /\ RadarD.ready (call self c)
     = (if SubMaster.updated_modelV2 (Call.sm c) then true
        else RadarD.ready self)
  /\ RadarD.kalman_params (call self c) = RadarD.kalman_params self.
Proof.
  unfold call.
  destruct (update_state self (Call.ShowRadarInfo c) (Call.MixRadarInfo c)
              (Call.sm c) (Call.rr c)) as [valid [rs ->]].
  repeat split.
Qed.

End History.

(** Readiness latches: the core is ready from the first call in which the
    model was updated on, and never becomes unready. *)
Theorem ready_latches (ext : Externals) (self : RadarD.t)
  (cs : list Call.t) :
  RadarD.ready (calls self cs)
  = RadarD.ready self
    || existsb (fun c => SubMaster.updated_modelV2 (Call.sm c)) cs.
Proof.
  revert self. induction cs as [|c cs IH]; intro self.
  - simpl. rewrite orb_false_r. reflexivity.
  - change (calls self (c :: cs)) with (calls (call self c) cs).
    rewrite IH. destruct (call_history self c) as [_ [_ [-> _]]].
    simpl existsb.
    destruct (SubMaster.updated_modelV2 (Call.sm c));
      destruct (RadarD.ready self); reflexivity.
Qed.

(** The history of the ego speed holds the last [delay + 1] speeds of the
    car state (with the initial ones while there are fewer), so that
    [v_ego_hist[0]] is the speed [delay] updates of the car state ago;
    [v_ego] is the last speed. *)
Theorem v_ego_hist_window (ext : Externals) (self : RadarD.t)
  (cs : list Call.t) :
  (length (Deque.newer (RadarD.v_ego_hist self))
   <= Deque.delay (RadarD.v_ego_hist self))%nat ->
  let hist := RadarD.v_ego_hist (calls self cs) in
  Deque.items hist
  = last_n (Deque.delay (RadarD.v_ego_hist self) + 1)
      (Deque.items (RadarD.v_ego_hist self) ++ vEgos cs)
  /\ Deque.delay hist = Deque.delay (RadarD.v_ego_hist self)
  /\ RadarD.v_ego (calls self cs) = last (vEgos cs) (RadarD.v_ego self).
Proof.
  intro H. cbv zeta. induction cs as [|c cs IH] using rev_ind.
  - simpl. rewrite app_nil_r, last_n_all; [repeat split|].
    unfold Deque.items. simpl. lia.
  - destruct IH as [Hi [Hd Hv]].
    rewrite calls_snoc.
    destruct (call_history (calls self cs) c) as [-> [-> _]].
    unfold vEgos. rewrite filter_app, map_app. simpl filter.
    destruct (SubMaster.updated_carState (Call.sm c)).
    + simpl map. fold (vEgos cs).
      assert (Hl : (length (Deque.newer (RadarD.v_ego_hist (calls self cs)))
                    <= Deque.delay (RadarD.v_ego_hist (calls self cs)))%nat).
      { pose proof (last_n_length
                      (Deque.delay (RadarD.v_ego_hist self) + 1)
                      (Deque.items (RadarD.v_ego_hist self) ++ vEgos cs))
          as Hlen.
        rewrite <- Hi in Hlen. unfold Deque.items in Hlen. simpl in Hlen.
        lia. }
      destruct (@append_items (RadarD.v_ego_hist (calls self cs))
                  (SubMaster.carState_vEgo (Call.sm c)) Hl)
        as [-> [-> _]].
      rewrite Hi, Hd, last_n_snoc, app_assoc by lia.
      rewrite last_last. repeat split.
    + simpl map. rewrite app_nil_r. fold (vEgos cs).
      repeat split; assumption.
Qed.

Lemma v_ego_hist_window_witness :
  (length (Deque.newer (RadarD.v_ego_hist radar_d_005))
   <= Deque.delay (RadarD.v_ego_hist radar_d_005))%nat
  /\ let hist := RadarD.v_ego_hist (calls radar_d_005 [call_7; call_7]) in
     Deque.items hist
     = last_n (Deque.delay (RadarD.v_ego_hist radar_d_005) + 1)
         (Deque.items (RadarD.v_ego_hist radar_d_005)
          ++ vEgos [call_7; call_7])
     /\ Deque.delay hist = Deque.delay (RadarD.v_ego_hist radar_d_005)
     /\ RadarD.v_ego (calls radar_d_005 [call_7; call_7])
        = last (vEgos [call_7; call_7]) (RadarD.v_ego radar_d_005).
Proof.
  split; [simpl; lia|].
  apply (@v_ego_hist_window Reference.externals radar_d_005 [call_7; call_7]).
  simpl. lia.
Defined.

(** Whether or not the leads can be computed, a call of [update] sets
    the header of the radar state and decides its validity: the state is
    valid if and only if all the checks of the [SubMaster] pass and the
    frame has no radar error (no frame has none). *)
Theorem update_header (ext : Externals) (self : RadarD.t)
  (ShowRadarInfo MixRadarInfo : Z) (sm : SubMaster.t)
  (rr : option RadarData.t) :
  let self' := fst (RadarD.update self ShowRadarInfo MixRadarInfo sm rr) in
  (RadarD.radar_state_valid self' = true
   <-> SubMaster.all_checks sm = true /\ frame_errors rr = [])
  /\ RadarD.showRadarInfo self' = ShowRadarInfo
  /\ RadarD.mixRadarInfo self' = MixRadarInfo
  /\ RadarD.kalman_params self' = RadarD.kalman_params self
  /\ exists rs,
       RadarD.radar_state self' = Some rs
       /\ RadarState.mdMonoTime rs = SubMaster.logMonoTime_modelV2 sm
       /\ RadarState.carStateMonoTime rs = SubMaster.logMonoTime_carState sm
       /\ RadarState.radarErrors rs = frame_errors rr.
Proof.
  cbv zeta.
  destruct (update_outcome self ShowRadarInfo MixRadarInfo sm rr)
    as [one [two [ll [lc [lr [r [-> _]]]]]]].
  simpl fst. split; [|repeat split; eexists; repeat split].
  unfold RadarD.set_radar_state. simpl RadarD.radar_state_valid.
  rewrite andb_true_iff, Nat.eqb_eq, length_zero_iff_nil. tauto.
Qed.

(** Leads are published from two lead hypotheses on: with fewer, the
    call returns and both leads are [{'status': False}].  The leads of
    the adjacent paths are published only when, moreover, the core is
    ready and [ShowRadarInfo] is not zero: the three lists are empty if
    not. *)
Theorem published_leads_gated (ext : Externals) (self : RadarD.t)
  (ShowRadarInfo MixRadarInfo : Z) (sm : SubMaster.t)
  (rr : option RadarData.t) :
  let out := RadarD.update self ShowRadarInfo MixRadarInfo sm rr in
  exists rs,
    RadarD.radar_state (fst out) = Some rs
    /\ ((length (ModelV2.leadsV3 (SubMaster.modelV2 sm)) < 2)%nat ->
        snd out = Ok tt
        /\ RadarState.leadOne rs = StatusOnly false
        /\ RadarState.leadTwo rs = StatusOnly false)
    /\ ((length (ModelV2.leadsV3 (SubMaster.modelV2 sm)) < 2)%nat
        \/ ShowRadarInfo = 0%Z
        \/ RadarD.ready (fst out) = false ->
        RadarState.leadsLeft rs = [] /\ RadarState.leadsCenter rs = []
        /\ RadarState.leadsRight rs = []).
Proof.
  cbv zeta.
  destruct (update_outcome self ShowRadarInfo MixRadarInfo sm rr)
    as [one [two [ll [lc [lr [r [-> H]]]]]]].
  cbv zeta in H. simpl fst. simpl snd.
  eexists. split; [reflexivity|]. simpl.
  destruct (ModelV2.leadsV3 (SubMaster.modelV2 sm)) as [|lead0 [|lead1 rest]].
  - destruct H as [-> [-> [[= -> -> ->] ->]]]. repeat split.
  - destruct H as [-> [-> [[= -> -> ->] ->]]]. repeat split.
  - split; [simpl; lia|].
    intros [Hl|Hg]; [simpl in Hl; lia|].
    assert (G : RadarD.ready
                  (RadarD.update_tracks self ShowRadarInfo MixRadarInfo sm rr)
                && negb (ShowRadarInfo =? 0)%Z = false).
    { destruct Hg as [->|Hr].
      - simpl. apply andb_false_r.
      - simpl in Hr. simpl. rewrite Hr. reflexivity. }
    destruct (get_lead _ _ _ lead0 _ true _) as [d1|e].
    + destruct H as [_ H].
      destruct (get_lead _ _ _ lead1 _ false _) as [d2|e].
      * destruct H as [_ H]. rewrite G in H.
        destruct H as [[= -> -> ->] _]. repeat split.
      * destruct H as [_ [[= -> -> ->] _]]. repeat split.
    + destruct H as [_ [_ [[= -> -> ->] _]]]. repeat split.
Qed.
(** ** Further properties of a cycle: the leads and the frame *)

Section LeadsAndFrame.
Context {ext : Externals}.





End LeadsAndFrame.


(** ** Totality of a cycle *)

Section CycleTotal.
Context {ext : Externals}.

Lemma KalmanParams_init_returns (dt : Q) :
  0.01 < dt -> dt < 0.2 -> exists kp, KalmanParams.init dt = Ok kp.
Proof.
  intros Hlo Hhi. unfold KalmanParams.init.
  assert (G : negb ((0.01 <? dt) && (dt <? 0.2)) = false).
  { apply negb_false_iff, andb_true_iff. split; apply Qltb_lt; assumption. }
  rewrite G.
  unfold KalmanParams.K0 at 1, KalmanParams.K1 at 1.
  rewrite !interp_gain by (reflexivity || assumption).
  eexists. reflexivity.
Qed.

Lemma KalmanParams_init_raises (dt : Q) :
  ~ (0.01 < dt /\ dt < 0.2) -> KalmanParams.init dt = Raise AssertionError.
Proof.
  intro H. unfold KalmanParams.init.
  destruct ((0.01 <? dt) && (dt <? 0.2)) eqn:E; [|reflexivity].
  exfalso. apply H. apply andb_true_iff in E as [E1 E2].
  split; apply Qltb_lt; assumption.
Qed.

End CycleTotal.

(** The core can be built for a radar time step strictly between 0.01 s
    and 0.2 s, whatever the delay, and for no other: the construction
    raises [AssertionError] then.  The new core has no track, is not ready,
    has no radar state, and its history holds the speed 0.0 alone. *)
Theorem RadarD_init_state (ext : Externals) (radar_ts : Q) (delay : nat) :
  (0.01 < radar_ts /\ radar_ts < 0.2 ->
   exists s0,
     RadarD.init radar_ts delay = Ok s0
     /\ KalmanParams.init radar_ts = Ok (RadarD.kalman_params s0)
     /\ RadarD.tracks s0 = []
     /\ RadarD.ready s0 = false
     /\ RadarD.radar_state s0 = None
     /\ RadarD.v_ego s0 = 0
     /\ Deque.items (RadarD.v_ego_hist s0) = [0]
     /\ Deque.delay (RadarD.v_ego_hist s0) = delay)
  /\ (~ (0.01 < radar_ts /\ radar_ts < 0.2) ->
      RadarD.init radar_ts delay = Raise AssertionError).
Proof.
  split.
  - intros [Hlo Hhi].
    destruct (KalmanParams_init_returns Hlo Hhi) as [kp Hkp].
    unfold RadarD.init. rewrite Hkp. simpl bind.
    eexists. split; [reflexivity|]. repeat split.
  - intro H. unfold RadarD.init.
    rewrite (KalmanParams_init_raises H). reflexivity.
Qed.

Section UpdateReturns.
Context {ext : Externals}.

Lemma update_returns (self : RadarD.t) (ShowRadarInfo MixRadarInfo : Z)
  (sm : SubMaster.t) (rr : option RadarData.t) :
  well_formed (SubMaster.modelV2 sm) ->
  snd (RadarD.update self ShowRadarInfo MixRadarInfo sm rr) = Ok tt.
Proof.
  intro Hw.
  destruct (update_outcome self ShowRadarInfo MixRadarInfo sm rr)
    as [one [two [ll [lc [lr [r [-> H]]]]]]].
  cbv zeta in H. simpl snd.
  destruct (ModelV2.leadsV3 (SubMaster.modelV2 sm))
    as [|lead0 [|lead1 rest]] eqn:El; try tauto.
  set (s1 := RadarD.update_tracks self ShowRadarInfo MixRadarInfo sm rr)
    in *.
  destruct (@get_lead_cases ext (RadarD.v_ego s1) (RadarD.ready s1)
              (RadarD.tracks s1) lead0
              (model_speed (SubMaster.modelV2 sm) (RadarD.v_ego s1)) true
              MixRadarInfo) as [d1 [E1 _]].
  destruct (@get_lead_cases ext (RadarD.v_ego s1) (RadarD.ready s1)
              (RadarD.tracks s1) lead1
              (model_speed (SubMaster.modelV2 sm) (RadarD.v_ego s1)) false
              MixRadarInfo) as [d2 [E2 _]].
  rewrite E1, E2 in H. destruct H as [_ [_ H]].
  destruct (RadarD.ready s1 && negb (ShowRadarInfo =? 0)%Z); [|tauto].
  destruct (@adjacent_leads_returns ext (RadarD.v_ego s1)
              (SubMaster.modelV2 sm) (SubMaster.lateralPlan_laneWidth sm)
              (RadarD.tracks s1) MixRadarInfo Hw) as [out Eo].
  { rewrite El. discriminate. }
  rewrite Eo in H. tauto.
Qed.

End UpdateReturns.

(** On a well formed model message a call of [update] returns: no
    exception escapes, whatever the state, the flags and the frame. *)
Theorem update_total (ext : Externals) (self : RadarD.t)
  (ShowRadarInfo MixRadarInfo : Z) (sm : SubMaster.t)
  (rr : option RadarData.t) :
  well_formed (SubMaster.modelV2 sm) ->
  snd (RadarD.update self ShowRadarInfo MixRadarInfo sm rr) = Ok tt.
Proof.
  exact (@update_returns ext self ShowRadarInfo MixRadarInfo sm rr).
Qed.

Lemma update_total_witness :
  well_formed (ext := Reference.externals) (SubMaster.modelV2 cycle_inputs)
  /\ snd (RadarD.update radar_d_005 1 0 cycle_inputs (Some frame_track_7))
     = Ok tt.
Proof.
  assert (Hw : well_formed (ext := Reference.externals)
                 (SubMaster.modelV2 cycle_inputs)).
  { unfold well_formed. simpl. repeat split; try lia; try discriminate.
    constructor. }
  split; [exact Hw|].
  exact (@update_total Reference.externals radar_d_005 1 0 cycle_inputs
           (Some frame_track_7) Hw).
Defined.

(** ** Publication *)

Section Publication.
Context {ext : Externals}.

Lemma set_item_app (A : Type) (pre post : list A) (a0 a : A) :
  set_item (pre ++ a0 :: post) (length pre) a = Ok (pre ++ a :: post).
Proof.
  induction pre as [|b pre IH]; simpl; [reflexivity|].
  rewrite IH. reflexivity.
Qed.

Lemma key_get (V : Type) (d : PyDict.t Z V) (k : Z) :
  In k (PyDict.keys d) -> exists v, PyDict.get Z.eqb d k = Some v.
Proof.
  intro H. apply (dict_mem_keys Z.eqb Zeqb_eq) in H. unfold PyDict.mem in H.
  destruct (PyDict.get Z.eqb d k) as [v|]; [|discriminate H].
  exists v. reflexivity.
Qed.

(** The loop that fills [liveTracks], from the index [length pre] on. *)
Lemma live_tracks_fill (tracks : Tracks) (ks : list Z) :
  (forall k, In k ks -> In k (PyDict.keys tracks)) ->
  forall pre,
    for_each
      (fun msg (entry : nat * Z) =>
         let '(index, tid) := entry in
         t1 <- PyDict.lookup Z.eqb tracks tid ;;
         t2 <- PyDict.lookup Z.eqb tracks tid ;;
         t3 <- PyDict.lookup Z.eqb tracks tid ;;
         set_item msg index
           {| LiveTrack.trackId := tid;
              LiveTrack.dRel := Track.dRel t1;
              LiveTrack.yRel := Track.yRel t2;
              LiveTrack.vRel := Track.vRel t3 |})
      (combine (seq (length pre) (length ks)) ks)
      (pre ++ repeat LiveTrack.new_message (length ks))
    = Ok (pre ++ map (live_track tracks) ks).
Proof.
  induction ks as [|k ks IH]; intros Hk pre.
  - simpl. reflexivity.
  - simpl length. simpl seq. simpl combine. simpl repeat.
    simpl for_each.
    destruct (key_get tracks k (Hk k (or_introl eq_refl))) as [t Ht].
    unfold PyDict.lookup at 1 2 3. rewrite Ht. simpl bind.
    rewrite set_item_app. simpl bind.
    specialize (IH (fun k' H' => Hk k' (or_intror H'))
                   (pre ++ [{| LiveTrack.trackId := k;
                               LiveTrack.dRel := Track.dRel t;
                               LiveTrack.yRel := Track.yRel t;
                               LiveTrack.vRel := Track.vRel t |}])).
    rewrite length_app, Nat.add_1_r, <- !app_assoc in IH. simpl app in IH.
    rewrite IH. simpl map. unfold live_track at 2. rewrite Ht. reflexivity.
Qed.

Lemma live_tracks_value (tracks : Tracks) :
  RadarD.live_tracks tracks
  = Ok (map (live_track tracks) (sorted inject_Z (PyDict.keys tracks))).
Proof.
  unfold RadarD.live_tracks, enumerate.
  pose proof (live_tracks_fill tracks
                (sorted inject_Z (PyDict.keys tracks))) as H.
  specialize (H (fun k Hk => proj1 (sorted_In inject_Z _ k) Hk) []).
  simpl app in H. simpl length in H.
  replace (PyDict.len tracks)
    with (length (sorted inject_Z (PyDict.keys tracks))).
  - exact H.
  - rewrite (Permutation_length (sorted_perm inject_Z _)).
    unfold PyDict.keys, PyDict.len. apply length_map.
Qed.

(** What [publish] sends once a radar state exists. *)
Lemma publish_value (self : RadarD.t) (rs : RadarState.t) (pm : PubMaster)
  (lag_ms : Q) :
  RadarD.radar_state self = Some rs ->
  RadarD.publish self pm lag_ms
  = (pm ++ [radarState (RadarD.radar_state_valid self) rs lag_ms;
            liveTracks (map (live_track (RadarD.tracks self))
                          (sorted inject_Z
                             (PyDict.keys (RadarD.tracks self))))], Ok tt).
Proof.
  intro H. unfold RadarD.publish. rewrite H, live_tracks_value.
  rewrite <- app_assoc. reflexivity.
Qed.

End Publication.

(** [liveTracks] holds one element for each track of the map, in the
    ascending order of the track identifiers, with [dRel], [yRel] and
    [vRel] of the track: reading the tracks back raises no [KeyError] and
    filling the message no [IndexError]. *)
Theorem live_tracks_sorted (ext : Externals) (tracks : Tracks) :
  exists msg,
    RadarD.live_tracks tracks = Ok msg
    /\ length msg = PyDict.len tracks
    /\ Permutation (map LiveTrack.trackId msg) (PyDict.keys tracks)
    /\ StronglySorted
         (fun a b => (LiveTrack.trackId a <= LiveTrack.trackId b)%Z) msg
    /\ forall e,
         In e msg ->
         exists t,
           PyDict.get Z.eqb tracks (LiveTrack.trackId e) = Some t
           /\ LiveTrack.dRel e = Track.dRel t
           /\ LiveTrack.yRel e = Track.yRel t
           /\ LiveTrack.vRel e = Track.vRel t.
Proof.
  eexists. split; [apply live_tracks_value|].
  assert (Hid : forall k, In k (PyDict.keys tracks) ->
                  LiveTrack.trackId (live_track tracks k) = k).
  { intros k Hk. unfold live_track.
    destruct (key_get tracks k Hk) as [t ->]. reflexivity. }
  split; [|split; [|split]].
  - rewrite length_map, (Permutation_length (sorted_perm inject_Z _)).
    unfold PyDict.keys, PyDict.len. apply length_map.
  - rewrite map_map.
    rewrite (map_ext_in _ (fun k => k)).
    + rewrite map_id. apply sorted_perm.
    + intros k Hk. apply Hid. exact (proj1 (sorted_In inject_Z _ _) Hk).
  - apply in_order_map with (R := key_le inject_Z);
      [|apply sorted_ordered].
    intros a b Ha Hb Hab. unfold key_le in Hab.
    apply (proj1 (sorted_In inject_Z _ _)) in Ha.
    apply (proj1 (sorted_In inject_Z _ _)) in Hb.
    rewrite (Hid a Ha), (Hid b Hb), Zle_Qle. exact Hab.
  - intros e He. apply in_map_iff in He as [k [<- Hk]].
    apply (proj1 (sorted_In inject_Z _ _)) in Hk.
    unfold live_track. destruct (key_get tracks k Hk) as [t Ht].
    rewrite Ht. simpl. exists t. rewrite Ht. repeat split.
Qed.

(** [publish] asserts that a radar state exists: on a core that has not
    been updated it raises [AssertionError] and sends nothing.  After a
    call of [update] it returns, and has sent two messages: [radarState],
    with the validity, the radar state and the lag, and then
    [liveTracks]. *)
Theorem publish_after_update (ext : Externals) (self : RadarD.t)
  (ShowRadarInfo MixRadarInfo : Z) (sm : SubMaster.t)
  (rr : option RadarData.t) (pm : PubMaster) (lag_ms : Q) :
  (RadarD.radar_state self = None ->
   RadarD.publish self pm lag_ms = (pm, Raise AssertionError))
  /\ let self' := fst (RadarD.update self ShowRadarInfo MixRadarInfo sm rr) in
     exists rs msg,
       RadarD.radar_state self' = Some rs
       /\ RadarD.live_tracks (RadarD.tracks self') = Ok msg
       /\ RadarD.publish self' pm lag_ms
          = (pm ++ [radarState (RadarD.radar_state_valid self') rs lag_ms;
                    liveTracks msg], Ok tt).
Proof.
  split.
  - intro H. unfold RadarD.publish. rewrite H. reflexivity.
  - cbv zeta.
    destruct (update_state self ShowRadarInfo MixRadarInfo sm rr)
      as [valid [rs ->]].
    exists rs. eexists. split; [reflexivity|].
    split; [apply live_tracks_value|].
    apply publish_value. reflexivity.
Qed.

(** ** The thread *)

Section ThreadFacts.
Context {ext : Externals}.



End ThreadFacts.


(** ** The order of the track map *)

Section TrackOrder.
Context {ext : Externals}.

Lemma existsb_In (k : Z) (l : list Z) :
  existsb (Z.eqb k) l = true <-> In k l.
Proof.
  rewrite existsb_exists. split.
  - intros [x [Hx E]]. apply Z.eqb_eq in E. subst x. exact Hx.
  - intro H. exists k. split; [exact H | apply Z.eqb_refl].
Qed.

Lemma keys_set (V : Type) (d : PyDict.t Z V) (k : Z) (v : V) :
  PyDict.keys (PyDict.set Z.eqb d k v) = add_key (PyDict.keys d) k.
Proof.
  unfold add_key. induction d as [|[k0 v0] d IH]; simpl; [reflexivity|].
  rewrite (Z.eqb_sym k k0).
  destruct (Z.eqb_spec k0 k) as [->|Hne]; simpl; [reflexivity|].
  rewrite IH. destruct (existsb (Z.eqb k) (PyDict.keys d)); reflexivity.
Qed.

Lemma collect_points_order (pts : list RadarPoint.t) :
  PyDict.keys (RadarD.collect_points pts)
  = add_keys [] (map RadarPoint.trackId pts).
Proof.
  unfold RadarD.collect_points, add_keys.
  change (@nil Z) with (PyDict.keys (PyDict.empty Z (Q * Q * Q * bool))).
  generalize (PyDict.empty Z (Q * Q * Q * bool)).
  induction pts as [|pt pts IH]; intro acc; simpl; [reflexivity|].
  rewrite IH, keys_set. reflexivity.
Qed.

Lemma upsert_order (kp : KalmanParams.t) (hist : Deque.t)
  (ar_pts : RadarD.RadarPts) :
  forall tracks : Tracks,
    PyDict.keys (RadarD.upsert kp hist tracks ar_pts)
    = add_keys (PyDict.keys tracks) (PyDict.keys ar_pts).
Proof.
  induction ar_pts as [|[ids [[[d y] v] me]] ar_pts IH]; intro tracks;
    [reflexivity|].
  rewrite upsert_cons, IH. unfold RadarD.upsert_one. rewrite keys_set.
  reflexivity.
Qed.

Lemma add_key_In (keys : list Z) (k x : Z) :
  In x (add_key keys k) <-> In x keys \/ x = k.
Proof.
  unfold add_key. destruct (existsb (Z.eqb k) keys) eqn:E.
  - apply existsb_In in E. split; [auto|]. intros [H| ->]; assumption.
  - rewrite in_app_iff. simpl. intuition congruence.
Qed.

Lemma add_keys_In (ids keys : list Z) (x : Z) :
  In x (add_keys keys ids) <-> In x keys \/ In x ids.
Proof.
  unfold add_keys. revert keys.
  induction ids as [|k ids IH]; intro keys; simpl; [tauto|].
  rewrite IH, add_key_In. intuition congruence.
Qed.

Lemma add_keys_snoc (keys ids : list Z) (k : Z) :
  add_keys keys (ids ++ [k]) = add_key (add_keys keys ids) k.
Proof. unfold add_keys. rewrite fold_left_app. reflexivity. Qed.

(** Keys that have been gathered one by one are added as the keys they
    were gathered from. *)
Lemma add_keys_gathered (ids : list Z) :
  forall pre keys,
    add_keys keys (add_keys pre ids) = add_keys (add_keys keys pre) ids.
Proof.
  induction ids as [|k ids IH]; intros pre keys; [reflexivity|].
  change (add_keys pre (k :: ids)) with (add_keys (add_key pre k) ids).
  rewrite IH.
  change (add_keys (add_keys keys pre) (k :: ids))
    with (add_keys (add_key (add_keys keys pre) k) ids).
  f_equal. unfold add_key at 1.
  destruct (existsb (Z.eqb k) pre) eqn:E.
  - apply existsb_In in E. unfold add_key.
    assert (Hin : In k (add_keys keys pre)) by (apply add_keys_In; auto).
    apply existsb_In in Hin. rewrite Hin. reflexivity.
  - apply add_keys_snoc.
Qed.

Lemma evict_order (tracks : Tracks) (pts : list RadarPoint.t) :
  PyDict.keys (RadarD.evict tracks (RadarD.collect_points pts))
  = filter (fun k => existsb (Z.eqb k) (map RadarPoint.trackId pts))
      (PyDict.keys tracks).
Proof.
  rewrite evict_filter. unfold PyDict.keys.
  induction tracks as [|[k t] tracks IH]; simpl; [reflexivity|].
  assert (E : PyDict.mem Z.eqb (RadarD.collect_points pts) k
              = existsb (Z.eqb k) (map RadarPoint.trackId pts)).
  { apply eq_true_iff_eq.
    rewrite (dict_mem_keys Z.eqb Zeqb_eq), collect_points_keys, existsb_In.
    tauto. }
  rewrite E. destruct (existsb (Z.eqb k) (map RadarPoint.trackId pts)); simpl;
    rewrite IH; reflexivity.
Qed.

End TrackOrder.

(** The order of the track map, on which the first maximum, the first
    minimum and the last record of a corridor depend: after a call of
    [update] the map holds the tracks that stay, in the order they had,
    followed by the new tracks, in the order in which their identifiers
    first appear in the frame. *)
Theorem track_map_order (ext : Externals) (self : RadarD.t)
  (ShowRadarInfo MixRadarInfo : Z) (sm : SubMaster.t)
  (rr : option RadarData.t) :
  let self' := fst (RadarD.update self ShowRadarInfo MixRadarInfo sm rr) in
  PyDict.keys (RadarD.tracks self')
  = add_keys
      (filter (fun k => existsb (Z.eqb k) (frame_ids rr))
         (PyDict.keys (RadarD.tracks self)))
      (frame_ids rr).
Proof.
  cbv zeta. rewrite update_tracks_kept. unfold RadarD.update_tracks. simpl.
  fold (frame_points rr).
  rewrite upsert_order, evict_order, collect_points_order.
  fold (frame_ids rr). rewrite add_keys_gathered. reflexivity.
Qed.
